(** * NeuroZK-Trader: feature/label builder, signal and cost engine, evaluator

    A shallow embedding of [ai/core.py] ([_bar_to_steps],
    [FeatureBuilder.build_from_candles]) and [ai/backtest.py]
    ([_bar_to_minutes], [_annualization_factor], [_signals_from_probs],
    [_trade_stats_from_series], [run_backtest]), followed by the properties
    of the specification that concern them.

    Conventions of the embedding

    - A float64 is an [npfloat]: an exact rational, an infinity or NaN.
      Arithmetic on finite values is exact (no rounding, no overflow, a single
      unsigned zero); operations on the special values follow IEEE 754.
      The statements keep to what rounding preserves: which branch is taken,
      signs and order, and values written as the expression of the code.
      None rests on a cancellation that only exact arithmetic has (a zero
      standard deviation of a constant series) or on a product that neither
      underflows nor overflows.
    - A pandas Series with the RangeIndex produced by [fetch_candles]
      ([reset_index(drop=True)]) is the list of its values; a Series or frame
      that went through a boolean mask is an association list from the
      surviving index labels to rows, in order.
    - A Python exception is a value [inl e] of the [result] type.
    - A [str] is a [string] whose characters are the code points below 256. *)

From Stdlib Require Import ZArith QArith Qabs Qround Bool Ascii String List Lia Lqa.
From Stdlib Require Import DecimalString DecimalZ DecimalPos.
Import ListNotations.

Local Open Scope Z_scope.

(* ===================================================================== *)
(** ** Python exceptions *)

Inductive pyexc : Type :=
| IndexError
| ZeroDivisionError
| ValueError
| KeyError.

Definition result (A : Type) : Type := (pyexc + A)%type.

Definition raise {A : Type} (e : pyexc) : result A := inl e.
Definition ok {A : Type} (a : A) : result A := inr a.

Declare Scope py_scope.
Delimit Scope py_scope with py.
Notation "x <- c ;; k" :=
  (match c with inl e => inl e | inr x => k end)
  (at level 61, c at next level, right associativity) : py_scope.
Local Open Scope py_scope.

(* ===================================================================== *)
(** ** float64 values *)

Inductive npfloat : Type :=
| Fin (q : Q)
| Inf (neg : bool)
| NaN.

Definition Qlt_bool (a b : Q) : bool := negb (Qle_bool b a).
Definition Qneg (a : Q) : bool := Qlt_bool a 0.

Definition fopp (a : npfloat) : npfloat :=
  match a with
  | Fin q => Fin (- q)
  | Inf s => Inf (negb s)
  | NaN => NaN
  end.

Definition fadd (a b : npfloat) : npfloat :=
  match a, b with
  | Fin x, Fin y => Fin (x + y)
  | Fin _, Inf s => Inf s
  | Inf s, Fin _ => Inf s
  | Inf s, Inf s' => if Bool.eqb s s' then Inf s else NaN
  | _, _ => NaN
  end.

Definition fsub (a b : npfloat) : npfloat := fadd a (fopp b).

Definition fmul (a b : npfloat) : npfloat :=
  match a, b with
  | Fin x, Fin y => Fin (x * y)
  | Fin x, Inf s => if Qeq_bool x 0 then NaN else Inf (xorb (Qneg x) s)
  | Inf s, Fin y => if Qeq_bool y 0 then NaN else Inf (xorb s (Qneg y))
  | Inf s, Inf s' => Inf (xorb s s')
  | _, _ => NaN
  end.

Definition fdiv (a b : npfloat) : npfloat :=
  match a, b with
  | Fin x, Fin y =>
      if Qeq_bool y 0
      then (if Qeq_bool x 0 then NaN else Inf (Qneg x))
      else Fin (x / y)
  | Fin _, Inf _ => Fin 0
  | Inf s, Fin y => Inf (xorb s (Qneg y))
  | _, _ => NaN
  end.

Definition fabs (a : npfloat) : npfloat :=
  match a with
  | Fin q => Fin (Qabs q)
  | Inf _ => Inf false
  | NaN => NaN
  end.

(** Comparisons: every comparison with NaN is false. *)
Definition fltb (a b : npfloat) : bool :=
  match a, b with
  | Fin x, Fin y => Qlt_bool x y
  | Fin _, Inf s => negb s
  | Inf s, Fin _ => s
  | Inf s, Inf s' => s && negb s'
  | _, _ => false
  end.

Definition fleb (a b : npfloat) : bool :=
  match a, b with
  | Fin x, Fin y => Qle_bool x y
  | Fin _, Inf s => negb s
  | Inf s, Fin _ => s
  | Inf s, Inf s' => s || negb s'
  | _, _ => false
  end.

Definition fgtb (a b : npfloat) : bool := fltb b a.
Definition fgeb (a b : npfloat) : bool := fleb b a.

Definition feqb (a b : npfloat) : bool :=
  match a, b with
  | Fin x, Fin y => Qeq_bool x y
  | Inf s, Inf s' => Bool.eqb s s'
  | _, _ => false
  end.

Definition isna (a : npfloat) : bool :=
  match a with NaN => true | _ => false end.

Definition isfinite (a : npfloat) : bool :=
  match a with Fin _ => true | _ => false end.

Definition of_Z (z : Z) : npfloat := Fin (inject_Z z).
Definition of_nat (n : nat) : npfloat := of_Z (Z.of_nat n).

(** Same float: equal rationals, the same infinity, or both NaN. *)
Definition same_float (a b : npfloat) : Prop :=
  match a, b with
  | Fin x, Fin y => x == y
  | Inf s, Inf s' => s = s'
  | NaN, NaN => True
  | _, _ => False
  end.

(** [np.sqrt]: the square root of a rational is irrational in general; it is
    taken rounded up at a fixed binary precision.  It is [0] at [0] and
    positive on positive arguments, as the IEEE square root is. *)
Definition sqrt_bits : Z := 64.

Definition Qsqrt (x : Q) : Q :=
  let r := Qred x in
  let s := 2 ^ sqrt_bits in
  Qred (Qmake (Z.sqrt_up (Qnum r * Zpos (Qden r) * (s * s)))
              (Qden r * Z.to_pos s)).

Definition fsqrt (a : npfloat) : npfloat :=
  match a with
  | Fin q => if Qneg q then NaN else Fin (Qsqrt q)
  | Inf false => Inf false
  | _ => NaN
  end.

(** Float literals of the source. *)
Definition eps9 : Q := 1 # 1000000000.          (* 1e-9 *)
Definition eps12 : Q := 1 # 1000000000000.      (* 1e-12 *)

(* ===================================================================== *)
(** ** Python strings and [int()] *)

Definition code (c : ascii) : N := N_of_ascii c.

(** [str.isspace] on the code points below 256. *)
Definition is_space (c : ascii) : bool :=
  let n := code c in
  ((9 <=? n) && (n <=? 13) || (28 <=? n) && (n <=? 32)
   || (n =? 133) || (n =? 160))%N.

(** [str.lower] on one character. *)
Definition lower_char (c : ascii) : ascii :=
  let n := code c in
  if ((65 <=? n) && (n <=? 90)
      || (192 <=? n) && (n <=? 222) && negb (n =? 215))%N
  then ascii_of_N (n + 32)
  else c.

Definition digit_val (c : ascii) : option Z :=
  let n := code c in
  if ((48 <=? n) && (n <=? 57))%N then Some (Z.of_N n - 48) else None.

Definition underscore : ascii := "_"%char.

Fixpoint lstrip (l : list ascii) : list ascii :=
  match l with
  | c :: r => if is_space c then lstrip r else l
  | [] => []
  end.

Definition rstrip (l : list ascii) : list ascii := rev (lstrip (rev l)).

(** [str.strip()] *)
Definition strip (l : list ascii) : list ascii := rstrip (lstrip l).

(** The digits of a decimal literal: single underscores may separate digits,
    none may lead or trail.  [prev_us] says that the previous character was an
    underscore (or that no digit was read yet); the result carries the number
    of digits read. *)
Fixpoint scan_digits (acc : Z) (ndig : nat) (prev_us : bool) (l : list ascii)
  : option (Z * nat) :=
  match l with
  | [] => if prev_us then None else Some (acc, ndig)
  | c :: r =>
      if Ascii.eqb c underscore
      then (if prev_us then None else scan_digits acc ndig true r)
      else match digit_val c with
           | Some d => scan_digits (10 * acc + d) (S ndig) false r
           | None => None
           end
  end.

(** [sys.get_int_max_str_digits()], the default of CPython. *)
Definition int_max_str_digits : nat := 4300.

(** The blanks that [int()] skips around a literal: the white space of C
    ([Py_ISSPACE]) and, above the ASCII range, the Unicode spaces, which it
    first turns into blanks.  The separators U+001C to U+001F, which
    [str.isspace] and [str.strip] count as white space, are not among them:
    [int] raises [ValueError] on a literal that has one. *)
Definition is_int_space (c : ascii) : bool :=
  let n := code c in
  ((9 <=? n) && (n <=? 13) || (n =? 32) || (n =? 133) || (n =? 160))%N.

Fixpoint int_lstrip (l : list ascii) : list ascii :=
  match l with
  | c :: r => if is_int_space c then int_lstrip r else l
  | [] => []
  end.

Definition int_strip (l : list ascii) : list ascii :=
  rev (int_lstrip (rev (int_lstrip l))).

(** [int(s)] for a [str] in base 10; [None] is [ValueError]. *)
Definition py_int (s : list ascii) : option Z :=
  let body := int_strip s in
  let '(neg, ds) :=
    match body with
    | c :: r =>
        if Ascii.eqb c "-"%char then (true, r)
        else if Ascii.eqb c "+"%char then (false, r)
        else (false, body)
    | [] => (false, body)
    end in
  match scan_digits 0 0 true ds with
  | Some (v, nd) =>
      if (nd <=? int_max_str_digits)%nat
      then Some (if neg then - v else v)
      else None
  | None => None
  end.

(** [bar[-1]]: [IndexError] on the empty string. *)
Definition last_char (l : list ascii) : result ascii :=
  match l with
  | [] => raise IndexError
  | c :: r => ok (last r c)
  end.

(** [bar[:-1]] *)
Definition but_last (l : list ascii) : list ascii := removelast l.

(** [try: val = int(bar[:-1]) / except Exception: val = 1] *)
Definition bar_val (l : list ascii) : Z :=
  match py_int (but_last l) with
  | Some v => v
  | None => 1
  end.

(** [a // b] on Python ints. *)
Definition floordiv (a b : Z) : result Z :=
  if b =? 0 then raise ZeroDivisionError else ok (a / b).

(* ===================================================================== *)
(** ** [ai/core.py]: [_bar_to_steps] *)

Definition _bar_to_steps (bar : string) (horizon_min : Z) : result Z :=
  let l := list_ascii_of_string bar in
  u <- last_char l ;;
  let unit := lower_char u in
  let val := bar_val l in
  if Ascii.eqb unit "m"%char then
    q <- floordiv horizon_min val ;;
    ok (Z.max 1 q)
  else if Ascii.eqb unit "h"%char then
    q1 <- floordiv horizon_min 60 ;;
    q2 <- floordiv q1 (Z.max 1 val) ;;
    ok (Z.max 1 q2)
  else ok (Z.max 1 horizon_min).

(* ===================================================================== *)
(** ** [ai/backtest.py]: bar duration and annualization *)

Definition _bar_to_minutes (bar : string) : result Z :=
  let l := strip (list_ascii_of_string bar) in
  u <- last_char l ;;
  let unit := lower_char u in
  let val := bar_val l in
  if Ascii.eqb unit "m"%char then ok (Z.max 1 val)
  else if Ascii.eqb unit "h"%char then ok (Z.max 1 (60 * val))
  else if Ascii.eqb unit "d"%char then ok (Z.max 1 (60 * 24 * val))
  else ok 1.

Definition _annualization_factor (bar : string) : result npfloat :=
  mins <- _bar_to_minutes bar ;;
  let periods_per_year := fdiv (of_Z (365 * 24 * 60)) (of_Z mins) in
  ok (fsqrt periods_per_year).

(* ===================================================================== *)
(** ** numpy and pandas operations on columns *)

(** A Series or frame after boolean masking: surviving labels with rows. *)
Definition series (A : Type) : Type := list (nat * A).

Definition index {A : Type} (s : series A) : list nat := map fst s.
Definition values {A : Type} (s : series A) : list A := map snd s.

(** [s.loc[label]] used as a scalar: [KeyError] when the label is absent;
    with a repeated label pandas hands back a Series, whose use as a
    scalar raises [ValueError]. *)
Definition loc {A : Type} (s : series A) (label : nat) : result A :=
  match filter (fun p => (fst p =? label)%nat) s with
  | [] => raise KeyError
  | [p] => ok (snd p)
  | _ => raise ValueError
  end.

(** Element-wise binary operation on two arrays of one shape. *)
Definition zip_with {A B C : Type} (f : A -> B -> C)
  (a : list A) (b : list B) : list C :=
  map (fun p => f (fst p) (snd p)) (combine a b).

Definition fsum (l : list npfloat) : npfloat := fold_left fadd l (Fin 0).

(** [Series.shift(periods)]: vacated places hold NaN. *)
Definition shift (periods : Z) (l : list npfloat) : list npfloat :=
  let n := length l in
  if 0 <=? periods then
    let k := Nat.min (Z.to_nat periods) n in
    repeat NaN k ++ firstn (n - k) l
  else
    let k := Nat.min (Z.to_nat (- periods)) n in
    skipn k l ++ repeat NaN k.

(** [Series.fillna(v)] *)
Definition fillna (v : npfloat) (l : list npfloat) : list npfloat :=
  map (fun x => if isna x then v else x) l.

(** [fillna(method="pad")]: a NaN takes the last value before it. *)
Fixpoint ffill_from (prev : npfloat) (l : list npfloat) : list npfloat :=
  match l with
  | [] => []
  | x :: r => let y := if isna x then prev else x in y :: ffill_from y r
  end.

Definition ffill (l : list npfloat) : list npfloat := ffill_from NaN l.

(** [fillna(method="bfill")]: a NaN takes the next value after it. *)
Definition bfill (l : list npfloat) : list npfloat := rev (ffill (rev l)).

(** [Series.pct_change(periods)] with its default [fill_method="pad"]. *)
Definition pct_change (periods : Z) (l : list npfloat) : list npfloat :=
  let data := ffill l in
  let shifted := shift periods data in
  map (fun x => fsub x (Fin 1)) (zip_with fdiv data shifted).

(** [Series.rolling(w).mean()]: pandas turns the infinite values of the
    series into NaN before it rolls, so the mean is NaN until the window is
    full and wherever the window holds a value that is not finite; each
    window is summed on its own. *)
Definition rolling_mean (w : nat) (l : list npfloat) : list npfloat :=
  map (fun t =>
         if (w <=? t + 1)%nat then
           let win := firstn w (skipn (t + 1 - w) l) in
           if forallb isfinite win then fdiv (fsum win) (of_nat w) else NaN
         else NaN)
      (seq 0 (length l)).

(** [frame[mask]]: the rows where the mask is true. *)
Fixpoint select {A : Type} (rows : list A) (mask : list bool) : list A :=
  match rows, mask with
  | r :: rs, m :: ms => if m then r :: select rs ms else select rs ms
  | _, _ => []
  end.

(** Rows with the RangeIndex labels [0 .. n-1]. *)
Definition labelled {A : Type} (rows : list A) : series A :=
  combine (seq 0 (length rows)) rows.

(* ===================================================================== *)
(** ** [ai/core.py]: [FeatureBuilder.build_from_candles] *)

Record candle : Type := mkCandle {
  ts : Z;
  open : npfloat;
  high : npfloat;
  low : npfloat;
  close : npfloat;
  vol : npfloat
}.

(** The feature frame: one row per candle, the columns in the order of
    assignment. *)
Definition features (df : list candle) : list (list npfloat) :=
  let close := map close df in
  let ret_1 := fillna (Fin 0) (pct_change 1 close) in
  let ret_3 := fillna (Fin 0) (pct_change 3 close) in
  let ret_5 := fillna (Fin 0) (pct_change 5 close) in
  let ma_5 := bfill (rolling_mean 5 close) in
  let ma_10 := bfill (rolling_mean 10 close) in
  let ma_ratio :=
    fillna (Fin 0)
      (map (fun x => fsub x (Fin 1))
         (zip_with fdiv ma_5 (map (fun x => fadd x (Fin eps9)) ma_10))) in
  let vol := fillna (Fin 0) (map vol df) in
  let vol_ma_10 := bfill (rolling_mean 10 vol) in
  let vol_ratio :=
    fillna (Fin 0)
      (zip_with fdiv vol (map (fun x => fadd x (Fin eps9)) vol_ma_10)) in
  let hl_range :=
    zip_with fdiv (zip_with fsub (map high df) (map low df))
      (map (fun x => fadd x (Fin eps9)) close) in
  let columns :=
    [ret_1; ret_3; ret_5; ma_5; ma_10; ma_ratio; vol; vol_ma_10; vol_ratio;
     hl_range] in
  map (fun t => map (fun col => nth t col NaN) columns) (seq 0 (length df)).

(** [future = close.shift(-horizon_steps)] *)
Definition future (df : list candle) (horizon_steps : Z) : list npfloat :=
  shift (- horizon_steps) (map close df).

(** [y_cls]: the directional label of every row, before truncation. *)
Definition y_cls (df : list candle) (horizon_steps : Z) : list Z :=
  let close := map close df in
  let y :=
    fillna (Fin 0)
      (map (fun x => fsub x (Fin 1))
         (zip_with fdiv (future df horizon_steps) close)) in
  map (fun v => if fgeb v (Fin 0) then 1 else 0) y.

(** [valid_idx = ~future.isna()] *)
Definition valid_idx (df : list candle) (horizon_steps : Z) : list bool :=
  map (fun x => negb (isna x)) (future df horizon_steps).

Definition build_from_candles (df : list candle) (horizon_steps : Z)
  : series (list npfloat) * series Z :=
  let feat := features df in
  (select (labelled feat) (valid_idx df horizon_steps),
   select (labelled (y_cls df horizon_steps)) (valid_idx df horizon_steps)).

(* ===================================================================== *)
(** ** More numpy *)

(** [np.roll(a, k)] for [k >= 0]. *)
Definition np_roll {A : Type} (a : list A) (k : nat) : list A :=
  let n := length a in
  match n with
  | O => []
  | _ => let k' := (k mod n)%nat in skipn (n - k') a ++ firstn (n - k') a
  end.

(** [a[0] = v]: [IndexError] on an array of size 0. *)
Definition setitem0 {A : Type} (a : list A) (v : A) : result (list A) :=
  match a with
  | [] => raise IndexError
  | _ :: r => ok (v :: r)
  end.

(** [a[mask] = v] *)
Definition mask_assign (a : list npfloat) (mask : list bool) (v : npfloat)
  : list npfloat :=
  zip_with (fun x (m : bool) => if m then v else x) a mask.

(** [index[mask]] with a boolean array: the shapes must agree. *)
Definition bool_index {A : Type} (a : list A) (mask : list bool)
  : result (list A) :=
  if (length mask =? length a)%nat then ok (select a mask)
  else raise IndexError.

Fixpoint cumprod_from (acc : npfloat) (l : list npfloat) : list npfloat :=
  match l with
  | [] => []
  | x :: r => let p := fmul acc x in p :: cumprod_from p r
  end.

(** [np.cumprod].  The products are exact: binary64 may round a long
    product to [0.0] or to [inf], and the statements about it allow both. *)
Definition cumprod (l : list npfloat) : list npfloat :=
  match l with
  | [] => []
  | x :: r => x :: cumprod_from x r
  end.

(** [np.mean]: NaN ([0/0]) on an empty array. *)
Definition np_mean (l : list npfloat) : npfloat :=
  fdiv (fsum l) (of_nat (length l)).

(** [np.std] (population standard deviation, [ddof=0]): the square root of
    the mean of the squared deviations from the mean.  On exact rationals
    the deviations of a constant series cancel, which binary64 does not
    promise; no statement below uses that. *)
Definition np_std (l : list npfloat) : npfloat :=
  let m := np_mean l in
  let x := map (fun v => fsub v m) l in
  fsqrt (np_mean (zip_with fmul x x)).

Definition Qtrunc (q : Q) : Z := if Qneg q then Qceiling q else Qfloor q.

(** [Series.astype(int)]: truncation; a non-finite value is refused. *)
Fixpoint astype_int (l : list npfloat) : result (list Z) :=
  match l with
  | [] => ok []
  | Fin q :: r => r' <- astype_int r ;; ok (Qtrunc q :: r')
  | _ :: _ => raise ValueError
  end.

(* ===================================================================== *)
(** ** [ai/backtest.py]: signals and trade statistics *)

Definition _signals_from_probs (probs : list npfloat)
  (thr_long thr_short : npfloat) : list npfloat :=
  let sig := map (fun _ => Fin 0) probs in
  let sig := mask_assign sig (map (fun p => fgtb p thr_long) probs) (Fin 1) in
  let sig :=
    mask_assign sig (map (fun p => fltb p thr_short) probs) (Fin (-1)) in
  sig.

(** [pos = positions.fillna(0).astype(int)] *)
Definition trade_pos (positions : series npfloat) : result (list Z) :=
  astype_int (fillna (Fin 0) (values positions)).

Definition is0 (x : npfloat) : bool := feqb x (Fin 0).
Definition nonzero (p : Z) : bool := negb (p =? 0).

(** [starts = (pos.shift(1).fillna(0) == 0) & (pos != 0)] *)
Definition trade_starts (pos : list Z) : list bool :=
  zip_with andb
    (map is0 (fillna (Fin 0) (shift 1 (map of_Z pos))))
    (map nonzero pos).

(** [ends = (pos != 0) & (pos.shift(-1).fillna(0) == 0)] *)
Definition trade_ends (pos : list Z) : list bool :=
  zip_with andb
    (map nonzero pos)
    (map is0 (fillna (Fin 0) (shift (-1) (map of_Z pos)))).

(** The loop over [range(n)] that counts the winning trades. *)
Fixpoint count_wins (equity : series npfloat) (pairs : list (nat * nat))
  (wins : nat) : result nat :=
  match pairs with
  | [] => ok wins
  | (s, e) :: r =>
      at_end <- loc equity e ;;
      at_start <- loc equity s ;;
      count_wins equity r (if fgtb at_end at_start then S wins else wins)
  end.

(** The local state of [_trade_stats_from_series] before its return: the
    trade count [n] and [wins].  ([changes] is computed by the source and
    never read.) *)
Definition trade_counts (equity positions : series npfloat)
  : result (nat * nat) :=
  pos <- trade_pos positions ;;
  start_idx <- bool_index (index equity) (trade_starts pos) ;;
  end_idx <- bool_index (index equity) (trade_ends pos) ;;
  let n := Nat.min (length start_idx) (length end_idx) in
  wins <- count_wins equity (firstn n (combine start_idx end_idx)) 0 ;;
  ok (n, wins).

Definition _trade_stats_from_series (equity positions : series npfloat)
  : result (nat * npfloat) :=
  nw <- trade_counts equity positions ;;
  let '(n, wins) := nw in
  let total := if (0 <? n)%nat then n else 1%nat in
  let win_rate := fdiv (fmul (Fin 100) (of_nat wins)) (of_nat total) in
  ok (n, win_rate).

(* ===================================================================== *)
(** ** [ai/backtest.py]: [run_backtest] *)

(** [plot_out] concerns the plot only and is left out. *)
Record BacktestConfig : Type := mkConfig {
  inst : string;
  bar : string;
  horizon : Z;
  limit : Z;
  thr_long : npfloat;
  thr_short : npfloat;
  initial : npfloat;
  fee_bps : npfloat;
  slip_bps : npfloat
}.

(** The trained classifier behind [model.scaler.transform] and
    [predict_proba(...)[:, 1]] (or [predict(...).astype(float)]): an external
    collaborator that may raise, and that answers with one probability per
    row of its input. *)
Record classifier : Type := mkClassifier {
  predict_proba_up : list (list npfloat) -> result (list npfloat);
  predict_shape :
    forall X p, predict_proba_up X = inr p -> length p = length X
}.

(** [sig_shift = np.roll(sig, 1); sig_shift[0] = 0] *)
Definition sig_shift_of (sig : list npfloat) : result (list npfloat) :=
  setitem0 (np_roll sig 1) (Fin 0).

(** [strat_ret = sig_shift * ret], the gross return. *)
Definition gross_ret (sig_shift ret : list npfloat) : list npfloat :=
  zip_with fmul sig_shift ret.

(** [turnover = np.abs(sig - sig_shift)] *)
Definition turnover_of (sig sig_shift : list npfloat) : list npfloat :=
  map fabs (zip_with fsub sig sig_shift).

(** [cost_bps = (cfg.fee_bps + cfg.slip_bps) / 10_000.0] *)
Definition cost_bps (fee_bps slip_bps : npfloat) : npfloat :=
  fdiv (fadd fee_bps slip_bps) (Fin 10000).

(** [turnover * cost_bps], the cost charged in every period. *)
Definition costs_of (turnover : list npfloat) (rate : npfloat)
  : list npfloat :=
  map (fun t => fmul t rate) turnover.

(** [strat_ret -= turnover * cost_bps], the net return. *)
Definition net_ret (sig sig_shift ret : list npfloat)
  (fee_bps slip_bps : npfloat) : list npfloat :=
  zip_with fsub (gross_ret sig_shift ret)
    (costs_of (turnover_of sig sig_shift) (cost_bps fee_bps slip_bps)).

(** The net return series of a signal series, from the lag to the costs. *)
Definition strat_ret_of (sig ret : list npfloat) (fee_bps slip_bps : npfloat)
  : result (list npfloat) :=
  sig_shift <- sig_shift_of sig ;;
  ok (net_ret sig sig_shift ret fee_bps slip_bps).

(** [mean_r], [std_r] and [sharpe]. *)
Definition sharpe_of (strat_ret : list npfloat) (ann_factor : npfloat)
  : npfloat :=
  let mean_r := np_mean strat_ret in
  let std_r := fadd (np_std strat_ret) (Fin eps12) in
  if fgtb std_r (Fin 0) then fmul (fdiv mean_r std_r) ann_factor else Fin 0.

Record BacktestResult : Type := mkResult {
  samples : nat;
  trades : nat;
  sharpe : npfloat;
  win_rate_pct : npfloat;
  final_equity : npfloat;
  equity : series npfloat;
  positions : series npfloat
}.

Definition run_backtest (df : list candle) (model : classifier)
  (cfg : BacktestConfig) : result BacktestResult :=
  steps <- _bar_to_steps (bar cfg) (horizon cfg) ;;
  let '(X, y) := build_from_candles df steps in
  let prices := map close df in
  let pct := pct_change 1 prices in
  let ret := fillna (Fin 0) (map (fun t => nth t pct NaN) (index X)) in
  probs <- predict_proba_up model (values X) ;;
  let sig := _signals_from_probs probs (thr_long cfg) (thr_short cfg) in
  strat_ret <- strat_ret_of sig ret (fee_bps cfg) (slip_bps cfg) ;;
  let equity :=
    combine (index X)
      (map (fmul (initial cfg))
         (cumprod (map (fun r => fadd (Fin 1) r) strat_ret))) in
  ann_factor <- _annualization_factor (bar cfg) ;;
  let sharpe := sharpe_of strat_ret ann_factor in
  let positions := combine (index X) sig in
  tw <- _trade_stats_from_series equity positions ;;
  let '(trades, win_rate) := tw in
  ok {| samples := length X;
        trades := trades;
        sharpe := sharpe;
        win_rate_pct := win_rate;
        final_equity :=
          match equity with
          | [] => initial cfg
          | p :: r => snd (last r p)
          end;
        equity := equity;
        positions := positions |}.

(* ===================================================================== *)
(** ** Notions used in the statements *)

(** The label of one row from the close now and the close [h] rows ahead. *)
Definition label_of (ahead now : npfloat) : Z :=
  let y := fsub (fdiv ahead now) (Fin 1) in
  if fgeb (if isna y then Fin 0 else y) (Fin 0) then 1 else 0.

(** The position held in period [t]: flat in the first period, the previous
    signal afterwards. *)
Definition position_at (sig : list npfloat) (t : nat) : option npfloat :=
  match t with
  | O => Some (Fin 0)
  | S t' => nth_error sig t'
  end.

(** The net return of one period from its signal, position and return. *)
Definition period_net (s p r rate : npfloat) : npfloat :=
  fsub (fmul p r) (fmul (fabs (fsub s p)) rate).

(** A position that [astype(int)] accepts after [fillna(0)]. *)
Definition not_inf (v : npfloat) : bool :=
  match v with Inf _ => false | _ => true end.

(* ===================================================================== *)
(** ** Scenario data *)

Definition candle_at (c : Z) : candle :=
  mkCandle 0 (of_Z c) (of_Z (c + 1)) (of_Z (c - 1)) (of_Z c) (of_Z 10).

(** The closes of the specification's scenario. *)
Definition df5 : list candle := map candle_at [100; 101; 102; 101; 100]%Z.

(** The same series with its last candle changed. *)
Definition df5_perturbed : list candle :=
  map candle_at [100; 101; 102; 101; 250]%Z.

Definition candle_vol (c v : Z) : candle :=
  mkCandle 0 (of_Z c) (of_Z (c + 1)) (of_Z (c - 1)) (of_Z c) (of_Z v).

(** Three bars at one price, on rising volume. *)
Definition df_flat : list candle :=
  [candle_vol 100 10; candle_vol 100 20; candle_vol 100 30].

Definition probs5 : list npfloat :=
  [Fin (6 # 10); Fin (6 # 10); Fin (4 # 10); Fin (4 # 10); Fin (6 # 10)].

Definition sig5 : list npfloat := [Fin 1; Fin 1; Fin (-1); Fin (-1); Fin 1].

Definition sig_shift5 : list npfloat :=
  [Fin 0; Fin 1; Fin 1; Fin (-1); Fin (-1)].

Definition ret5 : list npfloat :=
  [Fin 0; Fin (1 # 100); Fin (1 # 101); Fin (-1 # 102); Fin (-1 # 101)].

Definition rowwise_shape (f : list npfloat -> npfloat)
  (X : list (list npfloat)) (q : list npfloat) (H : ok (map f X) = inr q)
  : length q = length X :=
  match H in (_ = r)
        return (match r with
                | inr q' => length q' = length X
                | inl _ => True
                end)
  with
  | eq_refl => length_map f X
  end.

(** A classifier that scores every row on its own. *)
Definition rowwise_model (f : list npfloat -> npfloat) : classifier :=
  mkClassifier (fun X => ok (map f X)) (rowwise_shape f).

(** A classifier that answers the same probability on every row. *)
Definition const_model (p : npfloat) : classifier :=
  rowwise_model (fun _ => p).

(** A classifier that is long on thin volume (the [vol] column below 15)
    and undecided otherwise. *)
Definition thin_volume_model : classifier :=
  rowwise_model
    (fun row => if fltb (nth 6 row NaN) (Fin 15)
                then Fin (6 # 10) else Fin (5 # 10)).

Definition cfg_1m : BacktestConfig :=
  mkConfig "BTC-USDT" "1m" 1 2000 (Fin (55 # 100)) (Fin (45 # 100))
    (of_Z 10000) (Fin 5) (Fin 2).

Definition equity5 : series npfloat :=
  combine [0; 1; 2; 3; 4]%nat
    [of_Z 10000; of_Z 10100; of_Z 10050; of_Z 9900; of_Z 9950].

Definition positions5 : series npfloat :=
  combine [0; 1; 2; 3; 4]%nat [Fin 1; Fin 1; Fin 0; Fin (-1); Fin 0].


(* ===================================================================== *)
(** ** [ai/core.py]: the prediction pipeline and the model file *)

(** [X.tail(1)]: the last row, nothing on an empty frame. *)
Definition tail1 {A : Type} (s : series A) : series A :=
  skipn (length s - 1) s.

(** [a[-1]]: [IndexError] on an empty array. *)
Definition last_item {A : Type} (a : list A) : result A :=
  match a with
  | [] => raise IndexError
  | x :: r => ok (last r x)
  end.

(** [predict_pipeline] from the fetched candles on: the steps, the feature
    frame, its last row and the probability of that row.  (Loading the model
    and fetching the candles come before and fail on their own.) *)
Definition predict_pipeline (df : list candle) (model : classifier)
  (bar : string) (horizon_minutes : Z) : result npfloat :=
  horizon_steps <- _bar_to_steps bar horizon_minutes ;;
  let '(X, y) := build_from_candles df horizon_steps in
  let X_latest := tail1 X in
  probs <- predict_proba_up model (values X_latest) ;;
  last_item probs.

(** [s.replace(old, new)] for one-character [old] and [new]. *)
Definition str_replace_char (old new : ascii) (s : string) : string :=
  string_of_list_ascii
    (map (fun c => if Ascii.eqb c old then new else c)
       (list_ascii_of_string s)).

(** [str(n)] for an [int]. *)
Definition py_str_int (z : Z) : string := NilZero.string_of_int (Z.to_int z).

(** The file name of [PriceMoveClassifier.model_path], which the method
    joins to [model_dir]. *)
Definition model_file_name (inst_id bar : string) (horizon_minutes : Z)
  : string :=
  let safe := str_replace_char "/" "-" inst_id in
  ("xgb_price_move_" ++ safe ++ "_" ++ bar ++ "_"
   ++ py_str_int horizon_minutes ++ "m.joblib")%string.

(* ===================================================================== *)
(** ** [ai/core.py]: [FileCache] and [OKXClient._fetch] *)

Section Cache.

(** Parsed JSON, as the exchange sends it and [json.load] gives it back. *)
Variable payload : Type.

(** [hashlib.sha256(key.encode()).hexdigest()] *)
Variable hexdigest : string -> string.

(** What [json.load] makes of a cache file: no JSON object (or a [_ts] that
    is no number), which ends in the [except] branch, or an object with its
    [_ts] and [payload] members, each of which may be absent. *)
Inductive cache_file : Type :=
| Unreadable
| Entry (ts : option Q) (body : option payload).

(** The cache directory: the files by path. *)
Definition filesystem : Type := string -> option cache_file.

Record CacheConfig : Type := mkCacheConfig {
  root_dir : string;
  ttl_seconds : Q
}.

Definition _key_to_path (cfg : CacheConfig) (key : string) : string :=
  (root_dir cfg ++ "/" ++ hexdigest key ++ ".json")%string.

(** [FileCache.get] at clock reading [now]; [None] is Python's [None]. *)
Definition cache_get (cfg : CacheConfig) (fs : filesystem) (now : Q)
  (key : string) : option payload :=
  match fs (_key_to_path cfg key) with
  | None => None
  | Some Unreadable => None
  | Some (Entry ts body) =>
      let ts := match ts with Some t => t | None => 0%Q end in
      if Qlt_bool (ttl_seconds cfg) (now - ts) then None else body
  end.

(** [FileCache.set] at clock reading [now]. *)
Definition cache_set (cfg : CacheConfig) (fs : filesystem) (now : Q)
  (key : string) (p : payload) : filesystem :=
  fun path =>
    if String.eqb path (_key_to_path cfg key)
    then Some (Entry (Some now) (Some p))
    else fs path.

Record OKXConfig : Type := mkOKXConfig {
  base_url : string;
  timeout : Z;
  retries : Z;
  backoff : Q
}.

(** What one call of [_fetch] did: the data it returned ([None] when it
    re-raised the last exception), the requests it sent, the pauses it
    slept and the cache it left. *)
Record fetch_outcome : Type := mkOutcome {
  returned : option payload;
  requests : nat;
  sleeps : list Q;
  store : filesystem
}.

(** The [while True] loop of [_fetch].  [responses n] is what request
    number [n] of this call brings: the decoded body, or [None] for any
    exception of the [try] block.  [attempt] counts the failures, [sent] the
    requests; [fuel] bounds the iterations and [None] means that it ran
    out. *)
Fixpoint fetch_loop (fuel : nat) (cfg : OKXConfig)
  (responses : nat -> option payload) (attempt : Z) (sent : nat)
  : option (option payload * nat * list Q) :=
  match fuel with
  | O => None
  | S fuel' =>
      match responses sent with
      | Some data => Some (Some data, S sent, [])
      | None =>
          let attempt := attempt + 1 in
          if attempt >? retries cfg then Some (None, S sent, [])
          else
            match fetch_loop fuel' cfg responses attempt (S sent) with
            | Some (r, n, sl) =>
                Some (r, n, (backoff cfg * inject_Z attempt)%Q :: sl)
            | None => None
            end
      end
  end.

(** [OKXClient._fetch] for the cache key [key], called at clock reading
    [now]; [t_set] is the clock reading when the answer is stored. *)
Definition _fetch (cfg : OKXConfig) (ccfg : CacheConfig) (fs : filesystem)
  (now t_set : Q) (key : string) (responses : nat -> option payload)
  : option fetch_outcome :=
  match cache_get ccfg fs now key with
  | Some cached => Some (mkOutcome (Some cached) 0 [] fs)
  | None =>
      match fetch_loop (S (Z.to_nat (retries cfg))) cfg responses 0 0 with
      | Some (Some data, n, sl) =>
          Some (mkOutcome (Some data) n sl (cache_set ccfg fs t_set key data))
      | Some (None, n, sl) => Some (mkOutcome None n sl fs)
      | None => None
      end
  end.

End Cache.

Arguments Unreadable {payload}.
Arguments Entry {payload} ts body.
Arguments cache_get {payload} hexdigest cfg fs now key.
Arguments cache_set {payload} hexdigest cfg fs now key p.
Arguments fetch_loop {payload} fuel cfg responses attempt sent.
Arguments _fetch {payload} hexdigest cfg ccfg fs now t_set key responses.
Arguments mkOutcome {payload} returned requests sleeps store.
Arguments returned {payload} f.
Arguments requests {payload} f.
Arguments sleeps {payload} f.
Arguments store {payload} f.

(** The pauses of [_fetch] after the failures number
    [attempt + 1 .. attempt + k]: [backoff * attempt] each. *)
Fixpoint pauses (cfg : OKXConfig) (attempt : Z) (k : nat) : list Q :=
  match k with
  | O => []
  | S k' =>
      (backoff cfg * inject_Z (attempt + 1))%Q :: pauses cfg (attempt + 1) k'
  end.

(* ===================================================================== *)
(** ** Notions used in the further properties *)

Definition count_true (mask : list bool) : nat := length (filter id mask).

(** A row opens a trade when its position is not flat and the row before
    it (or the start of the series, [prev]) is flat. *)
Fixpoint starts_from (prev : Z) (pos : list Z) : list bool :=
  match pos with
  | [] => []
  | x :: r => ((prev =? 0) && nonzero x) :: starts_from x r
  end.

(** A row closes a trade when its position is not flat and the row after
    it (or the end of the series) is flat. *)
Fixpoint ends_of (pos : list Z) : list bool :=
  match pos with
  | [] => []
  | x :: r => (nonzero x && (hd 0 r =? 0)) :: ends_of r
  end.

(** The defaults of [OKXConfig] and [CacheConfig], an empty cache directory
    and an exchange that fails twice before it answers. *)
Definition okx_default : OKXConfig :=
  mkOKXConfig "https://www.okx.com" 15 3 (7 # 10).

Definition cache_default : CacheConfig := mkCacheConfig ".cache/okx" 60.

Definition empty_fs : filesystem string := fun _ => None.

Definition fails_twice (n : nat) : option string :=
  if (n <? 2)%nat then None else Some "candles"%string.

Definition always_fails (n : nat) : option string := None.

(** Eleven bars, and the same bars with another last one. *)
Definition df11 : list candle :=
  map candle_at [100; 101; 102; 101; 100; 99; 100; 101; 102; 103; 104]%Z.

Definition df11_perturbed : list candle :=
  map candle_at [100; 101; 102; 101; 100; 99; 100; 101; 102; 103; 250]%Z.

(* ===================================================================== *)
(** * Properties *)

(** ** Lists, masks and labels *)

Section ListFacts.
Context {A B C : Type}.

Lemma length_zip_with (f : A -> B -> C) (a : list A) (b : list B) :
  length (zip_with f a b) = Nat.min (length a) (length b).
Proof.
  unfold zip_with. now rewrite length_map, length_combine.
Qed.

Lemma nth_error_zip_with (f : A -> B -> C) (a : list A) (b : list B) t :
  nth_error (zip_with f a b) t =
  match nth_error a t, nth_error b t with
  | Some x, Some y => Some (f x y)
  | _, _ => None
  end.
Proof.
  unfold zip_with. revert b t.
  induction a as [|x a IH]; intros [|y b] [|t]; simpl; auto;
    now destruct (nth_error a t).
Qed.

Lemma index_select_labels (l : list nat) (rows : list A) (mask : list bool) :
  length l = length rows ->
  map fst (select (combine l rows) mask) = select l mask.
Proof.
  revert rows mask.
  induction l as [|i l IH]; intros [|r rows] [|m mask] H; simpl in *;
    try discriminate; auto.
  destruct m; simpl; rewrite IH by lia; reflexivity.
Qed.

Lemma length_select_combine (l : list nat) (rows : list A)
  (mask : list bool) :
  length l = length rows ->
  length (select (combine l rows) mask) = length (select l mask).
Proof.
  intros H. rewrite <- (index_select_labels l rows mask H).
  now rewrite length_map.
Qed.
End ListFacts.

Lemma select_seq (s k : nat) (mask : list bool) :
  length mask = k ->
  select (seq s k) mask =
  filter (fun t => nth (t - s) mask false) (seq s k).
Proof.
  revert s mask.
  induction k as [|k IH]; intros s [|m mask] H; simpl in H;
    try discriminate; auto.
  cbn [seq select].
  set (f := fun t => nth (t - s) (m :: mask) false).
  change (filter f (s :: seq (S s) k))
    with (if f s then s :: filter f (seq (S s) k)
          else filter f (seq (S s) k)).
  assert (Hf : f s = m)
    by (unfold f; now replace (s - s)%nat with 0%nat by lia).
  assert (E : filter f (seq (S s) k) =
              filter (fun t => nth (t - S s) mask false) (seq (S s) k)).
  { apply filter_ext_in. intros t Ht. apply in_seq in Ht. unfold f.
    replace (t - s)%nat with (S (t - S s)) by lia. reflexivity. }
  rewrite Hf, E, <- IH by lia. now destruct m.
Qed.

Section LabelLookup.
Context {A : Type}.
Variable t : nat.

Let at_t (p : nat * A) : bool := (fst p =? t)%nat.

Lemma filter_label_above (rows : list A) :
  forall (mask : list bool) (s : nat),
    (t < s)%nat ->
    filter at_t (select (combine (seq s (length rows)) rows) mask) = [].
Proof.
  induction rows as [|r rows IH]; intros [|m mask] s Hlt;
    cbn [length seq combine select filter]; auto.
  destruct m; cbn [filter]; unfold at_t at 1; cbn [fst].
  - replace (s =? t)%nat with false by (symmetry; apply Nat.eqb_neq; lia).
    apply IH; lia.
  - apply IH; lia.
Qed.

Lemma filter_label_from (rows : list A) :
  forall (mask : list bool) (s : nat),
    length mask = length rows ->
    (s <= t)%nat ->
    filter at_t (select (combine (seq s (length rows)) rows) mask) =
    match nth_error rows (t - s) with
    | Some r => if nth (t - s) mask false then [(t, r)] else []
    | None => []
    end.
Proof.
  induction rows as [|r rows IH]; intros [|m mask] s Hlen Hle;
    try discriminate Hlen.
  - cbn. now destruct (t - s)%nat.
  - cbn [length seq combine select].
    destruct (Nat.eq_dec s t) as [->|Hne].
    + rewrite Nat.sub_diag. cbn [nth_error nth].
      destruct m; cbn [filter]; unfold at_t at 1; cbn [fst];
        rewrite ?Nat.eqb_refl, filter_label_above by lia; reflexivity.
    + replace (t - s)%nat with (S (t - S s)) by lia. cbn [nth_error nth].
      rewrite <- IH by (simpl in Hlen; lia).
      destruct m; cbn [filter]; auto.
      unfold at_t at 1; cbn [fst].
      replace (s =? t)%nat with false by (symmetry; apply Nat.eqb_neq; lia).
      reflexivity.
Qed.
End LabelLookup.

(** A label of a masked RangeIndex frame is found exactly when its row
    exists and its mask is set. *)
Lemma loc_select_labelled {A : Type} (rows : list A) (mask : list bool) t :
  length mask = length rows ->
  loc (select (labelled rows) mask) t =
  match nth_error rows t with
  | Some r => if nth t mask false then inr r else inl KeyError
  | None => inl KeyError
  end.
Proof.
  intros H. unfold labelled, loc.
  rewrite (filter_label_from t rows mask 0%nat H) by lia.
  rewrite Nat.sub_0_r.
  destruct (nth_error rows t); auto. now destruct (nth t mask false).
Qed.

(** ** Column operations keep the shape of the frame *)

Lemma length_shift (p : Z) (l : list npfloat) :
  length (shift p l) = length l.
Proof.
  unfold shift. destruct (0 <=? p);
    rewrite length_app, repeat_length;
    [rewrite length_firstn | rewrite length_skipn]; lia.
Qed.

Lemma length_fillna (v : npfloat) (l : list npfloat) :
  length (fillna v l) = length l.
Proof. apply length_map. Qed.

Lemma length_ffill_from (prev : npfloat) (l : list npfloat) :
  length (ffill_from prev l) = length l.
Proof.
  revert prev. induction l as [|x l IH]; intros prev; simpl; auto.
Qed.

Lemma length_bfill (l : list npfloat) : length (bfill l) = length l.
Proof.
  unfold bfill, ffill.
  now rewrite length_rev, length_ffill_from, length_rev.
Qed.

Lemma length_pct_change (p : Z) (l : list npfloat) :
  length (pct_change p l) = length l.
Proof.
  unfold pct_change, ffill.
  rewrite length_map, length_zip_with, length_shift, length_ffill_from. lia.
Qed.

Lemma length_rolling_mean (w : nat) (l : list npfloat) :
  length (rolling_mean w l) = length l.
Proof. unfold rolling_mean. now rewrite length_map, length_seq. Qed.

Lemma length_features (df : list candle) :
  length (features df) = length df.
Proof. unfold features. now rewrite length_map, length_seq. Qed.

Lemma length_future (df : list candle) (h : Z) :
  length (future df h) = length df.
Proof. unfold future. now rewrite length_shift, length_map. Qed.

Lemma length_y_cls (df : list candle) (h : Z) :
  length (y_cls df h) = length df.
Proof.
  unfold y_cls.
  rewrite length_map, length_fillna, length_map, length_zip_with,
    length_future, length_map. lia.
Qed.

Lemma length_valid_idx (df : list candle) (h : Z) :
  length (valid_idx df h) = length df.
Proof. unfold valid_idx. now rewrite length_map, length_future. Qed.

(** Every column of the feature frame has one entry per candle. *)
Lemma features_width (df : list candle) :
  Forall (fun row => length row = 10%nat) (features df).
Proof.
  unfold features. apply Forall_forall. intros row Hin.
  apply in_map_iff in Hin. destruct Hin as [t [<- _]]. reflexivity.
Qed.

(** Looking [h] rows ahead: the shifted column at [t] is the column at
    [t + h], NaN past the end. *)
Lemma nth_shift_ahead (h : Z) (l : list npfloat) (t : nat) :
  1 <= h ->
  nth t (shift (- h) l) NaN = nth (t + Z.to_nat h) l NaN.
Proof.
  intros Hh. unfold shift.
  replace (0 <=? - h) with false by (symmetry; apply Z.leb_gt; lia).
  rewrite Z.opp_involutive.
  set (k := Nat.min (Z.to_nat h) (length l)).
  destruct (le_lt_dec (length l - k) t) as [Hge|Hlt].
  - rewrite app_nth2 by (rewrite length_skipn; lia).
    rewrite nth_repeat.
    symmetry. apply nth_overflow. unfold k in *. lia.
  - rewrite app_nth1 by (rewrite length_skipn; lia).
    rewrite nth_skipn. f_equal. unfold k in *. lia.
Qed.

Lemma nth_future (df : list candle) (h : Z) (t : nat) :
  1 <= h ->
  nth t (future df h) NaN = nth (t + Z.to_nat h) (map close df) NaN.
Proof. intros Hh. unfold future. now apply nth_shift_ahead. Qed.

Lemma nth_valid_idx (df : list candle) (h : Z) (t : nat) :
  1 <= h ->
  (t < length df)%nat ->
  nth t (valid_idx df h) false =
  negb (isna (nth (t + Z.to_nat h) (map close df) NaN)).
Proof.
  intros Hh Ht. unfold valid_idx.
  rewrite (nth_indep _ false (negb (isna NaN)))
    by (rewrite length_map, length_future; exact Ht).
  rewrite (map_nth (fun x => negb (isna x))). now rewrite nth_future.
Qed.

Lemma nth_error_y_cls (df : list candle) (h : Z) (t : nat) :
  1 <= h ->
  nth_error (y_cls df h) t =
  match nth_error df t with
  | Some c =>
      Some (label_of (nth (t + Z.to_nat h) (map close df) NaN) (close c))
  | None => None
  end.
Proof.
  intros Hh. unfold y_cls, fillna.
  rewrite !nth_error_map, nth_error_zip_with, nth_error_map.
  destruct (nth_error df t) as [c|] eqn:Ec.
  - assert (Ht : (t < length df)%nat)
      by (apply nth_error_Some; congruence).
    rewrite (nth_error_nth' (future df h) NaN)
      by (rewrite length_future; exact Ht).
    rewrite nth_future by exact Hh. reflexivity.
  - simpl. now destruct (nth_error (future df h) t).
Qed.

Lemma filter_all {A : Type} (f : A -> bool) (l : list A) :
  (forall x, In x l -> f x = true) -> filter f l = l.
Proof.
  induction l as [|x l IH]; intros H; simpl; auto.
  rewrite (H x) by now left. f_equal. apply IH. intros y Hy. apply H.
  now right.
Qed.

Lemma filter_none {A : Type} (f : A -> bool) (l : list A) :
  (forall x, In x l -> f x = false) -> filter f l = [].
Proof.
  induction l as [|x l IH]; intros H; simpl; auto.
  rewrite (H x) by now left. apply IH. intros y Hy. apply H. now right.
Qed.

Lemma filter_seq_below (f : nat -> bool) (n m : nat) :
  (m <= n)%nat ->
  (forall t, (t < m)%nat -> f t = true) ->
  (forall t, (m <= t < n)%nat -> f t = false) ->
  filter f (seq 0 n) = seq 0 m.
Proof.
  intros Hmn Hlo Hhi.
  replace n with (m + (n - m))%nat by lia.
  rewrite seq_app, filter_app, filter_all, filter_none.
  - apply app_nil_r.
  - intros t Ht. apply in_seq in Ht. apply Hhi. lia.
  - intros t Ht. apply in_seq in Ht. apply Hlo. lia.
Qed.

Lemma nth_close_not_nan (df : list candle) (i : nat) :
  Forall (fun c => isna (close c) = false) df ->
  (i < length df)%nat ->
  isna (nth i (map close df) NaN) = false.
Proof.
  intros Hall Hi.
  destruct (nth_error df i) as [c|] eqn:Ec.
  - rewrite (nth_indep _ NaN (close c)) by (rewrite length_map; exact Hi).
    rewrite map_nth. rewrite (nth_error_nth _ _ _ Ec).
    rewrite Forall_forall in Hall. apply Hall.
    eapply nth_error_In; eauto.
  - apply nth_error_None in Ec. lia.
Qed.

(** ** The feature/label builder *)

(** The rows that survive the truncation, as the source computes them. *)
Lemma index_build_X (df : list candle) (h : Z) :
  1 <= h ->
  index (fst (build_from_candles df h)) =
  filter (fun t => negb (isna (nth (t + Z.to_nat h) (map close df) NaN)))
         (seq 0 (length df)).
Proof.
  intros Hh. unfold build_from_candles, index, labelled. cbn [fst].
  rewrite index_select_labels by now rewrite length_seq.
  rewrite length_features.
  rewrite select_seq by apply length_valid_idx.
  apply filter_ext_in. intros t Ht. apply in_seq in Ht.
  rewrite Nat.sub_0_r. apply nth_valid_idx; [exact Hh | lia].
Qed.

Lemma index_build_y (df : list candle) (h : Z) :
  index (snd (build_from_candles df h)) =
  index (fst (build_from_candles df h)).
Proof.
  unfold build_from_candles, index, labelled. cbn [fst snd].
  rewrite !index_select_labels by now rewrite length_seq.
  now rewrite length_features, length_y_cls.
Qed.

(** C3. For every candle series and every horizon of at least one step, the
    feature matrix and the label series returned by [build_from_candles] have
    the same length and the same index; the index holds exactly the rows
    whose close [h] rows ahead is present, and on a series without missing
    closes these are all rows but the last [h]. *)
Theorem build_from_candles_index_alignment (df : list candle) (h : Z) :
  1 <= h ->
  let X := fst (build_from_candles df h) in
  let y := snd (build_from_candles df h) in
  length X = length y /\
  index X = index y /\
  index X =
    filter (fun t => negb (isna (nth (t + Z.to_nat h) (map close df) NaN)))
           (seq 0 (length df)) /\
  (Forall (fun c => isna (close c) = false) df ->
   index X = seq 0 (length df - Z.to_nat h)).
Proof.
  intros Hh X y. subst X y.
  assert (Ei := index_build_y df h).
  split; [|split; [|split]].
  - apply (f_equal (@length nat)) in Ei. unfold index in Ei.
    rewrite !length_map in Ei. now symmetry.
  - now symmetry.
  - now apply index_build_X.
  - intros Hall. rewrite index_build_X by exact Hh.
    apply filter_seq_below; [lia | |].
    + intros t Ht. rewrite nth_close_not_nan; [reflexivity | exact Hall | lia].
    + intros t Ht. rewrite nth_overflow; [reflexivity |].
      rewrite length_map. lia.
Qed.

(** The label found at index [t]: present exactly when row [t] exists and
    the close [h] rows ahead is present. *)
Lemma loc_build_y (df : list candle) (h : Z) (t : nat) :
  1 <= h ->
  loc (snd (build_from_candles df h)) t =
  match nth_error df t with
  | Some c =>
      let ahead := nth (t + Z.to_nat h) (map close df) NaN in
      if isna ahead then inl KeyError else inr (label_of ahead (close c))
  | None => inl KeyError
  end.
Proof.
  intros Hh. unfold build_from_candles. cbn [snd].
  rewrite loc_select_labelled
    by now rewrite length_valid_idx, length_y_cls.
  rewrite nth_error_y_cls by exact Hh.
  destruct (nth_error df t) as [c|] eqn:Ec; auto.
  assert (Ht : (t < length df)%nat) by (apply nth_error_Some; congruence).
  rewrite nth_valid_idx by assumption. cbn zeta.
  now destruct (isna (nth (t + Z.to_nat h) (map close df) NaN)).
Qed.

Lemma nth_close_agree (df1 df2 : list candle) (i : nat) :
  nth_error df1 i = nth_error df2 i ->
  nth i (map close df1) NaN = nth i (map close df2) NaN.
Proof.
  intros E.
  assert (G : forall df, nth i (map close df) NaN =
                         match nth_error df i with
                         | Some c => close c
                         | None => NaN
                         end).
  { intros df. destruct (nth_error df i) as [c|] eqn:Ec.
    - apply nth_error_nth. now rewrite nth_error_map, Ec.
    - apply nth_overflow. rewrite length_map. now apply nth_error_None. }
  now rewrite !G, E.
Qed.

(** C1. No look-ahead: two candle series that agree on all rows up to and
    including [t + h] give the same label at row [t] (the same value, or no
    row [t] in either), for every horizon of at least one step. *)
Theorem build_from_candles_no_look_ahead
  (df1 df2 : list candle) (h : Z) (t : nat) :
  1 <= h ->
  (forall i, (i <= t + Z.to_nat h)%nat -> nth_error df1 i = nth_error df2 i) ->
  loc (snd (build_from_candles df1 h)) t =
  loc (snd (build_from_candles df2 h)) t.
Proof.
  intros Hh Hagree.
  rewrite !loc_build_y by exact Hh.
  rewrite <- (Hagree t) by lia.
  rewrite <- (nth_close_agree df1 df2 (t + Z.to_nat h)) by (apply Hagree; lia).
  reflexivity.
Qed.

(** ** Signals *)

(** The two masked assignments amount to one decision per probability, the
    short test taking precedence. *)
Lemma signals_pointwise (probs : list npfloat) (thr_long thr_short : npfloat) :
  _signals_from_probs probs thr_long thr_short =
  map (fun p => if fltb p thr_short then Fin (-1)
                else if fgtb p thr_long then Fin 1 else Fin 0) probs.
Proof.
  unfold _signals_from_probs, mask_assign, zip_with.
  induction probs as [|p probs IH]; simpl; auto.
  rewrite <- IH.
  destruct (fltb p thr_short), (fgtb p thr_long); reflexivity.
Qed.

Lemma length_signals (probs : list npfloat) (thr_long thr_short : npfloat) :
  length (_signals_from_probs probs thr_long thr_short) = length probs.
Proof. now rewrite signals_pointwise, length_map. Qed.

(** C9. Whatever the probabilities and the two thresholds (ordered or not),
    every element of the signal array is [-1], [0] or [+1]. *)
Theorem signals_from_probs_ternary
  (probs : list npfloat) (thr_long thr_short : npfloat) (s : npfloat) :
  In s (_signals_from_probs probs thr_long thr_short) ->
  s = Fin (-1) \/ s = Fin 0 \/ s = Fin 1.
Proof.
  rewrite signals_pointwise. intros Hin.
  apply in_map_iff in Hin. destruct Hin as [p [<- _]].
  destruct (fltb p thr_short); [now left |].
  destruct (fgtb p thr_long); [now right; right | now right; left].
Qed.

(** ** Execution lag *)

Lemma np_roll_one {A : Type} (x : A) (l : list A) :
  exists y, np_roll (x :: l) 1 = y :: firstn (length l) (x :: l).
Proof.
  unfold np_roll. cbn [length].
  destruct l as [|x' l'].
  - exists x. reflexivity.
  - cbn [length].
    replace (1 mod S (S (length l')))%nat with 1%nat
      by (symmetry; apply Nat.mod_small; lia).
    replace (S (S (length l')) - 1)%nat with (S (length l')) by lia.
    assert (Hlen : length (skipn (S (length l')) (x :: x' :: l')) = 1%nat)
      by (rewrite length_skipn; cbn [length]; lia).
    destruct (skipn (S (length l')) (x :: x' :: l')) as [|y [|z r]];
      try discriminate Hlen.
    exists y. reflexivity.
Qed.

Lemma sig_shift_of_cons (x : npfloat) (l : list npfloat) :
  sig_shift_of (x :: l) = inr (Fin 0 :: firstn (length l) (x :: l)).
Proof.
  unfold sig_shift_of. destruct (np_roll_one x l) as [y ->]. reflexivity.
Qed.

Lemma sig_shift_of_nil : sig_shift_of [] = inl IndexError.
Proof. reflexivity. Qed.

Lemma nth_error_sig_shift (sig sig_shift : list npfloat) (t : nat) :
  sig_shift_of sig = inr sig_shift ->
  (t < length sig)%nat ->
  nth_error sig_shift t = position_at sig t.
Proof.
  destruct sig as [|x l]; [discriminate |].
  rewrite sig_shift_of_cons. intros E Ht. inversion E; subst; clear E.
  destruct t as [|t']; [reflexivity |].
  cbn [nth_error position_at length] in *.
  rewrite nth_error_firstn.
  replace (t' <? length l)%nat with true
    by (symmetry; apply Nat.ltb_lt; lia).
  reflexivity.
Qed.

Lemma length_sig_shift (sig sig_shift : list npfloat) :
  sig_shift_of sig = inr sig_shift -> length sig_shift = length sig.
Proof.
  destruct sig as [|x l]; [discriminate |].
  rewrite sig_shift_of_cons. intros E. inversion E; subst; clear E.
  cbn [length]. rewrite length_firstn. cbn [length]. lia.
Qed.


(** ** Arithmetic of [npfloat] *)

Local Open Scope Q_scope.

Lemma Qlt_bool_true (a b : Q) : Qlt_bool a b = true <-> a < b.
Proof.
  unfold Qlt_bool. rewrite negb_true_iff. split; intros H.
  - apply Qnot_le_lt. intros Hle. apply Qle_bool_iff in Hle. congruence.
  - destruct (Qle_bool b a) eqn:E; auto.
    apply Qle_bool_iff in E. apply Qlt_not_le in H. contradiction.
Qed.

Lemma Qlt_bool_false (a b : Q) : Qlt_bool a b = false <-> b <= a.
Proof.
  unfold Qlt_bool. rewrite negb_false_iff. apply Qle_bool_iff.
Qed.

Lemma Qeq_bool_false (a b : Q) : Qeq_bool a b = false <-> ~ a == b.
Proof.
  split.
  - apply Qeq_bool_neq.
  - intros H. destruct (Qeq_bool a b) eqn:E; auto.
    apply Qeq_bool_iff in E. contradiction.
Qed.

(** Boolean tests on rationals in the context become propositions. *)
Ltac q_props :=
  unfold Qneg in *;
  repeat match goal with
    | H : Qlt_bool _ _ = true |- _ => apply Qlt_bool_true in H
    | H : Qlt_bool _ _ = false |- _ => apply Qlt_bool_false in H
    | H : Qle_bool _ _ = true |- _ => apply Qle_bool_iff in H
    | H : Qeq_bool _ _ = true |- _ => apply Qeq_bool_iff in H
    | H : Qeq_bool _ _ = false |- _ => apply Qeq_bool_false in H
    end.

Lemma same_float_refl (a : npfloat) : same_float a a.
Proof. destruct a; simpl; auto. reflexivity. Qed.

Lemma same_float_sym (a b : npfloat) : same_float a b -> same_float b a.
Proof. destruct a, b; simpl; auto. intros H. now symmetry. Qed.

Lemma same_float_trans (a b c : npfloat) :
  same_float a b -> same_float b c -> same_float a c.
Proof.
  destruct a, b, c; simpl; try tauto; try congruence.
  intros H1 H2. now rewrite H1.
Qed.

(** Subtracting a zero cost leaves any return as it is. *)
Lemma fsub_zero (g : npfloat) (z : Q) : z == 0 -> same_float (fsub g (Fin z)) g.
Proof.
  intros Hz. destruct g; simpl; auto. rewrite Hz. ring.
Qed.

(** A larger rate on the same turnover never gives a larger net return. *)
Lemma cost_monotone (g u : npfloat) (c c' : Q) :
  c <= c' ->
  fgtb (fsub g (fmul (fabs u) (Fin c'))) (fsub g (fmul (fabs u) (Fin c)))
  = false.
Proof.
  intros Hc. unfold fgtb, fsub.
  destruct u as [q| |]; cbn [fabs fmul].
  - destruct g as [x|s|]; cbn; auto.
    + apply Qlt_bool_false.
      assert (Hq := Qabs_nonneg q).
      assert (Hm : c * Qabs q <= c' * Qabs q)
        by (apply Qmult_le_compat_r; auto).
      lra.
    + now destruct s.
  - cbn [xorb].
    destruct (Qeq_bool c 0) eqn:E0, (Qeq_bool c' 0) eqn:E0',
             (Qneg c) eqn:En, (Qneg c') eqn:En';
      destruct g as [x|s|]; try destruct s; cbn; auto;
      q_props; exfalso; lra.
  - destruct g as [x|s|]; cbn; auto.
Qed.

Lemma cost_rate_finite (fee slip : Q) :
  cost_bps (Fin fee) (Fin slip) = Fin ((fee + slip) / 10000).
Proof. reflexivity. Qed.

(** ** Costs *)

Lemma nth_error_net_ret (sig sig_shift ret : list npfloat)
  (fee slip : npfloat) (t : nat) :
  nth_error (net_ret sig sig_shift ret fee slip) t =
  match nth_error sig_shift t, nth_error ret t, nth_error sig t with
  | Some p, Some r, Some s => Some (period_net s p r (cost_bps fee slip))
  | _, _, _ => None
  end.
Proof.
  unfold net_ret, gross_ret, costs_of, turnover_of.
  rewrite nth_error_zip_with, nth_error_zip_with.
  rewrite !nth_error_map, nth_error_zip_with.
  destruct (nth_error sig_shift t), (nth_error ret t), (nth_error sig t);
    reflexivity.
Qed.

Lemma nth_error_turnover (sig sig_shift : list npfloat) (t : nat) :
  nth_error (turnover_of sig sig_shift) t =
  match nth_error sig t, nth_error sig_shift t with
  | Some s, Some p => Some (fabs (fsub s p))
  | _, _ => None
  end.
Proof.
  unfold turnover_of. rewrite nth_error_map, nth_error_zip_with.
  destruct (nth_error sig t), (nth_error sig_shift t); reflexivity.
Qed.

(** C5. With the signals fixed, raising [fee_bps] or [slippage_bps] (both
    non-negative) never raises the net return of any period, and leaves it
    as it was in a period whose turnover is zero. *)
Theorem net_return_cost_monotone
  (sig sig_shift ret : list npfloat) (fee slip fee' slip' : Q)
  (t : nat) (x x' : npfloat) :
  0 <= fee -> 0 <= slip -> fee <= fee' -> slip <= slip' ->
  sig_shift_of sig = inr sig_shift ->
  nth_error (net_ret sig sig_shift ret (Fin fee) (Fin slip)) t = Some x ->
  nth_error (net_ret sig sig_shift ret (Fin fee') (Fin slip')) t = Some x' ->
  fgtb x' x = false /\
  (forall u, nth_error (turnover_of sig sig_shift) t = Some u ->
             same_float u (Fin 0) -> same_float x' x).
Proof.
  intros Hf Hs Hff Hss _ Hx Hx'.
  rewrite nth_error_net_ret in Hx, Hx'.
  rewrite nth_error_turnover.
  destruct (nth_error sig_shift t) as [p|]; [| discriminate].
  destruct (nth_error ret t) as [r|]; [| discriminate].
  destruct (nth_error sig t) as [s|]; [| discriminate].
  inversion Hx; inversion Hx'; subst; clear Hx Hx'.
  rewrite !cost_rate_finite. unfold period_net. split.
  - apply cost_monotone.
    unfold Qdiv. apply Qmult_le_compat_r; [lra |].
    apply Qinv_le_0_compat. lra.
  - intros u Hu Hz. inversion Hu; subst; clear Hu.
    destruct (fabs (fsub s p)) as [q| |]; simpl in Hz; try contradiction.
    cbn [fmul].
    eapply same_float_trans; [apply fsub_zero; rewrite Hz; ring |].
    apply same_float_sym. apply fsub_zero. rewrite Hz. ring.
Qed.

Lemma nth_error_costs (sig sig_shift : list npfloat) (rate : npfloat)
  (t : nat) :
  nth_error (costs_of (turnover_of sig sig_shift) rate) t =
  match nth_error sig t, nth_error sig_shift t with
  | Some s, Some p => Some (fmul (fabs (fsub s p)) rate)
  | _, _ => None
  end.
Proof.
  unfold costs_of. rewrite nth_error_map, nth_error_turnover.
  destruct (nth_error sig t), (nth_error sig_shift t); reflexivity.
Qed.

Lemma nth_error_gross (sig_shift ret : list npfloat) (t : nat) :
  nth_error (gross_ret sig_shift ret) t =
  match nth_error sig_shift t, nth_error ret t with
  | Some p, Some r => Some (fmul p r)
  | _, _ => None
  end.
Proof. unfold gross_ret. apply nth_error_zip_with. Qed.

Lemma Qabs_self_diff (c : Q) : Qabs (c + - c) == 0.
Proof.
  assert (E : c + - c == 0) by ring.
  rewrite E. reflexivity.
Qed.

(** C7, as the code has it. A constant signal series changes position once,
    when the first period leaves the flat start: period [0] is charged
    [|c|] times the rate, every later period is charged nothing and keeps
    its gross return. *)
Theorem constant_signal_costs
  (c fee slip : Q) (n : nat) (ret : list npfloat) :
  (1 <= n)%nat ->
  exists sig_shift,
    sig_shift_of (repeat (Fin c) n) = inr sig_shift /\
    (exists z0,
        nth_error (costs_of (turnover_of (repeat (Fin c) n) sig_shift)
                     (cost_bps (Fin fee) (Fin slip))) 0 = Some (Fin z0) /\
        z0 == Qabs c * ((fee + slip) / 10000)) /\
    (forall t, (1 <= t < n)%nat ->
       exists z,
         nth_error (costs_of (turnover_of (repeat (Fin c) n) sig_shift)
                      (cost_bps (Fin fee) (Fin slip))) t = Some (Fin z) /\
         z == 0) /\
    (forall t x, (1 <= t)%nat ->
       nth_error (net_ret (repeat (Fin c) n) sig_shift ret
                    (Fin fee) (Fin slip)) t = Some x ->
       exists g,
         nth_error (gross_ret sig_shift ret) t = Some g /\ same_float x g).
Proof.
  intros Hn.
  destruct (sig_shift_of (repeat (Fin c) n)) as [e|ss] eqn:E.
  { destruct n as [|k]; [lia |]. cbn [repeat] in E.
    rewrite sig_shift_of_cons in E. discriminate. }
  exists ss. split; [reflexivity |].
  assert (Hpos : forall t, (t < n)%nat ->
            nth_error ss t = position_at (repeat (Fin c) n) t).
  { intros t Ht. apply nth_error_sig_shift; [exact E |].
    now rewrite repeat_length. }
  assert (Hsig : forall t, (t < n)%nat ->
            nth_error (repeat (Fin c) n) t = Some (Fin c))
    by (intros t Ht; now apply nth_error_repeat).
  split; [| split].
  - eexists. rewrite nth_error_costs, Hsig, Hpos by lia.
    cbn [position_at]. split; [reflexivity |].
    cbn [fsub fopp fadd fabs fmul].
    assert (E0 : c + - 0 == c) by ring.
    now rewrite E0.
  - intros t Ht. eexists.
    rewrite nth_error_costs, Hsig, Hpos by lia.
    destruct t as [|t']; [lia |]. cbn [position_at].
    rewrite Hsig by lia. split; [reflexivity |].
    rewrite Qabs_self_diff. ring.
  - intros t x Ht Hx. rewrite nth_error_net_ret in Hx.
    rewrite nth_error_gross.
    destruct (nth_error ss t) as [p|] eqn:Ep; [| discriminate].
    destruct (nth_error ret t) as [r|]; [| discriminate].
    destruct (nth_error (repeat (Fin c) n) t) as [s|] eqn:Es;
      [| discriminate].
    inversion Hx; subst; clear Hx.
    assert (Htn : (t < n)%nat).
    { rewrite <- (repeat_length (Fin c) n).
      apply nth_error_Some. congruence. }
    rewrite Hsig in Es by exact Htn. inversion Es; subst; clear Es.
    rewrite Hpos in Ep by exact Htn.
    destruct t as [|t']; [lia |]. cbn [position_at] in Ep.
    rewrite Hsig in Ep by lia. inversion Ep; subst; clear Ep.
    eexists. split; [reflexivity |].
    unfold period_net. rewrite cost_rate_finite.
    cbn [fsub fopp fadd fabs fmul]. apply fsub_zero.
    rewrite Qabs_self_diff. ring.
Qed.

(** ** Sharpe ratio *)

Lemma fold_fadd_repeat (r : Q) (n : nat) (a : Q) :
  exists q, fold_left fadd (repeat (Fin r) n) (Fin a) = Fin q /\
            q == a + inject_Z (Z.of_nat n) * r.
Proof.
  revert a. induction n as [|n IH]; intros a.
  - exists a. split; [reflexivity |]. simpl. ring.
  - cbn [repeat fold_left fadd].
    destruct (IH (a + r)) as [q [E Hq]]. exists q. split; [exact E |].
    rewrite Hq, Nat2Z.inj_succ. unfold Z.succ. rewrite inject_Z_plus. ring.
Qed.

Lemma inject_nat_nonzero (n : nat) :
  (1 <= n)%nat -> ~ inject_Z (Z.of_nat n) == 0.
Proof.
  intros Hn H. change 0 with (inject_Z 0) in H.
  apply (proj1 (inject_Z_injective (Z.of_nat n) 0%Z)) in H. lia.
Qed.

(** The mean of a constant series has the sign of the constant. *)
Lemma np_mean_repeat_sign (r : Q) (n : nat) :
  (1 <= n)%nat ->
  exists m, np_mean (repeat (Fin r) n) = Fin m /\
            (0 < m <-> 0 < r) /\ (m < 0 <-> r < 0) /\ (m == 0 <-> r == 0).
Proof.
  intros Hn. unfold np_mean, fsum.
  destruct (fold_fadd_repeat r n 0) as [q [-> Hq]].
  rewrite repeat_length. unfold of_nat, of_Z. cbn [fdiv].
  assert (Hnz := inject_nat_nonzero n Hn).
  replace (Qeq_bool (inject_Z (Z.of_nat n)) 0) with false
    by (symmetry; now apply Qeq_bool_false).
  eexists. split; [reflexivity |].
  assert (Hm : q / inject_Z (Z.of_nat n) == r) by (rewrite Hq; field; exact Hnz).
  rewrite Hm. tauto.
Qed.

Lemma Qsqrt_pos (x : Q) : 0 < x -> 0 < Qsqrt x.
Proof.
  intros Hx. unfold Qsqrt. rewrite Qred_correct.
  assert (Hr : 0 < Qred x) by now rewrite Qred_correct.
  destruct (Qred x) as [p d]. unfold Qlt in *. simpl in *.
  rewrite Z.mul_1_r in *.
  apply Z.sqrt_up_pos.
  apply Z.mul_pos_pos; [apply Z.mul_pos_pos; [exact Hr | reflexivity] |].
  reflexivity.
Qed.

Lemma bar_to_minutes_pos (bar : string) (mins : Z) :
  _bar_to_minutes bar = inr mins -> (1 <= mins)%Z.
Proof.
  unfold _bar_to_minutes.
  destruct (last_char (strip (list_ascii_of_string bar))) as [e|u];
    [discriminate |].
  repeat match goal with
         | |- context [if ?b then _ else _] => destruct b
         end;
    intros E; inversion E; lia.
Qed.

(** The annualization factor is a positive finite number. *)
Lemma annualization_factor_pos (bar : string) (ann : npfloat) :
  _annualization_factor bar = inr ann -> exists a, ann = Fin a /\ 0 < a.
Proof.
  unfold _annualization_factor.
  destruct (_bar_to_minutes bar) as [e|mins] eqn:Em; [discriminate |].
  apply bar_to_minutes_pos in Em. intros E. inversion E; subst; clear E.
  unfold of_Z. cbn [fdiv].
  assert (Hm : 0 < inject_Z mins).
  { change 0 with (inject_Z 0). rewrite <- Zlt_Qlt. lia. }
  replace (Qeq_bool (inject_Z mins) 0) with false
    by (symmetry; apply Qeq_bool_false; lra).
  assert (Hp : 0 < inject_Z 525600 / inject_Z mins).
  { apply Qlt_shift_div_l; [exact Hm |]. rewrite Qmult_0_l. reflexivity. }
  cbn [fsqrt].
  destruct (Qneg (inject_Z 525600 / inject_Z mins)) eqn:En;
    [q_props; exfalso; lra |].
  eexists. split; [reflexivity |]. now apply Qsqrt_pos.
Qed.

Lemma fold_fadd_finite (l : list npfloat) :
  Forall (fun v => isfinite v = true) l ->
  forall a, exists q, fold_left fadd l (Fin a) = Fin q.
Proof.
  induction 1 as [|v l Hv _ IH]; intros a; cbn [fold_left].
  - now exists a.
  - destruct v as [q| |]; try discriminate Hv. cbn [fadd]. apply IH.
Qed.

Lemma fold_fadd_nonneg (l : list npfloat) :
  Forall (fun x => exists q, x = Fin q /\ 0 <= q) l ->
  forall a, 0 <= a -> exists q, fold_left fadd l (Fin a) = Fin q /\ 0 <= q.
Proof.
  induction 1 as [|x l [q [-> Hq]] _ IH]; intros a Ha; cbn [fold_left fadd].
  - now exists a.
  - apply IH. lra.
Qed.

Lemma Qsquare_nonneg (x : Q) : 0 <= x * x.
Proof.
  destruct (Qlt_le_dec x 0) as [Hn|Hp].
  - assert (E : x * x == (- x) * (- x)) by ring. rewrite E.
    apply Qmult_le_0_compat; lra.
  - now apply Qmult_le_0_compat.
Qed.

Lemma Qsqrt_nonneg (x : Q) : 0 <= Qsqrt x.
Proof.
  unfold Qsqrt. rewrite Qred_correct. unfold Qle. cbn.
  rewrite Z.mul_1_r. apply Z.sqrt_up_nonneg.
Qed.

Lemma np_mean_finite (l : list npfloat) :
  Forall (fun v => isfinite v = true) l -> l <> [] ->
  exists m, np_mean l = Fin m.
Proof.
  intros Hfin Hne. unfold np_mean, fsum.
  destruct (fold_fadd_finite l Hfin 0) as [q ->].
  unfold of_nat, of_Z. cbn [fdiv].
  replace (Qeq_bool (inject_Z (Z.of_nat (length l))) 0) with false.
  - now eexists.
  - symmetry. apply Qeq_bool_false. apply inject_nat_nonzero.
    destruct l; [contradiction | cbn; lia].
Qed.

Lemma np_std_finite (l : list npfloat) :
  Forall (fun v => isfinite v = true) l -> l <> [] ->
  exists s, np_std l = Fin s /\ 0 <= s.
Proof.
  intros Hfin Hne. unfold np_std.
  destruct (np_mean_finite l Hfin Hne) as [m ->].
  set (x := map (fun v => fsub v (Fin m)) l).
  assert (Hsq : Forall (fun y => exists q, y = Fin q /\ 0 <= q)
                  (zip_with fmul x x)).
  { unfold x, zip_with. clear Hne.
    induction Hfin as [|v l' Hv _ IH]; cbn; constructor; auto.
    destruct v as [q| |]; try discriminate Hv. cbn.
    eexists. split; [reflexivity |].
    apply Qsquare_nonneg. }
  assert (Hlen : length (zip_with fmul x x) = length l)
    by (unfold x; rewrite length_zip_with, length_map; lia).
  unfold np_mean, fsum.
  destruct (fold_fadd_nonneg _ Hsq 0 ltac:(lra)) as [q [-> Hq]].
  rewrite Hlen. unfold of_nat, of_Z. cbn [fdiv].
  assert (Hn : (1 <= length l)%nat) by (destruct l; [contradiction | cbn; lia]).
  assert (Hnz := inject_nat_nonzero (length l) Hn).
  replace (Qeq_bool (inject_Z (Z.of_nat (length l))) 0) with false
    by (symmetry; now apply Qeq_bool_false).
  assert (Hpos : 0 < inject_Z (Z.of_nat (length l))).
  { change 0 with (inject_Z 0). rewrite <- Zlt_Qlt. lia. }
  assert (Hv : 0 <= q / inject_Z (Z.of_nat (length l))).
  { apply Qle_shift_div_l; [exact Hpos |]. rewrite Qmult_0_l. exact Hq. }
  cbn [fsqrt].
  replace (Qneg (q / inject_Z (Z.of_nat (length l)))) with false
    by (symmetry; now apply Qlt_bool_false).
  eexists. split; [reflexivity | apply Qsqrt_nonneg].
Qed.

(** The Sharpe ratio of a finite series, as the code computes it: the test
    on the guarded denominator succeeds. *)
Lemma sharpe_of_finite (strat_ret : list npfloat) (m s a : Q) :
  np_mean strat_ret = Fin m ->
  np_std strat_ret = Fin s ->
  0 <= s ->
  fgtb (fadd (np_std strat_ret) (Fin eps12)) (Fin 0) = true /\
  sharpe_of strat_ret (Fin a) = Fin (m / (s + eps12) * a).
Proof.
  intros Em Es Hs.
  assert (Hd : 0 < s + eps12) by (unfold eps12; lra).
  unfold sharpe_of. rewrite Em, Es. cbn [fadd fgtb fltb].
  replace (Qlt_bool 0 (s + eps12)) with true
    by (symmetry; now apply Qlt_bool_true).
  split; [reflexivity |]. cbn [fdiv].
  replace (Qeq_bool (s + eps12) 0) with false
    by (symmetry; apply Qeq_bool_false; lra).
  reflexivity.
Qed.

Lemma repeat_finite (r : Q) (n : nat) :
  Forall (fun v => isfinite v = true) (repeat (Fin r) n).
Proof. induction n as [|n IH]; cbn [repeat]; constructor; auto. Qed.

(** C4. The zero branch of the Sharpe computation is out of reach of a
    constant series.  On a constant net-return series of value [r] the
    standard deviation is a finite number that is not negative, so the
    guarded denominator [std + 1e-12] is strictly positive: the test
    [std_r > 0] succeeds, no division by zero occurs, and the reported
    Sharpe ratio is [mean / (std + 1e-12) * sqrt(periods_per_year)].  It has
    the sign of [r], so it is [0] only when [r] is; where the standard
    deviation comes out as [0], it is [mean / 1e-12] times the
    annualization factor. *)
Theorem sharpe_constant_series
  (bar : string) (ann : npfloat) (r : Q) (n : nat) :
  (1 <= n)%nat ->
  _annualization_factor bar = inr ann ->
  exists a m s q,
    ann = Fin a /\ 0 < a /\
    np_mean (repeat (Fin r) n) = Fin m /\
    np_std (repeat (Fin r) n) = Fin s /\ 0 <= s /\
    fgtb (fadd (np_std (repeat (Fin r) n)) (Fin eps12)) (Fin 0) = true /\
    sharpe_of (repeat (Fin r) n) ann = Fin q /\
    q == m / (s + eps12) * a /\
    (q == 0 <-> r == 0) /\ (0 < q <-> 0 < r) /\ (q < 0 <-> r < 0) /\
    (s == 0 -> q == m / eps12 * a).
Proof.
  intros Hn Hann.
  destruct (annualization_factor_pos bar ann Hann) as [a [-> Ha]].
  destruct (np_mean_repeat_sign r n Hn) as [m [Em [Hp [Hl Hz]]]].
  assert (Hne : repeat (Fin r) n <> [])
    by (destruct n; [lia | discriminate]).
  destruct (np_std_finite _ (repeat_finite r n) Hne) as [s [Es Hs]].
  destruct (sharpe_of_finite _ m s a Em Es Hs) as [Hg Eq].
  exists a, m, s, (m / (s + eps12) * a).
  split; [reflexivity |]. split; [exact Ha |]. split; [exact Em |].
  split; [exact Es |]. split; [exact Hs |]. split; [exact Hg |].
  split; [exact Eq |]. split; [reflexivity |].
  assert (Hd : 0 < s + eps12) by (unfold eps12; lra).
  assert (Hk : 0 < a / (s + eps12)) by (apply Qlt_shift_div_l; lra).
  assert (E : m / (s + eps12) * a == m * (a / (s + eps12)))
    by (field; lra).
  assert (Hlast : s == 0 -> m / (s + eps12) * a == m / eps12 * a).
  { intros Hs0. rewrite Hs0. unfold eps12. field. }
  split; [| split; [| split; [| exact Hlast]]];
    set (k := a / (s + eps12)) in *; clearbody k;
    rewrite E; clear E Hlast Em Es Eq Hg.
  1: rewrite <- Hz. 2: rewrite <- Hp. 3: rewrite <- Hl.
  - split; intros H.
    + apply Qmult_integral in H. destruct H as [H|H]; [exact H |].
      exfalso. lra.
    + rewrite H. ring.
  - split; intros H.
    + destruct (Qlt_le_dec 0 m) as [Hm|Hm]; [exact Hm | exfalso].
      assert (Hx : m * k <= 0 * k) by (apply Qmult_le_compat_r; lra).
      lra.
    + now apply Qmult_lt_0_compat.
  - split; intros H.
    + destruct (Qlt_le_dec m 0) as [Hm|Hm]; [exact Hm | exfalso].
      assert (Hx : 0 * k <= m * k) by (apply Qmult_le_compat_r; lra).
      lra.
    + assert (Hx : 0 < (- m) * k) by (apply Qmult_lt_0_compat; lra).
      lra.
Qed.

(** ** Horizon to steps *)

Local Open Scope Z_scope.

Lemma last_char_snoc (pre : list ascii) (u : ascii) :
  last_char (pre ++ [u]) = inr u.
Proof.
  unfold last_char. destruct pre as [|c r]; [reflexivity |].
  cbn [app]. unfold ok. f_equal. apply last_last.
Qed.

Lemma but_last_snoc (pre : list ascii) (u : ascii) :
  but_last (pre ++ [u]) = pre.
Proof. apply removelast_last. Qed.

Lemma lstrip_snoc (pre : list ascii) (u : ascii) :
  is_space u = false -> lstrip (pre ++ [u]) = lstrip pre ++ [u].
Proof.
  intros Hu. induction pre as [|c r IH]; cbn [app lstrip].
  - now rewrite Hu.
  - destruct (is_space c); [exact IH | reflexivity].
Qed.

Lemma rstrip_snoc (l : list ascii) (u : ascii) :
  is_space u = false -> rstrip (l ++ [u]) = l ++ [u].
Proof.
  intros Hu. unfold rstrip. rewrite rev_app_distr. cbn [rev app lstrip].
  rewrite Hu. cbn [rev]. now rewrite rev_involutive.
Qed.

Lemma lstrip_idem (l : list ascii) : lstrip (lstrip l) = lstrip l.
Proof.
  induction l as [|c r IH]; [reflexivity |].
  cbn [lstrip]. destruct (is_space c) eqn:E; [exact IH |].
  cbn [lstrip]. now rewrite E.
Qed.

Lemma strip_snoc (pre : list ascii) (u : ascii) :
  is_space u = false -> strip (pre ++ [u]) = lstrip pre ++ [u].
Proof.
  intros Hu. unfold strip.
  now rewrite lstrip_snoc, rstrip_snoc.
Qed.

(** The blanks of [int()] are white space of [str.strip]; a sign or a digit
    is not. *)
Lemma int_space_is_space (c : ascii) :
  is_int_space c = true -> is_space c = true.
Proof.
  destruct c as [[|] [|] [|] [|] [|] [|] [|] [|]];
    vm_compute; intros H; try reflexivity; discriminate H.
Qed.

Lemma digit_not_space (c : ascii) (d : Z) :
  digit_val c = Some d -> is_space c = false.
Proof.
  destruct c as [[|] [|] [|] [|] [|] [|] [|] [|]];
    vm_compute; intros H; try reflexivity; discriminate H.
Qed.

Lemma lstrip_int_lstrip (l : list ascii) : lstrip (int_lstrip l) = lstrip l.
Proof.
  induction l as [|c r IH]; [reflexivity |].
  cbn [int_lstrip]. destruct (is_int_space c) eqn:E; [| reflexivity].
  cbn [lstrip]. now rewrite (int_space_is_space c E).
Qed.

Lemma int_lstrip_idem (l : list ascii) :
  int_lstrip (int_lstrip l) = int_lstrip l.
Proof.
  induction l as [|c r IH]; [reflexivity |].
  cbn [int_lstrip]. destruct (is_int_space c) eqn:E; [exact IH |].
  cbn [int_lstrip]. now rewrite E.
Qed.

Lemma int_lstrip_head (l : list ascii) :
  int_lstrip l = [] \/
  exists c r, int_lstrip l = c :: r /\ is_int_space c = false.
Proof.
  induction l as [|c r IH]; cbn [int_lstrip]; [now left |].
  destruct (is_int_space c) eqn:E; [exact IH | right]. now exists c, r.
Qed.

Lemma int_lstrip_snoc (pre : list ascii) (u : ascii) :
  is_int_space u = false -> int_lstrip (pre ++ [u]) = int_lstrip pre ++ [u].
Proof.
  intros Hu. induction pre as [|c r IH]; cbn [app int_lstrip].
  - now rewrite Hu.
  - destruct (is_int_space c); [exact IH | reflexivity].
Qed.

(** A literal that [int()] accepts starts, after its blanks, with a sign or
    a digit. *)
Lemma py_int_head (l : list ascii) (v : Z) :
  py_int l = Some v ->
  exists c r, int_lstrip l = c :: r /\ is_space c = false.
Proof.
  unfold py_int, int_strip.
  destruct (int_lstrip_head l) as [E|[c [r [E Hc]]]]; rewrite E;
    [discriminate |].
  intros H. exists c, r. split; [reflexivity |].
  cbn [rev] in H. rewrite int_lstrip_snoc in H by exact Hc.
  rewrite rev_app_distr in H. cbn [rev app] in H.
  destruct (Ascii.eqb c "-"%char) eqn:Em;
    [apply Ascii.eqb_eq in Em; now subst c |].
  destruct (Ascii.eqb c "+"%char) eqn:Ep;
    [apply Ascii.eqb_eq in Ep; now subst c |].
  cbn [scan_digits] in H.
  destruct (Ascii.eqb c underscore); [discriminate H |].
  destruct (digit_val c) as [d|] eqn:Ed; [| discriminate H].
  exact (digit_not_space c d Ed).
Qed.

(** [_bar_to_minutes] strips the bar before it reads the count; a count that
    [int()] accepts is read the same after that. *)
Lemma py_int_lstrip (l : list ascii) (v : Z) :
  py_int l = Some v -> py_int (lstrip l) = Some v.
Proof.
  intros H. destruct (py_int_head l v H) as [c [r [E Hc]]].
  rewrite <- lstrip_int_lstrip, E. cbn [lstrip]. rewrite Hc, <- E.
  unfold py_int, int_strip in *. now rewrite int_lstrip_idem.
Qed.

(** The unit letters are not white space. *)
Lemma unit_not_space (u : ascii) :
  lower_char u = "m"%char \/ lower_char u = "h"%char -> is_space u = false.
Proof.
  destruct u as [[|] [|] [|] [|] [|] [|] [|] [|]];
    vm_compute; intros [H|H]; try reflexivity; discriminate H.
Qed.

Lemma bar_val_snoc (pre : list ascii) (u : ascii) (val : Z) :
  py_int pre = Some val -> bar_val (pre ++ [u]) = val.
Proof. intros H. unfold bar_val. now rewrite but_last_snoc, H. Qed.

Lemma bar_to_steps_snoc (pre : list ascii) (u : ascii) (h : Z) :
  _bar_to_steps (string_of_list_ascii (pre ++ [u])) h =
  (let val := bar_val (pre ++ [u]) in
   if Ascii.eqb (lower_char u) "m"%char then
     q <- floordiv h val ;; ok (Z.max 1 q)
   else if Ascii.eqb (lower_char u) "h"%char then
     q1 <- floordiv h 60 ;;
     q2 <- floordiv q1 (Z.max 1 val) ;;
     ok (Z.max 1 q2)
   else ok (Z.max 1 h)).
Proof.
  unfold _bar_to_steps.
  now rewrite list_ascii_of_string_of_list_ascii, last_char_snoc.
Qed.

Lemma bar_to_minutes_snoc (pre : list ascii) (u : ascii) (val : Z) :
  py_int pre = Some val ->
  is_space u = false ->
  _bar_to_minutes (string_of_list_ascii (pre ++ [u])) =
  (if Ascii.eqb (lower_char u) "m"%char then ok (Z.max 1 val)
   else if Ascii.eqb (lower_char u) "h"%char then ok (Z.max 1 (60 * val))
   else if Ascii.eqb (lower_char u) "d"%char then
          ok (Z.max 1 (60 * 24 * val))
   else ok 1).
Proof.
  intros Hv Hu. unfold _bar_to_minutes.
  rewrite list_ascii_of_string_of_list_ascii, strip_snoc by exact Hu.
  rewrite last_char_snoc.
  rewrite (bar_val_snoc (lstrip pre) u val)
    by (apply py_int_lstrip; exact Hv).
  reflexivity.
Qed.

(** C6, as the code has it. For a bar whose unit is minutes or hours and
    whose count [int()] reads as at least one, the conversion returns
    [floor(horizon / bar_minutes)] with a minimum of one step; a count that
    [int()] does not accept is taken as one, so the bar counts one minute or
    one hour; for a unit that is none of minutes, hours or days it returns the
    horizon itself with a minimum of one step, and does not fail. *)
Theorem bar_to_steps_conversion (pre : list ascii) (u : ascii) (h : Z) :
  let bar := string_of_list_ascii (pre ++ [u]) in
  (forall val,
      py_int pre = Some val -> 1 <= val ->
      lower_char u = "m"%char \/ lower_char u = "h"%char ->
      exists mins,
        _bar_to_minutes bar = inr mins /\
        mins = (if Ascii.eqb (lower_char u) "m"%char
                then val else 60 * val) /\
        _bar_to_steps bar h = inr (Z.max 1 (h / mins))) /\
  (py_int pre = None ->
   lower_char u = "m"%char \/ lower_char u = "h"%char ->
   _bar_to_steps bar h =
   inr (Z.max 1 (h / (if Ascii.eqb (lower_char u) "m"%char
                      then 1 else 60)))) /\
  (lower_char u <> "m"%char -> lower_char u <> "h"%char ->
   lower_char u <> "d"%char ->
   _bar_to_steps bar h = inr (Z.max 1 h) /\ 1 <= Z.max 1 h).
Proof.
  intros bar. subst bar. split; [| split].
  - intros val Hv Hval Hu.
    rewrite (bar_to_minutes_snoc pre u val Hv (unit_not_space u Hu)).
    rewrite bar_to_steps_snoc, (bar_val_snoc pre u val Hv). cbn zeta.
    unfold floordiv.
    destruct Hu as [Hu|Hu]; rewrite Hu; cbn [Ascii.eqb Bool.eqb].
    + exists val. rewrite Z.max_r by lia.
      replace (val =? 0) with false by (symmetry; apply Z.eqb_neq; lia).
      repeat split; reflexivity.
    + exists (60 * val). rewrite !Z.max_r by lia.
      replace (val =? 0) with false by (symmetry; apply Z.eqb_neq; lia).
      cbn [Z.eqb]. repeat split; try reflexivity.
      unfold ok. do 2 f_equal. apply Z.div_div; lia.
  - intros Hv Hu. rewrite bar_to_steps_snoc. cbn zeta.
    unfold bar_val. rewrite but_last_snoc, Hv. unfold floordiv.
    destruct Hu as [Hu|Hu]; rewrite Hu; cbn [Ascii.eqb Bool.eqb Z.eqb];
      [reflexivity |].
    change (Z.max 1 1) with 1. change (1 =? 0) with false.
    unfold ok. cbv beta iota. now rewrite Z.div_1_r.
  - intros Hm Hh _. rewrite bar_to_steps_snoc. cbn zeta.
    apply Ascii.eqb_neq in Hm, Hh. rewrite Hm, Hh.
    split; [reflexivity | lia].
Qed.

(** ** Degenerate inputs *)

(** C8. When the builder yields no valid row, [run_backtest] does not reach
    its return: whatever the classifier answers on the empty matrix, the
    assignment [sig_shift[0] = 0] on the empty array raises [IndexError]
    (unless the classifier or the bar conversion raised before). *)
Theorem run_backtest_no_rows_raises
  (df : list candle) (model : classifier) (cfg : BacktestConfig) :
  (forall steps, _bar_to_steps (bar cfg) (horizon cfg) = inr steps ->
                 fst (build_from_candles df steps) = []) ->
  exists e, run_backtest df model cfg = inl e.
Proof.
  intros Hempty. unfold run_backtest.
  destruct (_bar_to_steps (bar cfg) (horizon cfg)) as [e|steps] eqn:Es;
    [now exists e |].
  specialize (Hempty steps eq_refl).
  destruct (build_from_candles df steps) as [X y]. cbn [fst] in Hempty.
  subst X. cbn [values index map].
  destruct (predict_proba_up model []) as [e|probs] eqn:Ep;
    [now exists e |].
  apply predict_shape in Ep. destruct probs; [| discriminate Ep].
  exists IndexError. reflexivity.
Qed.

(** ** Trade statistics *)

Lemma count_wins_bounds (equity : series npfloat) (pairs : list (nat * nat)) :
  forall w w', count_wins equity pairs w = inr w' ->
               (w <= w' <= w + length pairs)%nat.
Proof.
  induction pairs as [|[s e] r IH]; intros w w' H; cbn [count_wins] in H.
  - inversion H. cbn [length]. lia.
  - destruct (loc equity e) as [x|at_end]; [discriminate |].
    destruct (loc equity s) as [x|at_start]; [discriminate |].
    apply IH in H. cbn [length].
    destruct (fgtb at_end at_start); lia.
Qed.

Lemma trade_counts_wins_le (equity positions : series npfloat) (n wins : nat) :
  trade_counts equity positions = inr (n, wins) -> (wins <= n)%nat.
Proof.
  unfold trade_counts.
  destruct (trade_pos positions) as [e|pos]; [discriminate |].
  destruct (bool_index (index equity) (trade_starts pos)) as [e|start_idx];
    [discriminate |].
  destruct (bool_index (index equity) (trade_ends pos)) as [e|end_idx];
    [discriminate |].
  set (k := Nat.min (length start_idx) (length end_idx)).
  destruct (count_wins equity (firstn k (combine start_idx end_idx)) 0)
    as [e|w] eqn:Ew; [discriminate |].
  intros H. inversion H; subst; clear H.
  apply count_wins_bounds in Ew.
  assert (Hl := firstn_le_length k (combine start_idx end_idx)). lia.
Qed.

Local Open Scope Q_scope.

Lemma win_rate_bounds (wins total : nat) :
  (wins <= total)%nat -> (1 <= total)%nat ->
  exists q, fdiv (fmul (Fin 100) (of_nat wins)) (of_nat total) = Fin q /\
            0 <= q <= 100.
Proof.
  intros Hw Ht. unfold of_nat, of_Z. cbn [fmul fdiv].
  assert (Hnz := inject_nat_nonzero total Ht).
  replace (Qeq_bool (inject_Z (Z.of_nat total)) 0) with false
    by (symmetry; now apply Qeq_bool_false).
  eexists. split; [reflexivity |].
  assert (Hpos : 0 < inject_Z (Z.of_nat total)).
  { change 0 with (inject_Z 0). rewrite <- Zlt_Qlt. lia. }
  assert (Hw0 : 0 <= inject_Z (Z.of_nat wins)).
  { change 0 with (inject_Z 0). rewrite <- Zle_Qle. lia. }
  assert (Hwt : inject_Z (Z.of_nat wins) <= inject_Z (Z.of_nat total)).
  { rewrite <- Zle_Qle. lia. }
  split.
  - apply Qle_shift_div_l; [exact Hpos | lra].
  - apply Qle_shift_div_r; [exact Hpos | lra].
Qed.

Lemma astype_int_fillna (l : list npfloat) :
  Forall (fun v => not_inf v = true) l ->
  exists pos, astype_int (fillna (Fin 0) l) = inr pos /\
              length pos = length l.
Proof.
  induction 1 as [|v l Hv _ IH].
  - exists []. split; reflexivity.
  - destruct IH as [pos [E Hlen]].
    destruct v as [q|s|]; [| discriminate Hv |].
    + exists (Qtrunc q :: pos). cbn. unfold fillna in E. rewrite E.
      split; [reflexivity | cbn; lia].
    + exists (Qtrunc 0 :: pos). cbn. unfold fillna in E. rewrite E.
      split; [reflexivity | cbn; lia].
Qed.

Lemma length_trade_starts (pos : list Z) :
  length (trade_starts pos) = length pos.
Proof.
  unfold trade_starts.
  rewrite length_zip_with, !length_map, length_fillna, length_shift,
    length_map. lia.
Qed.

Lemma length_trade_ends (pos : list Z) :
  length (trade_ends pos) = length pos.
Proof.
  unfold trade_ends.
  rewrite length_zip_with, !length_map, length_fillna, length_shift,
    length_map. lia.
Qed.

Lemma In_select {A : Type} (x : A) (l : list A) (mask : list bool) :
  In x (select l mask) -> In x l.
Proof.
  revert mask. induction l as [|a l IH]; intros [|m mask] H;
    cbn [select] in H; try contradiction.
  destruct m; [destruct H as [->|H] |]; [now left | right | right];
    eapply IH; eauto.
Qed.

Lemma In_firstn {A : Type} (x : A) (n : nat) (l : list A) :
  In x (firstn n l) -> In x l.
Proof.
  intros H. rewrite <- (firstn_skipn n l). apply in_or_app. now left.
Qed.

(** A label of a unique index is found. *)
Lemma loc_found {A : Type} (s : series A) (label : nat) :
  NoDup (index s) -> In label (index s) -> exists v, loc s label = inr v.
Proof.
  unfold loc, index.
  induction s as [|[i v] s IH]; intros Hnd Hin; [contradiction |].
  cbn [map fst] in Hnd, Hin. inversion Hnd as [|? ? Hni Hnd']; subst.
  cbn [filter fst].
  destruct (Nat.eqb_spec i label) as [->|Hne].
  - rewrite filter_none; [now exists v |].
    intros [j w] Hj. cbn [fst]. apply Nat.eqb_neq. intros ->.
    apply Hni. apply in_map_iff. exists (label, w). auto.
  - destruct Hin as [Hin|Hin]; [contradiction |]. now apply IH.
Qed.

Lemma count_wins_total (equity : series npfloat)
  (pairs : list (nat * nat)) :
  NoDup (index equity) ->
  (forall s e, In (s, e) pairs ->
               In s (index equity) /\ In e (index equity)) ->
  forall w, exists w', count_wins equity pairs w = inr w'.
Proof.
  intros Hnd. induction pairs as [|[s e] r IH]; intros Hin w;
    cbn [count_wins].
  - now exists w.
  - destruct (Hin s e (or_introl eq_refl)) as [Hs He].
    destruct (loc_found equity e Hnd He) as [ve ->].
    destruct (loc_found equity s Hnd Hs) as [vs ->].
    apply IH. intros s' e' H'. apply Hin. now right.
Qed.

(** C10. Whenever [_trade_stats_from_series] returns, the wins it counted do
    not exceed the trade count it reports and the win rate is a number in
    [[0, 100]], also with no trade; and it does return on every equity and
    position series of one shape with a unique index and no infinite
    position. *)
Theorem trade_stats_win_rate_bounds (equity positions : series npfloat) :
  (forall n rate,
      _trade_stats_from_series equity positions = inr (n, rate) ->
      exists wins q,
        trade_counts equity positions = inr (n, wins) /\
        (wins <= n)%nat /\ rate = Fin q /\ 0 <= q <= 100) /\
  (length positions = length equity ->
   NoDup (index equity) ->
   Forall (fun v => not_inf v = true) (values positions) ->
   exists n rate, _trade_stats_from_series equity positions = inr (n, rate)).
Proof.
  split.
  - intros n rate H. unfold _trade_stats_from_series in H.
    destruct (trade_counts equity positions) as [e|[k wins]] eqn:Ec;
      [discriminate |].
    inversion H; subst; clear H.
    assert (Hle := trade_counts_wins_le _ _ _ _ Ec).
    destruct (win_rate_bounds wins (if (0 <? n)%nat then n else 1%nat))
      as [q [Eq Hq]].
    + destruct (Nat.ltb_spec 0 n); lia.
    + destruct (Nat.ltb_spec 0 n); lia.
    + exists wins, q. repeat split; auto; apply Hq.
  - intros Hlen Hnd Hfin.
    unfold _trade_stats_from_series, trade_counts, trade_pos.
    destruct (astype_int_fillna (values positions) Hfin) as [pos [-> Hpos]].
    assert (Hp : length pos = length (index equity)).
    { unfold index, values in *. rewrite length_map in *. lia. }
    unfold bool_index.
    rewrite length_trade_starts, length_trade_ends, Hp, Nat.eqb_refl.
    cbn [ok].
    set (start_idx := select (index equity) (trade_starts pos)).
    set (end_idx := select (index equity) (trade_ends pos)).
    set (k := Nat.min (length start_idx) (length end_idx)).
    destruct (count_wins_total equity
                (firstn k (combine start_idx end_idx)) Hnd) with (w := 0%nat)
      as [w' Ew].
    + intros s e Hin. apply In_firstn in Hin. split.
      * apply in_combine_l in Hin. eapply In_select; eauto.
      * apply in_combine_r in Hin. eapply In_select; eauto.
    + rewrite Ew. eexists. eexists. reflexivity.
Qed.

(* ===================================================================== *)
(** * The properties on concrete inputs *)

(** ** The scenario of the specification *)

Example scenario_signals :
  _signals_from_probs probs5 (Fin (55 # 100)) (Fin (45 # 100)) = sig5.
Proof. reflexivity. Qed.

Example scenario_positions : sig_shift_of sig5 = inr sig_shift5.
Proof. reflexivity. Qed.

Example scenario_turnover :
  turnover_of sig5 sig_shift5 = [Fin 1; Fin 0; Fin 2; Fin 0; Fin 2].
Proof. reflexivity. Qed.

Example scenario_labels :
  snd (build_from_candles df5 1) =
  [(0%nat, 1%Z); (1%nat, 1%Z); (2%nat, 0%Z); (3%nat, 0%Z)].
Proof. vm_compute. reflexivity. Qed.

Example bar_to_steps_5m : _bar_to_steps "5m" 17 = inr 3%Z.
Proof. reflexivity. Qed.

Example bar_to_steps_2H : _bar_to_steps "2H" 300 = inr 2%Z.
Proof. reflexivity. Qed.

Example bar_to_steps_empty : _bar_to_steps "" 5 = inl IndexError.
Proof. reflexivity. Qed.

Example bar_to_steps_0m : _bar_to_steps "0m" 5 = inl ZeroDivisionError.
Proof. reflexivity. Qed.

Example bar_to_minutes_2h : _bar_to_minutes " 2h " = inr 120%Z.
Proof. reflexivity. Qed.

Example py_int_underscores :
  py_int (list_ascii_of_string " +1_000 ") = Some 1000%Z.
Proof. reflexivity. Qed.

Example py_int_double_underscore :
  py_int (list_ascii_of_string "1__0") = None.
Proof. reflexivity. Qed.

(** [int()] does not accept the separator U+001C, which [str.strip] removes:
    on the bar made of U+001C, [5] and [m], [_bar_to_steps] takes the count
    as [1], while [_bar_to_minutes], which strips the bar first, reads [5]. *)
Example bar_with_separator :
  py_int [ascii_of_nat 28; "5"%char] = None /\
  _bar_to_steps (String (ascii_of_nat 28) "5m") 10 = inr 10%Z /\
  _bar_to_minutes (String (ascii_of_nat 28) "5m") = inr 5%Z.
Proof. repeat split. Qed.

(** A window that holds an infinite value has no mean. *)
Example rolling_mean_infinite :
  map isna (rolling_mean 2 [Fin 1; Inf false; Fin 3; Fin 5]) =
  [true; true; true; false].
Proof. reflexivity. Qed.

Example trade_stats_no_trade :
  _trade_stats_from_series equity5
    (combine [0; 1; 2; 3; 4]%nat (repeat (Fin 0) 5)) = inr (0%nat, Fin 0).
Proof. vm_compute. reflexivity. Qed.

(** A missing close inside the series drops the row that looks at it. *)
Example index_with_missing_close :
  index (fst (build_from_candles
                [candle_at 100; candle_at 101;
                 mkCandle 0 NaN NaN NaN NaN (of_Z 10);
                 candle_at 101; candle_at 100] 1)) = [0; 2; 3]%nat.
Proof. vm_compute. reflexivity. Qed.

Example trade_stats_two_trades :
  trade_counts equity5 positions5 = inr (2%nat, 1%nat).
Proof. vm_compute. reflexivity. Qed.

(** ** Where the code departs from the specification *)

(** C4. A run whose net returns are the constant [-0.0007]: on a flat
    price the signal goes long and then flat, so both periods have a gross
    return of [0] and pay one unit of turnover at 7 basis points.  The
    reported Sharpe ratio is negative, not [0]. *)
Lemma sharpe_constant_series_counterexample :
  (exists net,
      strat_ret_of [Fin 1; Fin 0] [Fin 0; Fin 0] (Fin 5) (Fin 2) = inr net /\
      Forall (fun x => same_float x (Fin (-7 # 10000))) net /\
      exists ann,
        _annualization_factor "1m" = inr ann /\
        fltb (sharpe_of net ann) (Fin 0) = true) /\
  (exists res,
      run_backtest df_flat thin_volume_model cfg_1m = inr res /\
      values (positions res) = [Fin 1; Fin 0] /\
      Forall2 same_float (values (equity res))
        [Fin 9993; Fin (99860049 # 10000)] /\
      fltb (sharpe res) (Fin 0) = true /\
      ~ same_float (sharpe res) (Fin 0)).
Proof.
  split.
  - eexists. split; [reflexivity |]. split.
    + repeat (apply Forall_cons; [vm_compute; reflexivity |]).
      apply Forall_nil.
    + eexists. split; [reflexivity |]. vm_compute. reflexivity.
  - destruct (run_backtest df_flat thin_volume_model cfg_1m)
      as [e|res] eqn:E; [vm_compute in E; discriminate |].
    exists res. split; [reflexivity |].
    assert (Hs : values (positions res) = [Fin 1; Fin 0] /\
                 Forall2 same_float (values (equity res))
                   [Fin 9993; Fin (99860049 # 10000)] /\
                 fltb (sharpe res) (Fin 0) = true).
    { vm_compute in E. inversion E; subst; clear E.
      split; [reflexivity |]. split; [| reflexivity].
      repeat (apply Forall2_cons; [vm_compute; reflexivity |]).
      apply Forall2_nil. }
    destruct Hs as [Hp [He Hlt]]. repeat split; auto.
    intros Hz. destruct (sharpe res) as [q| |]; try contradiction Hz.
    simpl in Hz, Hlt. apply Qlt_bool_true in Hlt. lra.
Qed.

(** C6. A one-day bar with a 5-minute horizon gives 5 steps, not
    [max(1, floor(5 / 1440)) = 1]; an unknown unit gives the horizon, 5
    steps, not 1; a count of zero minutes raises. *)
Lemma bar_to_steps_counterexample :
  _bar_to_minutes "1d" = inr 1440%Z /\
  _bar_to_steps "1d" 5 = inr 5%Z /\
  _bar_to_steps "1d" 5 <> inr (Z.max 1 (5 / 1440)) /\
  _bar_to_steps "1x" 5 = inr 5%Z /\
  _bar_to_steps "1x" 5 <> inr 1%Z /\
  _bar_to_steps "0m" 5 = inl ZeroDivisionError.
Proof. repeat split; try reflexivity; discriminate. Qed.

(** C7. An always-long signal is charged in period [0]: the cost there is
    positive and the net return is below the gross return. *)
Lemma constant_signal_counterexample :
  sig_shift_of (repeat (Fin 1) 3) = inr [Fin 0; Fin 1; Fin 1] /\
  fltb (Fin 0)
    (nth 0 (costs_of (turnover_of (repeat (Fin 1) 3) [Fin 0; Fin 1; Fin 1])
              (cost_bps (Fin 5) (Fin 2))) NaN) = true /\
  fltb
    (nth 0 (net_ret (repeat (Fin 1) 3) [Fin 0; Fin 1; Fin 1]
              [Fin 0; Fin (1 # 100); Fin (1 # 100)] (Fin 5) (Fin 2)) NaN)
    (nth 0 (gross_ret [Fin 0; Fin 1; Fin 1]
              [Fin 0; Fin (1 # 100); Fin (1 # 100)]) NaN) = true.
Proof. repeat split; reflexivity. Qed.

(** C8. The empty candle series, and a series shorter than the horizon. *)
Example run_backtest_empty_raises :
  run_backtest [] (const_model (Fin (6 # 10))) cfg_1m = inl IndexError.
Proof. reflexivity. Qed.

Example run_backtest_short_raises :
  run_backtest df5 (const_model (Fin (6 # 10)))
    (mkConfig "BTC-USDT" "1m" 7 2000 (Fin (55 # 100)) (Fin (45 # 100))
       (of_Z 10000) (Fin 5) (Fin 2)) = inl IndexError.
Proof. vm_compute. reflexivity. Qed.

(** ** The theorems at work *)

(** C1 on the scenario: changing the last candle, which lies after
    [t + h = 3], leaves the label of row [2] as it was. *)
Lemma build_from_candles_no_look_ahead_witness :
  loc (snd (build_from_candles df5 1)) 2 =
  loc (snd (build_from_candles df5_perturbed 1)) 2.
Proof.
  apply (build_from_candles_no_look_ahead df5 df5_perturbed 1 2).
  - lia.
  - intros i Hi.
    destruct i as [|[|[|[|i]]]]; try reflexivity.
    simpl in Hi. lia.
Defined.


(** C3 on the scenario: five candles, one step ahead, four rows. *)
Lemma build_from_candles_index_alignment_witness :
  length (fst (build_from_candles df5 1)) =
  length (snd (build_from_candles df5 1)) /\
  index (fst (build_from_candles df5 1)) =
  index (snd (build_from_candles df5 1)) /\
  index (fst (build_from_candles df5 1)) = seq 0 (5 - 1).
Proof.
  destruct (build_from_candles_index_alignment df5 1) as [Hl [Hi [_ Hs]]].
  - lia.
  - split; [exact Hl |]. split; [exact Hi |].
    apply Hs. repeat constructor.
Defined.

(** C4 on one-minute bars and two periods of [-0.0007]. *)
Lemma sharpe_constant_series_witness :
  exists q,
    sharpe_of (repeat (Fin (-7 # 10000)) 2)
      (fsqrt (fdiv (of_Z 525600) (of_Z 1))) = Fin q /\
    q < 0.
Proof.
  destruct (sharpe_constant_series "1m"
              (fsqrt (fdiv (of_Z 525600) (of_Z 1))) (-7 # 10000) 2)
    as [a [m [s [q [_ [_ [_ [_ [_ [_ [Es [_ [_ [_ [Hq _]]]]]]]]]]]]]]].
  - lia.
  - reflexivity.
  - exists q. split; [exact Es |]. apply Hq. reflexivity.
Defined.

(** C5 on the scenario: period [2], a flip from long to short, at 7 and at
    13 basis points. *)
Lemma net_return_cost_monotone_witness :
  fgtb (fsub (fmul (Fin 1) (Fin (1 # 101)))
          (fmul (fabs (fsub (Fin (-1)) (Fin 1)))
             (cost_bps (Fin 10) (Fin 3))))
       (fsub (fmul (Fin 1) (Fin (1 # 101)))
          (fmul (fabs (fsub (Fin (-1)) (Fin 1)))
             (cost_bps (Fin 5) (Fin 2)))) = false.
Proof.
  apply (net_return_cost_monotone sig5 sig_shift5 ret5 5 2 10 3 2).
  - lra.
  - lra.
  - lra.
  - lra.
  - reflexivity.
  - reflexivity.
  - reflexivity.
Defined.

(** C6 on a 15-minute bar, on a count that is no integer and on an unknown
    unit. *)
Lemma bar_to_steps_conversion_witness :
  _bar_to_steps "15m" 47 = inr 3%Z /\
  _bar_to_steps "1.5h" 130 = inr 2%Z /\
  _bar_to_steps "1x" 5 = inr 5%Z.
Proof.
  split; [| split].
  - destruct (proj1 (bar_to_steps_conversion
                       ["1"%char; "5"%char] "m"%char 47) 15%Z)
      as [mins [_ [Hv Hs]]].
    + reflexivity.
    + lia.
    + left. reflexivity.
    + rewrite Hv in Hs. exact Hs.
  - apply (proj1 (proj2 (bar_to_steps_conversion
                           ["1"%char; "."%char; "5"%char] "h"%char 130))).
    + reflexivity.
    + right. reflexivity.
  - apply (proj2 (proj2 (bar_to_steps_conversion ["1"%char] "x"%char 5)));
      discriminate.
Defined.

(** C7 on an always-long signal over three periods. *)
Lemma constant_signal_costs_witness :
  exists sig_shift,
    sig_shift_of (repeat (Fin 1) 3) = inr sig_shift /\
    exists z,
      nth_error (costs_of (turnover_of (repeat (Fin 1) 3) sig_shift)
                   (cost_bps (Fin 5) (Fin 2))) 2 = Some (Fin z) /\
      z == 0.
Proof.
  destruct (constant_signal_costs 1 5 2 3 ret5) as [ss [E [_ [Hz _]]]].
  - lia.
  - exists ss. split; [exact E |]. apply (Hz 2%nat). lia.
Defined.

(** C8 on the empty candle series. *)
Lemma run_backtest_no_rows_raises_witness :
  exists e, run_backtest [] (const_model (Fin (6 # 10))) cfg_1m = inl e.
Proof.
  apply (run_backtest_no_rows_raises [] (const_model (Fin (6 # 10))) cfg_1m).
  intros steps _. reflexivity.
Defined.

(** C10 on two trades, one of them won. *)
Lemma trade_stats_win_rate_bounds_witness :
  (exists n rate,
      _trade_stats_from_series equity5 positions5 = inr (n, rate)) /\
  (exists wins q,
      trade_counts equity5 positions5 = inr (2%nat, wins) /\
      (wins <= 2)%nat /\ Fin (100 # 2) = Fin q /\ 0 <= q <= 100).
Proof.
  split.
  - apply (proj2 (trade_stats_win_rate_bounds equity5 positions5)).
    + reflexivity.
    + repeat constructor; simpl; intuition discriminate.
    + repeat constructor.
  - apply (proj1 (trade_stats_win_rate_bounds equity5 positions5)
             2%nat (Fin (100 # 2))).
    vm_compute. reflexivity.
Defined.

(** C9 on the scenario: the third signal, under the short threshold. *)
Lemma signals_from_probs_ternary_witness :
  In (Fin (-1)) (_signals_from_probs probs5 (Fin (55 # 100)) (Fin (45 # 100)))
  /\ (Fin (-1) = Fin (-1) \/ Fin (-1) = Fin 0 \/ Fin (-1) = Fin 1).
Proof.
  assert (H : In (Fin (-1))
                (_signals_from_probs probs5 (Fin (55 # 100))
                   (Fin (45 # 100))))
    by (right; right; left; reflexivity).
  split; [exact H |].
  exact (signals_from_probs_ternary probs5 (Fin (55 # 100)) (Fin (45 # 100))
           (Fin (-1)) H).
Defined.

(* ===================================================================== *)
(** * Further properties of the code *)

(** ** Bar strings *)

Local Open Scope Z_scope.

Lemma list_ascii_snoc_cases (l : list ascii) :
  l = [] \/ exists pre u, l = pre ++ [u].
Proof.
  destruct l as [|c r]; [now left | right].
  assert (H : c :: r <> []) by discriminate.
  destruct (exists_last H) as [pre [u E]].
  now exists pre, u.
Qed.

Lemma string_snoc_cases (s : string) :
  s = ""%string \/ exists pre u, s = string_of_list_ascii (pre ++ [u]).
Proof.
  destruct (list_ascii_snoc_cases (list_ascii_of_string s)) as [E|[pre [u E]]].
  - left. rewrite <- (string_of_list_ascii_of_string s), E. reflexivity.
  - right. exists pre, u.
    now rewrite <- E, string_of_list_ascii_of_string.
Qed.

Lemma bar_val_zero (pre : list ascii) (u : ascii) :
  bar_val (pre ++ [u]) = 0 <-> py_int pre = Some 0.
Proof.
  unfold bar_val. rewrite but_last_snoc.
  destruct (py_int pre) as [v|]; split; intros H; congruence.
Qed.

(** X1. [_bar_to_steps] returns at least one step whenever it returns; it
    raises [IndexError] exactly on the empty string, [ZeroDivisionError]
    exactly on a minutes bar whose count parses to [0], and nothing else. *)
Theorem bar_to_steps_outcomes (bar : string) (h : Z) :
  (forall s, _bar_to_steps bar h = inr s -> 1 <= s) /\
  (_bar_to_steps bar h = inl IndexError <-> bar = ""%string) /\
  (_bar_to_steps bar h = inl ZeroDivisionError <->
   exists pre u, bar = string_of_list_ascii (pre ++ [u]) /\
                 lower_char u = "m"%char /\ py_int pre = Some 0) /\
  (forall e, _bar_to_steps bar h = inl e ->
             e = IndexError \/ e = ZeroDivisionError).
Proof.
  destruct (string_snoc_cases bar) as [->|[pre [u ->]]].
  - repeat split; try discriminate; auto.
    + intros [pre [u [E _]]].
      apply (f_equal list_ascii_of_string) in E.
      rewrite list_ascii_of_string_of_list_ascii in E.
      destruct pre; discriminate E.
    + intros e E. inversion E. now left.
  - rewrite bar_to_steps_snoc. cbn zeta. unfold floordiv.
    assert (Hne : string_of_list_ascii (pre ++ [u]) <> ""%string).
    { intros E. apply (f_equal list_ascii_of_string) in E.
      rewrite list_ascii_of_string_of_list_ascii in E.
      destruct pre; discriminate E. }
    assert (Hinj : forall pre' u',
               string_of_list_ascii (pre ++ [u]) =
               string_of_list_ascii (pre' ++ [u']) ->
               pre = pre' /\ u = u').
    { intros pre' u' E. apply (f_equal list_ascii_of_string) in E.
      rewrite !list_ascii_of_string_of_list_ascii in E.
      now apply app_inj_tail. }
    destruct (Ascii.eqb_spec (lower_char u) "m"%char) as [Hm|Hm].
    + destruct (Z.eqb_spec (bar_val (pre ++ [u])) 0) as [Hz|Hz].
      * apply bar_val_zero in Hz. repeat split; try discriminate; auto.
        -- intros E. contradiction.
        -- intros _. now exists pre, u.
        -- intros e E. inversion E. now right.
      * repeat split; try discriminate.
        -- intros s E. inversion E. lia.
        -- intros E. contradiction.
        -- intros [pre' [u' [E [_ Hp]]]].
           apply Hinj in E. destruct E as [<- <-].
           apply (proj2 (bar_val_zero pre u)) in Hp. contradiction.
    + destruct (Ascii.eqb (lower_char u) "h"%char).
      * cbn [Z.eqb].
        replace (Z.max 1 (bar_val (pre ++ [u])) =? 0) with false
          by (symmetry; apply Z.eqb_neq; lia).
        repeat split; try discriminate.
        -- intros s E. inversion E. lia.
        -- intros E. contradiction.
        -- intros [pre' [u' [E [Hu _]]]].
           apply Hinj in E. destruct E as [<- <-]. contradiction.
      * repeat split; try discriminate.
        -- intros s E. inversion E. lia.
        -- intros E. contradiction.
        -- intros [pre' [u' [E [Hu _]]]].
           apply Hinj in E. destruct E as [<- <-]. contradiction.
Qed.

Lemma bar_to_steps_outcomes_witness :
  _bar_to_steps "0m" 5 = inl ZeroDivisionError.
Proof.
  apply (proj2 (proj1 (proj2 (proj2 (bar_to_steps_outcomes "0m" 5))))).
  exists ["0"%char], "m"%char. repeat split.
Defined.

Lemma lstrip_nil_iff (l : list ascii) :
  lstrip l = [] <-> forallb is_space l = true.
Proof.
  induction l as [|c r IH]; cbn [lstrip forallb]; [tauto |].
  destruct (is_space c); cbn [andb]; [exact IH |].
  split; discriminate.
Qed.

Lemma lstrip_head (l : list ascii) :
  lstrip l = [] \/ exists c r, lstrip l = c :: r /\ is_space c = false.
Proof.
  induction l as [|c r IH]; cbn [lstrip]; [now left |].
  destruct (is_space c) eqn:E; [exact IH | right]. now exists c, r.
Qed.

Lemma rstrip_cons_nonspace (c : ascii) (r : list ascii) :
  is_space c = false -> exists r', rstrip (c :: r) = c :: r'.
Proof.
  intros Hc. unfold rstrip. cbn [rev].
  rewrite lstrip_snoc by exact Hc. rewrite rev_app_distr. cbn [rev app].
  now eexists.
Qed.

Lemma strip_nil_iff (l : list ascii) :
  strip l = [] <-> forallb is_space l = true.
Proof.
  rewrite <- lstrip_nil_iff. unfold strip.
  destruct (lstrip_head l) as [E|[c [r [E Hc]]]]; rewrite E.
  - split; reflexivity.
  - destruct (rstrip_cons_nonspace c r Hc) as [r' ->].
    split; discriminate.
Qed.

(** X2. [_bar_to_minutes] raises exactly on a blank string (empty or white
    space only), and then [IndexError]; on every other string it returns a
    duration of at least one minute, so the annualization factor is
    defined exactly on the non-blank strings. *)
Theorem bar_to_minutes_outcomes (bar : string) :
  (_bar_to_minutes bar = inl IndexError <->
   forallb is_space (list_ascii_of_string bar) = true) /\
  (forall e, _bar_to_minutes bar = inl e -> e = IndexError) /\
  (forall mins, _bar_to_minutes bar = inr mins -> 1 <= mins) /\
  (forallb is_space (list_ascii_of_string bar) = false ->
   exists mins ann, _bar_to_minutes bar = inr mins /\
                    _annualization_factor bar = inr ann).
Proof.
  assert (Hcases :
    (strip (list_ascii_of_string bar) = [] /\
     _bar_to_minutes bar = inl IndexError) \/
    (strip (list_ascii_of_string bar) <> [] /\
     exists mins, _bar_to_minutes bar = inr mins)).
  { unfold _bar_to_minutes.
    destruct (strip (list_ascii_of_string bar)) as [|c r] eqn:E.
    - left. split; reflexivity.
    - right. split; [discriminate |]. cbn [last_char].
      unfold ok at 1.
      repeat match goal with
             | |- context [if ?b then _ else _] => destruct b
             end; eexists; reflexivity. }
  rewrite <- strip_nil_iff.
  destruct Hcases as [[Es E]|[Es [mins E]]]; rewrite E.
  - repeat split; auto; try discriminate.
    + intros e H. now inversion H.
    + intros H. rewrite strip_nil_iff in Es. congruence.
  - repeat split; try discriminate.
    + intros H. contradiction.
    + intros m H. inversion H; subst. eapply bar_to_minutes_pos; eauto.
    + intros _. exists mins. unfold _annualization_factor. rewrite E.
      eexists. split; reflexivity.
Qed.

Lemma bar_to_minutes_outcomes_witness :
  exists mins ann, _bar_to_minutes "4H" = inr mins /\
                   _annualization_factor "4H" = inr ann.
Proof.
  apply (proj2 (proj2 (proj2 (bar_to_minutes_outcomes "4H")))).
  reflexivity.
Defined.

Lemma lower_char_idem (u : ascii) : lower_char (lower_char u) = lower_char u.
Proof.
  destruct u as [[|] [|] [|] [|] [|] [|] [|] [|]]; vm_compute; reflexivity.
Qed.

Lemma is_space_lower_char (u : ascii) : is_space (lower_char u) = is_space u.
Proof.
  destruct u as [[|] [|] [|] [|] [|] [|] [|] [|]]; vm_compute; reflexivity.
Qed.

Lemma lower_char_space (u : ascii) : is_space u = true -> lower_char u = u.
Proof.
  destruct u as [[|] [|] [|] [|] [|] [|] [|] [|]]; vm_compute;
    intros H; try reflexivity; discriminate H.
Qed.

Lemma bar_to_minutes_unit (pre : list ascii) (u : ascii) :
  is_space u = false ->
  _bar_to_minutes (string_of_list_ascii (pre ++ [u])) =
  (let val := bar_val (lstrip pre ++ [u]) in
   if Ascii.eqb (lower_char u) "m"%char then ok (Z.max 1 val)
   else if Ascii.eqb (lower_char u) "h"%char then ok (Z.max 1 (60 * val))
   else if Ascii.eqb (lower_char u) "d"%char then
          ok (Z.max 1 (60 * 24 * val))
   else ok 1).
Proof.
  intros Hu. unfold _bar_to_minutes.
  rewrite list_ascii_of_string_of_list_ascii, strip_snoc by exact Hu.
  now rewrite last_char_snoc.
Qed.

Lemma bar_val_unit (pre : list ascii) (u u' : ascii) :
  bar_val (pre ++ [u]) = bar_val (pre ++ [u']).
Proof. unfold bar_val. now rewrite !but_last_snoc. Qed.

(** X3. The unit letter of a bar string is read without regard to case:
    putting it in lower case changes neither the number of steps nor the
    number of minutes. *)
Theorem bar_unit_case_insensitive (pre : list ascii) (u : ascii) (h : Z) :
  _bar_to_steps (string_of_list_ascii (pre ++ [u])) h =
  _bar_to_steps (string_of_list_ascii (pre ++ [lower_char u])) h /\
  _bar_to_minutes (string_of_list_ascii (pre ++ [u])) =
  _bar_to_minutes (string_of_list_ascii (pre ++ [lower_char u])).
Proof.
  split.
  - rewrite !bar_to_steps_snoc, lower_char_idem.
    now rewrite (bar_val_unit pre u (lower_char u)).
  - destruct (is_space u) eqn:Hu.
    + now rewrite (lower_char_space u Hu).
    + rewrite !bar_to_minutes_unit
        by (rewrite ?is_space_lower_char; exact Hu).
      rewrite lower_char_idem.
      now rewrite (bar_val_unit (lstrip pre) u (lower_char u)).
Qed.

(** X4. An hours bar is converted as the minutes bar of the same duration:
    if the count of one parses to [v >= 1] and the count of the other to
    [60 * v], the two give the same number of steps for every horizon, and
    the same number of minutes. *)
Theorem bar_hours_as_minutes (pre_h pre_m : list ascii) (v h : Z) :
  py_int pre_h = Some v ->
  py_int pre_m = Some (60 * v) ->
  1 <= v ->
  _bar_to_steps (string_of_list_ascii (pre_h ++ ["h"%char])) h =
  _bar_to_steps (string_of_list_ascii (pre_m ++ ["m"%char])) h /\
  _bar_to_minutes (string_of_list_ascii (pre_h ++ ["h"%char])) =
  _bar_to_minutes (string_of_list_ascii (pre_m ++ ["m"%char])).
Proof.
  intros Hh Hm Hv. split.
  - rewrite !bar_to_steps_snoc.
    rewrite (bar_val_snoc pre_h _ v Hh), (bar_val_snoc pre_m _ (60 * v) Hm).
    cbn zeta.
    change (Ascii.eqb (lower_char "h") "m") with false.
    change (Ascii.eqb (lower_char "h") "h") with true.
    change (Ascii.eqb (lower_char "m") "m") with true.
    cbv iota. unfold floordiv.
    change (60 =? 0) with false. cbv iota.
    replace (Z.max 1 v =? 0) with false by (symmetry; apply Z.eqb_neq; lia).
    replace (60 * v =? 0) with false by (symmetry; apply Z.eqb_neq; lia).
    unfold ok. do 2 f_equal.
    rewrite Z.max_r by lia. apply Z.div_div; lia.
  - rewrite (bar_to_minutes_snoc pre_h "h"%char v Hh eq_refl).
    rewrite (bar_to_minutes_snoc pre_m "m"%char (60 * v) Hm eq_refl).
    reflexivity.
Qed.

Lemma bar_hours_as_minutes_witness :
  _bar_to_steps "2h" 300 = _bar_to_steps "120m" 300.
Proof.
  apply (proj1 (bar_hours_as_minutes ["2"%char]
                  ["1"%char; "2"%char; "0"%char] 2 300
                  eq_refl eq_refl ltac:(lia))).
Defined.

(** ** Signals and the lag *)

Local Open Scope Q_scope.

(** X5. The signal of a row is decided by its probability alone: it is
    [-1] exactly when the probability is below [thr_short], [+1] exactly
    when it is above [thr_long] and not below [thr_short] (the short test
    wins when the thresholds overlap), and [0] for a NaN probability; the
    signal array has the length of the probability array. *)
Theorem signals_from_probs_rule
  (probs : list npfloat) (thr_long thr_short : npfloat) :
  length (_signals_from_probs probs thr_long thr_short) = length probs /\
  forall t p,
    nth_error probs t = Some p ->
    exists s,
      nth_error (_signals_from_probs probs thr_long thr_short) t = Some s /\
      (s = Fin (-1) <-> fltb p thr_short = true) /\
      (s = Fin 1 <-> fgtb p thr_long = true /\ fltb p thr_short = false) /\
      (isna p = true -> s = Fin 0).
Proof.
  split; [apply length_signals |].
  intros t p Hp. rewrite signals_pointwise, nth_error_map, Hp. cbn [option_map].
  eexists. split; [reflexivity |].
  assert (Hnan : isna p = true ->
                 fltb p thr_short = false /\ fgtb p thr_long = false).
  { destruct p; try discriminate. intros _. split; [reflexivity |].
    unfold fgtb. now destruct thr_long. }
  destruct (fltb p thr_short) eqn:Es, (fgtb p thr_long) eqn:El;
    (split; [| split]);
    try (split; intros H; try reflexivity; try discriminate H;
         try (destruct H; discriminate); auto; fail);
    intros Hn; destruct (Hnan Hn) as [H1 H2]; try discriminate;
    reflexivity.
Qed.

Lemma signals_from_probs_rule_witness :
  exists s,
    nth_error (_signals_from_probs probs5 (Fin (55 # 100)) (Fin (45 # 100))) 2
    = Some s /\ (s = Fin (-1) <-> fltb (Fin (4 # 10)) (Fin (45 # 100)) = true).
Proof.
  destruct (proj2 (signals_from_probs_rule probs5 (Fin (55 # 100))
                     (Fin (45 # 100))) 2%nat (Fin (4 # 10)) eq_refl)
    as [s [E [H _]]].
  exists s. split; [exact E | exact H].
Defined.

Lemma signal_of_monotone (p p' thr_long thr_short : npfloat) :
  fleb p p' = true ->
  fleb (if fltb p thr_short then Fin (-1)
        else if fgtb p thr_long then Fin 1 else Fin 0)
       (if fltb p' thr_short then Fin (-1)
        else if fgtb p' thr_long then Fin 1 else Fin 0) = true.
Proof.
  intros Hle. unfold fgtb.
  destruct (fltb p thr_short) eqn:E1, (fltb p' thr_short) eqn:E2,
           (fltb thr_long p) eqn:E3, (fltb thr_long p') eqn:E4;
    try reflexivity; exfalso;
    destruct p as [a|sa|], p' as [b|sb|],
             thr_long as [l|sl|], thr_short as [s|ss|];
    cbn in *; try discriminate;
    repeat match goal with
           | x : bool |- _ => destruct x; cbn in *; try discriminate
           end;
    q_props; lra.
Qed.

(** X6. A higher probability never gives a lower signal, whatever the two
    thresholds are: if every probability of one array is at most the
    probability at the same place of another, so are the signals. *)
Theorem signals_from_probs_monotone
  (probs probs' : list npfloat) (thr_long thr_short : npfloat) :
  Forall2 (fun p p' => fleb p p' = true) probs probs' ->
  Forall2 (fun s s' => fleb s s' = true)
    (_signals_from_probs probs thr_long thr_short)
    (_signals_from_probs probs' thr_long thr_short).
Proof.
  rewrite !signals_pointwise.
  induction 1 as [|p p' l l' Hp _ IH]; cbn [map]; constructor; auto.
  now apply signal_of_monotone.
Qed.

Lemma signals_from_probs_monotone_witness :
  Forall2 (fun s s' => fleb s s' = true)
    (_signals_from_probs [Fin (4 # 10); Fin (5 # 10)]
       (Fin (55 # 100)) (Fin (45 # 100)))
    (_signals_from_probs [Fin (5 # 10); Fin (6 # 10)]
       (Fin (55 # 100)) (Fin (45 # 100))).
Proof.
  apply signals_from_probs_monotone.
  repeat constructor.
Defined.

(** X7. The lagged series is the signal series with [0] put in front and
    its last signal dropped: the wrap-around of [np.roll] never reaches a
    position, and the last signal of a run is never held. *)
Theorem sig_shift_drops_last (l : list npfloat) (x : npfloat) :
  sig_shift_of (l ++ [x]) = inr (Fin 0 :: l).
Proof.
  destruct l as [|a l'].
  - reflexivity.
  - cbn [app]. rewrite sig_shift_of_cons. do 2 f_equal.
    rewrite length_app. cbn [length].
    replace (length l' + 1)%nat with (S (length l')) by lia.
    change (a :: l' ++ [x]) with ((a :: l') ++ [x]).
    rewrite firstn_app.
    replace (S (length l') - length (a :: l'))%nat with 0%nat
      by (cbn [length]; lia).
    cbn [firstn]. rewrite app_nil_r.
    f_equal. apply firstn_all.
Qed.

(** ** Costs and equity *)

(** X8. After the first period the cost of a period is the size of the
    change of signal times the rate [(fee_bps + slip_bps) / 10000]: nothing
    when the signal is held, one rate to open or close a side, two rates to
    flip between long and short. *)
Theorem cost_follows_signal_change
  (sig sig_shift : list npfloat) (fee slip a b : Q) (t : nat) :
  sig_shift_of sig = inr sig_shift ->
  nth_error sig t = Some (Fin a) ->
  nth_error sig (S t) = Some (Fin b) ->
  exists z,
    nth_error (costs_of (turnover_of sig sig_shift)
                 (cost_bps (Fin fee) (Fin slip))) (S t) = Some (Fin z) /\
    z == Qabs (b - a) * ((fee + slip) / 10000) /\
    (a == b -> z == 0) /\
    (Qabs (b - a) == 2 -> z == 2 * ((fee + slip) / 10000)).
Proof.
  intros Hs Ha Hb.
  assert (Ht : (S t < length sig)%nat)
    by (apply nth_error_Some; congruence).
  rewrite nth_error_costs, Hb.
  rewrite (nth_error_sig_shift sig sig_shift (S t) Hs Ht).
  cbn [position_at]. rewrite Ha, cost_rate_finite.
  cbn [fsub fopp fadd fabs fmul].
  eexists. split; [reflexivity |].
  assert (E : b + - a == b - a) by ring.
  split; [now rewrite E | split].
  - intros Hab. rewrite E, Hab.
    assert (E0 : b - b == 0) by ring. rewrite E0. reflexivity.
  - intros H2. now rewrite E, H2.
Qed.

Lemma cost_follows_signal_change_witness :
  exists z,
    nth_error (costs_of (turnover_of sig5 sig_shift5)
                 (cost_bps (Fin 5) (Fin 2))) 2 = Some (Fin z) /\
    z == 2 * ((5 + 2) / 10000).
Proof.
  destruct (cost_follows_signal_change sig5 sig_shift5 5 2 1 (-1) 1
              eq_refl eq_refl eq_refl) as [z [E [_ [_ H2]]]].
  exists z. split; [exact E |]. apply H2. reflexivity.
Defined.

Lemma cumprod_from_positive (acc : Q) (xs : list npfloat) (initial : Q) :
  0 < initial -> 0 < acc ->
  Forall (fun x => exists q, x = Fin q /\ 0 < q) xs ->
  Forall (fun e => exists q, e = Fin q /\ 0 < q)
    (map (fmul (Fin initial)) (cumprod_from (Fin acc) xs)).
Proof.
  intros Hi Hacc Hxs. revert acc Hacc.
  induction Hxs as [|x xs [q [-> Hq]] _ IH]; intros acc Hacc;
    cbn [cumprod_from map fmul]; constructor.
  - eexists. split; [reflexivity |].
    apply Qmult_lt_0_compat; [exact Hi |].
    now apply Qmult_lt_0_compat.
  - apply IH. now apply Qmult_lt_0_compat.
Qed.

(** In the exact arithmetic of the model a product of positive factors is
    positive; in binary64 it may round to [0.0] or to [inf], which the
    statement below allows for. *)
Lemma cumprod_positive (initial : Q) (xs : list npfloat) :
  0 < initial ->
  Forall (fun x => exists q, x = Fin q /\ 0 < q) xs ->
  Forall (fun e => exists q, e = Fin q /\ 0 < q)
    (map (fmul (Fin initial)) (cumprod xs)).
Proof.
  intros Hi Hx.
  destruct Hx as [|x xs [q [-> Hq]] Hxs]; cbn [cumprod map fmul];
    constructor.
  - eexists. split; [reflexivity |]. now apply Qmult_lt_0_compat.
  - now apply cumprod_from_positive.
Qed.

(** X9. The equity curve [initial * cumprod(1 + strat_ret)] is never NaN and
    never negative as long as the initial capital is positive and every net
    return is a finite number above [-1] (no period loses 100%): every
    factor [1 + r] is positive, and a product of positive factors does not
    change sign. *)
Theorem equity_curve_not_negative (initial : Q) (strat_ret : list npfloat) :
  0 < initial ->
  Forall (fun r => exists q, r = Fin q /\ -1 < q) strat_ret ->
  Forall (fun e => isna e = false /\ fltb e (Fin 0) = false)
    (map (fmul (Fin initial))
       (cumprod (map (fun r => fadd (Fin 1) r) strat_ret))).
Proof.
  intros Hi Hr.
  assert (Hx : Forall (fun x => exists q, x = Fin q /\ 0 < q)
                 (map (fun r => fadd (Fin 1) r) strat_ret)).
  { induction Hr as [|r rs [q [-> Hq]] _ IH]; cbn [map fadd]; constructor;
      auto.
    eexists. split; [reflexivity | lra]. }
  eapply Forall_impl; [| exact (cumprod_positive initial _ Hi Hx)].
  intros e [q [-> Hq]]. split; [reflexivity |].
  cbn [fltb]. apply Qlt_bool_false. lra.
Qed.

Lemma equity_curve_not_negative_witness :
  Forall (fun e => isna e = false /\ fltb e (Fin 0) = false)
    (map (fmul (Fin 10000))
       (cumprod (map (fun r => fadd (Fin 1) r)
                   [Fin (-7 # 10000); Fin (1 # 100)]))).
Proof.
  apply equity_curve_not_negative.
  - reflexivity.
  - repeat constructor; eexists; (split; [reflexivity | reflexivity]).
Defined.

(** ** Trades *)

Local Open Scope Z_scope.

Lemma is0_of_Z (z : Z) : is0 (of_Z z) = (z =? 0).
Proof.
  unfold is0, of_Z, feqb.
  destruct (Z.eqb_spec z 0) as [->|Hne]; [reflexivity |].
  apply Qeq_bool_false. intros H.
  apply (proj1 (inject_Z_injective z 0)) in H. contradiction.
Qed.

Lemma fillna_of_Z (v : npfloat) (l : list Z) :
  fillna v (map of_Z l) = map of_Z l.
Proof.
  unfold fillna. rewrite map_map. apply map_ext. reflexivity.
Qed.

Lemma starts_from_zip (l : list Z) :
  forall p,
    zip_with andb
      (map (fun z => z =? 0) (p :: firstn (length l - 1) l))
      (map nonzero l) = starts_from p l.
Proof.
  unfold zip_with.
  induction l as [|x r IH]; intros p; [reflexivity |].
  cbn [length]. replace (S (length r) - 1)%nat with (length r) by lia.
  destruct r as [|y r'].
  - reflexivity.
  - cbn [length firstn map combine fst snd starts_from].
    f_equal. specialize (IH x). cbn [length] in IH.
    replace (S (length r') - 1)%nat with (length r') in IH by lia.
    exact IH.
Qed.

Lemma shift_one (x : npfloat) (r : list npfloat) :
  shift 1 (x :: r) = NaN :: firstn (length r) (x :: r).
Proof.
  unfold shift. change (0 <=? 1) with true. cbv iota. cbn [length].
  replace (Nat.min (Z.to_nat 1) (S (length r))) with 1%nat by lia.
  replace (S (length r) - 1)%nat with (length r) by lia.
  reflexivity.
Qed.

Lemma shift_back_one (x : npfloat) (r : list npfloat) :
  shift (-1) (x :: r) = r ++ [NaN].
Proof.
  unfold shift. change (0 <=? -1) with false. cbv iota. cbn [length].
  replace (Nat.min (Z.to_nat (- -1)) (S (length r))) with 1%nat by lia.
  reflexivity.
Qed.

Lemma map_is0_of_Z (l : list Z) :
  map is0 (map of_Z l) = map (fun z => z =? 0) l.
Proof. rewrite map_map. apply map_ext. apply is0_of_Z. Qed.

Lemma trade_starts_rec (pos : list Z) : trade_starts pos = starts_from 0 pos.
Proof.
  destruct pos as [|x r]; [reflexivity |].
  rewrite <- starts_from_zip. unfold trade_starts.
  change (map of_Z (x :: r)) with (of_Z x :: map of_Z r).
  rewrite shift_one, length_map.
  change (of_Z x :: map of_Z r) with (map of_Z (x :: r)).
  rewrite firstn_map.
  change (fillna (Fin 0) (NaN :: map of_Z (firstn (length r) (x :: r))))
    with (Fin 0 :: fillna (Fin 0) (map of_Z (firstn (length r) (x :: r)))).
  rewrite fillna_of_Z.
  change (map is0 (Fin 0 :: map of_Z (firstn (length r) (x :: r))))
    with ((0 =? 0) :: map is0 (map of_Z (firstn (length r) (x :: r)))).
  rewrite map_is0_of_Z. cbn [length].
  replace (S (length r) - 1)%nat with (length r) by lia.
  reflexivity.
Qed.

Lemma ends_of_zip (l : list Z) :
  zip_with andb (map nonzero l)
    (map (fun z => z =? 0) (tl l) ++ [true]) = ends_of l.
Proof.
  unfold zip_with.
  induction l as [|x r IH]; [reflexivity |].
  destruct r as [|y r'].
  - reflexivity.
  - cbn [tl map app combine fst snd ends_of hd] in *.
    f_equal. exact IH.
Qed.

Lemma trade_ends_rec (pos : list Z) : trade_ends pos = ends_of pos.
Proof.
  destruct pos as [|x r]; [reflexivity |].
  rewrite <- ends_of_zip. unfold trade_ends.
  change (map of_Z (x :: r)) with (of_Z x :: map of_Z r).
  rewrite shift_back_one.
  unfold fillna at 1. rewrite map_app.
  change (map (fun x0 => if isna x0 then Fin 0 else x0) (map of_Z r))
    with (fillna (Fin 0) (map of_Z r)).
  rewrite fillna_of_Z, map_app, map_is0_of_Z.
  reflexivity.
Qed.

Lemma count_true_cons (b : bool) (l : list bool) :
  count_true (b :: l) = ((if b then 1 else 0) + count_true l)%nat.
Proof. unfold count_true. now destruct b. Qed.

(** Every run but a run continued from before the series has its start in
    the series; every run has its end there. *)
Lemma count_ends_starts (l : list Z) :
  forall p,
    count_true (ends_of l) =
    (count_true (starts_from p l) +
     (if nonzero p && nonzero (hd 0%Z l) then 1 else 0))%nat.
Proof.
  induction l as [|x r IH]; intros p.
  - cbn. now rewrite andb_false_r.
  - cbn [ends_of starts_from hd]. rewrite !count_true_cons, (IH x).
    unfold nonzero.
    destruct (p =? 0), (x =? 0), (hd 0 r =? 0); cbn; lia.
Qed.

Lemma length_select_count {A : Type} (l : list A) (mask : list bool) :
  length mask = length l -> length (select l mask) = count_true mask.
Proof.
  revert mask. induction l as [|a l IH]; intros [|m mask] H;
    try discriminate H; [reflexivity |].
  cbn [select]. rewrite count_true_cons.
  destruct m; cbn [length]; rewrite IH by (cbn in H; lia); reflexivity.
Qed.

Lemma count_starts_zero (l : list Z) :
  count_true (starts_from 0 l) = 0%nat <-> Forall (fun p => p = 0) l.
Proof.
  induction l as [|x r IH]; [split; [constructor | reflexivity] |].
  cbn [starts_from]. rewrite count_true_cons. unfold nonzero.
  destruct (Z.eqb_spec x 0) as [->|Hne]; cbn.
  - rewrite IH. split; intros H; [now constructor | now inversion H].
  - split; [discriminate |]. intros H. inversion H. contradiction.
Qed.

(** What [trade_counts] returns, step by step. *)
Lemma trade_counts_inv (equity positions : series npfloat) (n wins : nat) :
  trade_counts equity positions = inr (n, wins) ->
  exists pos,
    trade_pos positions = inr pos /\
    length pos = length (index equity) /\
    n = Nat.min (length (select (index equity) (trade_starts pos)))
                (length (select (index equity) (trade_ends pos))).
Proof.
  unfold trade_counts, bool_index.
  destruct (trade_pos positions) as [e|pos]; [discriminate |].
  rewrite length_trade_starts, length_trade_ends.
  destruct (Nat.eqb_spec (length pos) (length (index equity))) as [El|];
    [| discriminate].
  cbn [ok].
  destruct (count_wins equity _ 0) as [e|w]; [discriminate |].
  intros H. inversion H; subst. exists pos. auto.
Qed.

(** X10. The trade count that [_trade_stats_from_series] reports is the
    number of rows that open a trade and also the number of rows that close
    one: the two index lists always have the same length, so taking their
    minimum never drops a trade. *)
Theorem trade_count_is_number_of_runs
  (equity positions : series npfloat) (n : nat) (rate : npfloat) :
  _trade_stats_from_series equity positions = inr (n, rate) ->
  exists pos,
    trade_pos positions = inr pos /\
    trade_starts pos = starts_from 0 pos /\
    trade_ends pos = ends_of pos /\
    n = count_true (trade_starts pos) /\
    n = count_true (trade_ends pos).
Proof.
  unfold _trade_stats_from_series.
  destruct (trade_counts equity positions) as [e|[k wins]] eqn:Ec;
    [discriminate |].
  intros H. inversion H; subst; clear H.
  destruct (trade_counts_inv _ _ _ _ Ec) as [pos [Ep [Hl Hn]]].
  exists pos. split; [exact Ep |].
  split; [apply trade_starts_rec |]. split; [apply trade_ends_rec |].
  rewrite !length_select_count in Hn
    by (rewrite ?length_trade_starts, ?length_trade_ends; exact Hl).
  assert (E : count_true (trade_ends pos) = count_true (trade_starts pos)).
  { rewrite trade_starts_rec, trade_ends_rec, (count_ends_starts pos 0).
    cbn. lia. }
  rewrite E in *. lia.
Qed.

Lemma trade_count_is_number_of_runs_witness :
  exists pos,
    trade_pos positions5 = inr pos /\
    2%nat = count_true (trade_starts pos) /\
    2%nat = count_true (trade_ends pos).
Proof.
  destruct (trade_count_is_number_of_runs equity5 positions5 2
              (Fin (100 # 2)) eq_refl) as [pos [E [_ [_ [Hs He]]]]].
  exists pos. auto.
Defined.

Lemma trade_stats_inv (equity positions : series npfloat)
  (n : nat) (rate : npfloat) :
  _trade_stats_from_series equity positions = inr (n, rate) ->
  exists wins,
    trade_counts equity positions = inr (n, wins) /\
    rate = fdiv (fmul (Fin 100) (of_nat wins))
                (of_nat (if (0 <? n)%nat then n else 1%nat)).
Proof.
  unfold _trade_stats_from_series.
  destruct (trade_counts equity positions) as [e|[k wins]]; [discriminate |].
  intros H. inversion H; subst. now exists wins.
Qed.

Lemma trade_count_starts (equity positions : series npfloat)
  (n wins : nat) (pos : list Z) :
  trade_counts equity positions = inr (n, wins) ->
  trade_pos positions = inr pos ->
  n = count_true (starts_from 0 pos).
Proof.
  intros Hc Hp.
  destruct (trade_counts_inv _ _ _ _ Hc) as [pos' [Ep [Hl Hn]]].
  rewrite Hp in Ep. inversion Ep; subst pos'; clear Ep.
  rewrite !length_select_count in Hn
    by (rewrite ?length_trade_starts, ?length_trade_ends; exact Hl).
  rewrite trade_starts_rec, trade_ends_rec, (count_ends_starts pos 0) in Hn.
  cbn in Hn. lia.
Qed.

(** X11. A run reports zero trades exactly when every position truncates
    to [0] (flat throughout, missing values counting as flat), and its win
    rate is then [0], not a division fault. *)
Theorem no_trade_iff_flat
  (equity positions : series npfloat) (n : nat) (rate : npfloat)
  (pos : list Z) :
  _trade_stats_from_series equity positions = inr (n, rate) ->
  trade_pos positions = inr pos ->
  (n = 0%nat <-> Forall (fun p => p = 0) pos) /\
  (n = 0%nat -> exists q, rate = Fin q /\ (q == 0)%Q).
Proof.
  intros Hs Hp.
  destruct (trade_stats_inv _ _ _ _ Hs) as [wins [Hc ->]].
  assert (Hn := trade_count_starts _ _ _ _ _ Hc Hp).
  assert (Hw := trade_counts_wins_le _ _ _ _ Hc).
  split.
  - rewrite Hn. apply count_starts_zero.
  - intros H0. subst n. rewrite H0 in *.
    replace wins with 0%nat by lia.
    eexists. split; reflexivity.
Qed.

Lemma no_trade_iff_flat_witness :
  (0%nat = 0%nat <-> Forall (fun p => p = 0) [0; 0; 0; 0; 0]) /\
  (0%nat = 0%nat -> exists q, Fin 0 = Fin q /\ (q == 0)%Q).
Proof.
  apply (no_trade_iff_flat equity5
           (combine [0; 1; 2; 3; 4]%nat (repeat (Fin 0) 5)) 0 (Fin 0)).
  - vm_compute. reflexivity.
  - vm_compute. reflexivity.
Defined.

(** ** A run on at least one valid row *)

Lemma combine_fst {A B : Type} (a : list A) (b : list B) :
  length a = length b -> map fst (combine a b) = a.
Proof.
  revert b. induction a as [|x a IH]; intros [|y b] H;
    try discriminate H; [reflexivity |].
  cbn. f_equal. apply IH. cbn in H. lia.
Qed.

Lemma combine_snd {A B : Type} (a : list A) (b : list B) :
  length a = length b -> map snd (combine a b) = b.
Proof.
  revert b. induction a as [|x a IH]; intros [|y b] H;
    try discriminate H; [reflexivity |].
  cbn. f_equal. apply IH. cbn in H. lia.
Qed.

Lemma NoDup_select {A : Type} (l : list A) (mask : list bool) :
  NoDup l -> NoDup (select l mask).
Proof.
  intros H. revert mask.
  induction H as [|a l Hni _ IH]; intros [|m mask]; cbn [select];
    try constructor.
  destruct m; [constructor |]; auto.
  intros Hin. apply Hni. eapply In_select; eauto.
Qed.

Lemma length_select_le {A : Type} (l : list A) (mask : list bool) :
  (length (select l mask) <= length l)%nat.
Proof.
  revert mask. induction l as [|a l IH]; intros [|m mask]; cbn [select length];
    try lia.
  specialize (IH mask). destruct m; cbn [length]; lia.
Qed.

Lemma length_cumprod_from (acc : npfloat) (l : list npfloat) :
  length (cumprod_from acc l) = length l.
Proof.
  revert acc. induction l as [|x l IH]; intros acc; cbn; auto.
Qed.

Lemma length_cumprod (l : list npfloat) : length (cumprod l) = length l.
Proof.
  destruct l; cbn; [reflexivity |]. now rewrite length_cumprod_from.
Qed.

Lemma length_net_ret (sig sig_shift ret : list npfloat) (fee slip : npfloat) :
  length sig_shift = length sig -> length ret = length sig ->
  length (net_ret sig sig_shift ret fee slip) = length sig.
Proof.
  intros H1 H2. unfold net_ret, gross_ret, costs_of, turnover_of.
  rewrite !length_zip_with, !length_map, length_zip_with. lia.
Qed.

Lemma index_fst_build_NoDup (df : list candle) (h : Z) :
  NoDup (index (fst (build_from_candles df h))).
Proof.
  unfold build_from_candles, index, labelled. cbn [fst].
  rewrite index_select_labels by now rewrite length_seq.
  apply NoDup_select. apply seq_NoDup.
Qed.

Lemma signals_not_inf (probs : list npfloat) (thr_long thr_short : npfloat) :
  Forall (fun v => not_inf v = true)
    (_signals_from_probs probs thr_long thr_short).
Proof.
  rewrite signals_pointwise. apply Forall_forall. intros s Hin.
  apply in_map_iff in Hin. destruct Hin as [p [<- _]].
  destruct (fltb p thr_short); [reflexivity |].
  now destruct (fgtb p thr_long).
Qed.

(** [_trade_stats_from_series] returns on series of one shape with a
    unique index and no infinite position. *)
Lemma trade_stats_returns (equity positions : series npfloat) :
  length positions = length equity ->
  NoDup (index equity) ->
  Forall (fun v => not_inf v = true) (values positions) ->
  exists n rate,
    _trade_stats_from_series equity positions = inr (n, rate) /\
    (n <= length equity)%nat.
Proof.
  intros Hlen Hnd Hfin.
  unfold _trade_stats_from_series, trade_counts, trade_pos.
  destruct (astype_int_fillna (values positions) Hfin) as [pos [-> Hpos]].
  assert (Hp : length pos = length (index equity)).
  { unfold index, values in *. rewrite length_map in *. lia. }
  unfold bool_index.
  rewrite length_trade_starts, length_trade_ends, Hp, Nat.eqb_refl.
  cbn [ok].
  set (start_idx := select (index equity) (trade_starts pos)).
  set (end_idx := select (index equity) (trade_ends pos)).
  set (k := Nat.min (length start_idx) (length end_idx)).
  destruct (count_wins_total equity
              (firstn k (combine start_idx end_idx)) Hnd) with (w := 0%nat)
    as [w' Ew].
  - intros s e Hin. apply In_firstn in Hin. split.
    + apply in_combine_l in Hin. eapply In_select; eauto.
    + apply in_combine_r in Hin. eapply In_select; eauto.
  - rewrite Ew. eexists. eexists. split; [reflexivity |].
    assert (Hs := length_select_le (index equity) (trade_starts pos)).
    fold start_idx in Hs. unfold index in Hs. rewrite length_map in Hs.
    unfold k. lia.
Qed.

(** X12. On at least one valid row, when the bar string converts and the
    classifier answers, [run_backtest] returns a result; its sample count
    is the number of valid rows, the equity curve and the positions carry
    the index of the feature matrix, the positions are the signals of the
    probabilities, and there are no more trades than samples. *)
Theorem run_backtest_returns
  (df : list candle) (model : classifier) (cfg : BacktestConfig)
  (steps mins : Z) (probs : list npfloat) :
  _bar_to_steps (bar cfg) (horizon cfg) = inr steps ->
  fst (build_from_candles df steps) <> [] ->
  predict_proba_up model (values (fst (build_from_candles df steps)))
  = inr probs ->
  _bar_to_minutes (bar cfg) = inr mins ->
  exists res,
    run_backtest df model cfg = inr res /\
    samples res = length (fst (build_from_candles df steps)) /\
    index (equity res) = index (fst (build_from_candles df steps)) /\
    index (positions res) = index (fst (build_from_candles df steps)) /\
    values (positions res) =
      _signals_from_probs probs (thr_long cfg) (thr_short cfg) /\
    (trades res <= samples res)%nat.
Proof.
  intros Hsteps Hne Hpred Hmins.
  assert (Hnd := index_fst_build_NoDup df steps).
  unfold run_backtest. rewrite Hsteps.
  destruct (build_from_candles df steps) as [X y]. cbn [fst] in *.
  rewrite Hpred.
  set (sig := _signals_from_probs probs (thr_long cfg) (thr_short cfg)).
  set (ret := fillna (Fin 0)
                (map (fun t => nth t (pct_change 1 (map close df)) NaN)
                   (index X))).
  assert (Hlp : length probs = length X).
  { apply predict_shape in Hpred. unfold values in Hpred.
    now rewrite length_map in Hpred. }
  assert (Hlsig : length sig = length X)
    by (unfold sig; now rewrite length_signals).
  assert (Hlret : length ret = length X)
    by (unfold ret, index; now rewrite length_fillna, !length_map).
  unfold strat_ret_of.
  destruct (sig_shift_of sig) as [e|ss] eqn:Ess.
  { destruct sig as [|a l]; [| rewrite sig_shift_of_cons in Ess; discriminate].
    destruct X; [contradiction | discriminate Hlsig]. }
  assert (Hlss := length_sig_shift _ _ Ess).
  cbn [ok].
  set (strat_ret := net_ret sig ss ret (fee_bps cfg) (slip_bps cfg)).
  assert (Hlsr : length strat_ret = length X).
  { unfold strat_ret. rewrite length_net_ret; lia. }
  unfold _annualization_factor. rewrite Hmins.
  set (eq_vals := map (fmul (initial cfg))
                    (cumprod (map (fun r => fadd (Fin 1) r) strat_ret))).
  assert (Hlev : length eq_vals = length (index X)).
  { unfold eq_vals, index.
    rewrite length_map, length_cumprod, !length_map. exact Hlsr. }
  assert (Hlix : length (index X) = length sig)
    by (unfold index; rewrite length_map; lia).
  destruct (trade_stats_returns (combine (index X) eq_vals)
              (combine (index X) sig)) as [n [rate [Ets Hn]]].
  - rewrite !length_combine. lia.
  - unfold index at 1. rewrite combine_fst by (symmetry; exact Hlev).
    exact Hnd.
  - unfold values. rewrite combine_snd by exact Hlix.
    apply signals_not_inf.
  - rewrite Ets. eexists. split; [reflexivity |].
    cbn [samples equity positions trades].
    split; [reflexivity |].
    split; [unfold index at 1; apply combine_fst; symmetry; exact Hlev |].
    split; [unfold index at 1; apply combine_fst; exact Hlix |].
    split; [unfold values; apply combine_snd; exact Hlix |].
    rewrite length_combine in Hn. unfold index in Hn.
    rewrite length_map in Hn. lia.
Qed.

Lemma run_backtest_returns_witness :
  exists res,
    run_backtest df5 (const_model (Fin (6 # 10))) cfg_1m = inr res /\
    samples res = 4%nat.
Proof.
  destruct (run_backtest_returns df5 (const_model (Fin (6 # 10))) cfg_1m
              1 1 (repeat (Fin (6 # 10)) 4))
    as [res [E [Hs _]]].
  - reflexivity.
  - vm_compute. discriminate.
  - vm_compute. reflexivity.
  - reflexivity.
  - exists res. split; [exact E |]. rewrite Hs. vm_compute. reflexivity.
Defined.

(** ** The feature columns *)

Lemma nth_of_nth_error {A : Type} (l : list A) (t : nat) (d : A) :
  nth t l d = match nth_error l t with Some x => x | None => d end.
Proof.
  revert t. induction l as [|a l IH]; intros [|t]; cbn; auto.
Qed.

Lemma nth_shift_lag (k : nat) (l : list npfloat) (t : nat) :
  (t < length l)%nat ->
  nth t (shift (Z.of_nat k) l) NaN =
  if (t <? k)%nat then NaN else nth (t - k) l NaN.
Proof.
  intros Ht. unfold shift.
  replace (0 <=? Z.of_nat k) with true by (symmetry; apply Z.leb_le; lia).
  rewrite Nat2Z.id.
  set (k' := Nat.min k (length l)).
  destruct (Nat.ltb_spec t k) as [Hlt|Hge].
  - rewrite app_nth1 by (rewrite repeat_length; unfold k'; lia).
    apply nth_repeat.
  - assert (Hk : k' = k) by (unfold k'; lia).
    rewrite app_nth2 by (rewrite repeat_length; lia).
    rewrite repeat_length, Hk.
    rewrite nth_firstn.
    replace (t - k <? length l - k)%nat with true
      by (symmetry; apply Nat.ltb_lt; lia).
    reflexivity.
Qed.

(** The value of [pct_change] at a row, from the forward-filled column. *)
Lemma nth_error_pct_change (k : nat) (l : list npfloat) (t : nat) :
  (t < length l)%nat ->
  nth_error (pct_change (Z.of_nat k) l) t =
  Some (fsub (fdiv (nth t (ffill l) NaN)
                (if (t <? k)%nat then NaN else nth (t - k) (ffill l) NaN))
          (Fin 1)).
Proof.
  intros Ht. unfold pct_change.
  assert (Hf : length (ffill l) = length l) by apply length_ffill_from.
  rewrite nth_error_map, nth_error_zip_with.
  rewrite (nth_error_nth' (ffill l) NaN) by lia.
  rewrite (nth_error_nth' (shift (Z.of_nat k) (ffill l)) NaN)
    by (rewrite length_shift; lia).
  rewrite nth_shift_lag by lia. reflexivity.
Qed.

(** Forward filling looks backwards only. *)
Lemma ffill_from_prefix (t : nat) :
  forall (l1 l2 : list npfloat) (p : npfloat),
    (forall i, (i <= t)%nat -> nth_error l1 i = nth_error l2 i) ->
    nth_error (ffill_from p l1) t = nth_error (ffill_from p l2) t.
Proof.
  induction t as [|t IH]; intros l1 l2 p H.
  - specialize (H 0%nat (Nat.le_refl 0%nat)).
    destruct l1 as [|a l1], l2 as [|b l2]; cbn [nth_error] in H;
      try discriminate H; [reflexivity |].
    inversion H; subst b. reflexivity.
  - assert (H0 := H 0%nat ltac:(lia)).
    destruct l1 as [|a l1], l2 as [|b l2]; cbn in H0; try discriminate;
      [reflexivity |].
    inversion H0; subst b. cbn [ffill_from nth_error].
    apply IH. intros i Hi. apply (H (S i)). lia.
Qed.

Lemma nth_ffill_prefix (l1 l2 : list npfloat) (t i : nat) :
  (forall j, (j <= t)%nat -> nth_error l1 j = nth_error l2 j) ->
  (i <= t)%nat ->
  nth i (ffill l1) NaN = nth i (ffill l2) NaN.
Proof.
  intros H Hi. rewrite !nth_of_nth_error. unfold ffill.
  rewrite (ffill_from_prefix i l1 l2 NaN); [reflexivity |].
  intros j Hj. apply H. lia.
Qed.

(** [pct_change] with a non-negative lag looks backwards only. *)
Lemma pct_change_prefix (k : nat) (l1 l2 : list npfloat) (t : nat) :
  (forall j, (j <= t)%nat -> nth_error l1 j = nth_error l2 j) ->
  nth_error (pct_change (Z.of_nat k) l1) t =
  nth_error (pct_change (Z.of_nat k) l2) t.
Proof.
  intros H.
  assert (Hlen : (t < length l1)%nat <-> (t < length l2)%nat).
  { rewrite <- !nth_error_Some, (H t (Nat.le_refl t)). tauto. }
  destruct (Nat.lt_ge_cases t (length l1)) as [Hlt|Hge].
  - rewrite !nth_error_pct_change by tauto.
    rewrite (nth_ffill_prefix l1 l2 t t H) by lia.
    destruct (t <? k)%nat; [reflexivity |].
    rewrite (nth_ffill_prefix l1 l2 t (t - k) H) by lia. reflexivity.
  - assert (Hge2 : (length l2 <= t)%nat) by lia.
    transitivity (@None npfloat); [| symmetry];
      apply nth_error_None; rewrite length_pct_change; assumption.
Qed.

Lemma nth_error_features (df : list candle) (t : nat) (row : list npfloat) :
  nth_error (features df) t = Some row ->
  (t < length df)%nat /\
  let close := map close df in
  nth 0 row NaN = nth t (fillna (Fin 0) (pct_change 1 close)) NaN /\
  nth 1 row NaN = nth t (fillna (Fin 0) (pct_change 3 close)) NaN /\
  nth 2 row NaN = nth t (fillna (Fin 0) (pct_change 5 close)) NaN /\
  nth 3 row NaN = nth t (bfill (rolling_mean 5 close)) NaN /\
  nth 4 row NaN = nth t (bfill (rolling_mean 10 close)) NaN /\
  nth 6 row NaN = nth t (fillna (Fin 0) (map vol df)) NaN /\
  nth 9 row NaN =
    nth t (zip_with fdiv (zip_with fsub (map high df) (map low df))
             (map (fun x => fadd x (Fin eps9)) close)) NaN.
Proof.
  intros H.
  assert (Ht : (t < length df)%nat).
  { rewrite <- (length_features df). apply nth_error_Some. congruence. }
  split; [exact Ht |].
  unfold features in H. rewrite nth_error_map in H.
  rewrite (nth_error_nth' (seq 0 (length df)) 0%nat) in H
    by (rewrite length_seq; exact Ht).
  rewrite seq_nth in H by exact Ht. cbn [option_map Nat.add] in H.
  inversion H; subst row; clear H. cbn [map nth].
  repeat split; reflexivity.
Qed.

Lemma nth_fillna (v : npfloat) (l : list npfloat) (t : nat) :
  (t < length l)%nat ->
  nth t (fillna v l) NaN = if isna (nth t l NaN) then v else nth t l NaN.
Proof.
  intros Ht. unfold fillna.
  rewrite (nth_indep _ NaN ((fun x => if isna x then v else x) NaN))
    by (rewrite length_map; exact Ht).
  now rewrite (map_nth (fun x => if isna x then v else x)).
Qed.

(** X13. The return features have no history at the head of the series and
    are filled with [0] there: [ret_1] is [0] in row [0], [ret_3] in rows
    [0..2] and [ret_5] in rows [0..4], whatever the candles are. *)
Theorem features_leading_returns
  (df : list candle) (t : nat) (row : list npfloat) :
  nth_error (features df) t = Some row ->
  ((t < 1)%nat -> nth 0 row NaN = Fin 0) /\
  ((t < 3)%nat -> nth 1 row NaN = Fin 0) /\
  ((t < 5)%nat -> nth 2 row NaN = Fin 0).
Proof.
  intros H. destruct (nth_error_features df t row H)
    as [Ht [E0 [E1 [E2 _]]]].
  cbv zeta in E0, E1, E2.
  assert (G : forall k : nat, (t < k)%nat ->
            nth t (fillna (Fin 0)
                     (pct_change (Z.of_nat k) (map close df))) NaN = Fin 0).
  { intros k Hk.
    rewrite nth_fillna by (rewrite length_pct_change, length_map; exact Ht).
    rewrite (nth_of_nth_error (pct_change _ _)).
    rewrite nth_error_pct_change by (rewrite length_map; exact Ht).
    replace (t <? k)%nat with true by (symmetry; apply Nat.ltb_lt; lia).
    destruct (nth t (ffill (map close df)) NaN); reflexivity. }
  rewrite E0, E1, E2. repeat split; intros Hk.
  - apply (G 1%nat Hk).
  - apply (G 3%nat Hk).
  - apply (G 5%nat Hk).
Qed.

Lemma features_leading_returns_witness :
  nth 1 (nth 2 (features df5) []) NaN = Fin 0.
Proof.
  apply (proj1 (proj2 (features_leading_returns df5 2
                         (nth 2 (features df5) []) eq_refl))).
  lia.
Defined.

Lemma nth_agree {A : Type} (a b : list A) (t : nat) (d : A) :
  nth_error a t = nth_error b t -> nth t a d = nth t b d.
Proof. intros H. now rewrite !nth_of_nth_error, H. Qed.

(** X14. The return, volume and range features of a row do not look ahead:
    two candle series that agree on rows [0..t] give the same [ret_1],
    [ret_3], [ret_5], [vol] and [hl_range] in row [t]. *)
Theorem features_causal_columns
  (df1 df2 : list candle) (t : nat) (row1 row2 : list npfloat) :
  (forall i, (i <= t)%nat -> nth_error df1 i = nth_error df2 i) ->
  nth_error (features df1) t = Some row1 ->
  nth_error (features df2) t = Some row2 ->
  nth 0 row1 NaN = nth 0 row2 NaN /\
  nth 1 row1 NaN = nth 1 row2 NaN /\
  nth 2 row1 NaN = nth 2 row2 NaN /\
  nth 6 row1 NaN = nth 6 row2 NaN /\
  nth 9 row1 NaN = nth 9 row2 NaN.
Proof.
  intros Hag H1 H2.
  destruct (nth_error_features df1 t row1 H1)
    as [Ht1 [A0 [A1 [A2 [_ [_ [A6 A9]]]]]]].
  destruct (nth_error_features df2 t row2 H2)
    as [Ht2 [B0 [B1 [B2 [_ [_ [B6 B9]]]]]]].
  cbv zeta in *.
  assert (Hc : forall j, (j <= t)%nat ->
             nth_error (map close df1) j = nth_error (map close df2) j)
    by (intros j Hj; now rewrite !nth_error_map, (Hag j Hj)).
  assert (Hr : forall k : nat,
             nth t (fillna (Fin 0)
                      (pct_change (Z.of_nat k) (map close df1))) NaN =
             nth t (fillna (Fin 0)
                      (pct_change (Z.of_nat k) (map close df2))) NaN).
  { intros k. apply nth_agree. unfold fillna. rewrite !nth_error_map.
    now rewrite (pct_change_prefix k _ _ t Hc). }
  assert (Ht := Hag t (Nat.le_refl t)).
  rewrite A0, A1, A2, A6, A9, B0, B1, B2, B6, B9.
  split; [apply (Hr 1%nat) |]. split; [apply (Hr 3%nat) |].
  split; [apply (Hr 5%nat) |]. split.
  - apply nth_agree. unfold fillna. now rewrite !nth_error_map, Ht.
  - apply nth_agree.
    rewrite !nth_error_zip_with, !nth_error_map, Ht. reflexivity.
Qed.

Lemma features_causal_columns_witness :
  nth 0 (nth 2 (features df5) []) NaN =
  nth 0 (nth 2 (features df5_perturbed) []) NaN.
Proof.
  apply (features_causal_columns df5 df5_perturbed 2
           (nth 2 (features df5) []) (nth 2 (features df5_perturbed) [])).
  - intros i Hi. destruct i as [|[|[|i]]]; try reflexivity. lia.
  - reflexivity.
  - reflexivity.
Defined.

Lemma ffill_from_snoc (p x : npfloat) (a : list npfloat) :
  isna x = false -> ffill_from p (a ++ [x]) = ffill_from p a ++ [x].
Proof.
  intros Hx. revert p. induction a as [|y a IH]; intros p; cbn.
  - now rewrite Hx.
  - now rewrite IH.
Qed.

Lemma ffill_from_app_nan (p x : npfloat) (a : list npfloat) (k : nat) :
  isna x = false ->
  ffill_from p (a ++ x :: repeat NaN k) = ffill_from p a ++ repeat x (S k).
Proof.
  intros Hx. revert p. induction a as [|y a IH]; intros p.
  - cbn [app ffill_from]. rewrite Hx. cbn [repeat]. f_equal.
    clear. induction k as [|k IH]; cbn; [reflexivity |].
    now rewrite IH.
  - cbn [app ffill_from]. now rewrite IH.
Qed.

(** Back-filling copies the first value of a column over the NaN that
    lead it. *)
Lemma bfill_leading (k : nat) (x : npfloat) (r : list npfloat) :
  isna x = false ->
  bfill (repeat NaN k ++ x :: r) = repeat x (S k) ++ bfill r.
Proof.
  intros Hx. unfold bfill, ffill.
  rewrite rev_app_distr, rev_repeat. cbn [rev].
  rewrite <- app_assoc. cbn [app].
  rewrite ffill_from_app_nan by exact Hx.
  now rewrite rev_app_distr, rev_repeat.
Qed.

Lemma window_mean_finite (w : nat) (win : list npfloat) :
  (1 <= w)%nat ->
  Forall (fun v => isfinite v = true) win ->
  forallb isfinite win = true /\
  isna (fdiv (fsum win) (of_nat w)) = false.
Proof.
  intros Hw Hfin. split.
  - induction Hfin as [|v l Hv _ IH]; [reflexivity |].
    cbn [forallb]. now rewrite Hv, IH.
  - unfold fsum. destruct (fold_fadd_finite win Hfin 0%Q) as [q ->].
    unfold of_nat, of_Z. cbn [fdiv].
    replace (Qeq_bool (inject_Z (Z.of_nat w)) 0) with false
      by (symmetry; apply Qeq_bool_false; now apply inject_nat_nonzero).
    reflexivity.
Qed.

Lemma map_const_seq {A : Type} (d : A) (k : nat) :
  forall s, map (fun _ : nat => d) (seq s k) = repeat d k.
Proof.
  induction k as [|k IH]; intros s; cbn; [reflexivity |]. now rewrite IH.
Qed.

(** The rolling mean starts with [w - 1] NaN, then the mean of the first
    window. *)
Lemma rolling_mean_head (w : nat) (l : list npfloat) :
  (1 <= w <= length l)%nat ->
  Forall (fun v => isfinite v = true) (firstn w l) ->
  exists rest,
    rolling_mean w l =
    repeat NaN (w - 1) ++ fdiv (fsum (firstn w l)) (of_nat w) :: rest.
Proof.
  intros Hw Hfin. unfold rolling_mean.
  replace (length l) with ((w - 1) + S (length l - w))%nat by lia.
  rewrite seq_app, map_app. cbn [seq map].
  eexists. f_equal.
  - rewrite <- (map_const_seq NaN (w - 1) 0).
    apply map_ext_in. intros t Ht. apply in_seq in Ht.
    replace (w <=? t + 1)%nat with false
      by (symmetry; apply Nat.leb_gt; lia).
    reflexivity.
  - f_equal.
    replace (0 + (w - 1) + 1)%nat with w by lia.
    rewrite Nat.leb_refl, Nat.sub_diag. cbn [skipn]. cbv zeta.
    now rewrite (proj1 (window_mean_finite w _ (proj1 Hw) Hfin)).
Qed.

Lemma bfill_rolling_mean_head (w : nat) (l : list npfloat) (t : nat) :
  (1 <= w <= length l)%nat ->
  Forall (fun v => isfinite v = true) (firstn w l) ->
  (t < w)%nat ->
  nth t (bfill (rolling_mean w l)) NaN =
  fdiv (fsum (firstn w l)) (of_nat w).
Proof.
  intros Hw Hfin Ht.
  destruct (rolling_mean_head w l Hw Hfin) as [rest ->].
  rewrite bfill_leading
    by apply (proj2 (window_mean_finite w _ (proj1 Hw) Hfin)).
  rewrite app_nth1 by (rewrite repeat_length; lia).
  apply nth_repeat_lt. lia.
Qed.

(** X15. The moving averages of the leading rows look ahead: on a series
    of at least five candles whose first five closes are finite, [ma_5] of
    each of the rows [0..4] is the mean of the closes [0..4], and likewise
    [ma_10] of the rows [0..9] is the mean of the closes [0..9]: the
    back-fill hands the first full window to the rows before it. *)
Theorem moving_average_backfilled
  (df : list candle) (t : nat) (row : list npfloat) :
  nth_error (features df) t = Some row ->
  ((5 <= length df)%nat ->
   Forall (fun c => isfinite (close c) = true) (firstn 5 df) ->
   (t < 5)%nat ->
   nth 3 row NaN = fdiv (fsum (firstn 5 (map close df))) (of_nat 5)) /\
  ((10 <= length df)%nat ->
   Forall (fun c => isfinite (close c) = true) (firstn 10 df) ->
   (t < 10)%nat ->
   nth 4 row NaN = fdiv (fsum (firstn 10 (map close df))) (of_nat 10)).
Proof.
  intros H.
  destruct (nth_error_features df t row H) as [_ [_ [_ [_ [E3 [E4 _]]]]]].
  cbv zeta in E3, E4. rewrite E3, E4.
  split; intros Hn Hfin Ht;
    apply bfill_rolling_mean_head; try (rewrite length_map; lia); auto;
    rewrite firstn_map; apply Forall_map; exact Hfin.
Qed.

Lemma moving_average_backfilled_witness :
  nth 3 (nth 0 (features df5) []) NaN =
  fdiv (fsum (firstn 5 (map close df5))) (of_nat 5).
Proof.
  apply (proj1 (moving_average_backfilled df5 0
                  (nth 0 (features df5) []) eq_refl)).
  - cbn. lia.
  - repeat constructor.
  - lia.
Defined.

(** ** The prediction pipeline *)

Lemma select_threshold {A : Type} (l : list A) :
  forall (mask : list bool) (m : nat),
    length mask = length l ->
    (forall t, (t < m)%nat -> nth t mask false = true) ->
    (forall t, (m <= t)%nat -> nth t mask false = false) ->
    select l mask = firstn m l.
Proof.
  induction l as [|a l IH]; intros [|b mask] m Hlen Hlo Hhi;
    try discriminate Hlen.
  - now destruct m.
  - destruct m as [|m'].
    + assert (Hb : b = false) by (apply (Hhi 0%nat); lia). subst b.
      cbn [select firstn]. rewrite (IH mask 0%nat); [reflexivity | | |].
      * cbn in Hlen. lia.
      * intros t Ht. lia.
      * intros t Ht. apply (Hhi (S t)). lia.
    + assert (Hb : b = true) by (apply (Hlo 0%nat); lia). subst b.
      cbn [select firstn]. f_equal. apply IH.
      * cbn in Hlen. lia.
      * intros t Ht. apply (Hlo (S t)). lia.
      * intros t Ht. apply (Hhi (S t)). lia.
Qed.

Lemma skipn_nth_error {A : Type} (l : list A) :
  forall k x, nth_error l k = Some x -> exists r, skipn k l = x :: r.
Proof.
  induction l as [|a l IH]; intros [|k] x H; cbn in *; try discriminate.
  - inversion H. now eexists.
  - now apply IH.
Qed.

Lemma nth_error_combine {A B : Type} (a : list A) (b : list B) (t : nat) :
  nth_error (combine a b) t =
  match nth_error a t, nth_error b t with
  | Some x, Some y => Some (x, y)
  | _, _ => None
  end.
Proof.
  revert b t. induction a as [|x a IH]; intros [|y b] [|t]; cbn; auto.
  now destruct (nth_error a t).
Qed.

Lemma tail1_firstn {A : Type} (l : series A) (m : nat) (x : nat * A) :
  (1 <= m)%nat ->
  nth_error l (m - 1) = Some x ->
  tail1 (firstn m l) = [x].
Proof.
  intros Hm Hx. unfold tail1.
  assert (Hl : (m - 1 < length l)%nat) by (apply nth_error_Some; congruence).
  rewrite length_firstn.
  replace (Nat.min m (length l) - 1)%nat with (m - 1)%nat by lia.
  rewrite skipn_firstn_comm.
  replace (m - (m - 1))%nat with 1%nat by lia.
  destruct (skipn_nth_error l (m - 1) x Hx) as [r ->]. reflexivity.
Qed.

(** On a series without missing closes the valid rows are the first
    [n - h]. *)
Lemma build_X_clean (df : list candle) (h : Z) :
  (1 <= h)%Z ->
  Forall (fun c => isna (close c) = false) df ->
  fst (build_from_candles df h) =
  firstn (length df - Z.to_nat h) (labelled (features df)).
Proof.
  intros Hh Hall. unfold build_from_candles. cbn [fst].
  apply select_threshold.
  - unfold labelled.
    rewrite length_valid_idx, length_combine, length_seq, length_features.
    lia.
  - intros t Ht. rewrite nth_valid_idx by (try exact Hh; lia).
    rewrite nth_close_not_nan; [reflexivity | exact Hall | lia].
  - intros t Ht.
    destruct (Nat.lt_ge_cases t (length df)) as [Hlt|Hge].
    + rewrite nth_valid_idx by (try exact Hh; lia).
      rewrite nth_overflow; [reflexivity |]. rewrite length_map. lia.
    + apply nth_overflow. rewrite length_valid_idx. exact Hge.
Qed.

Lemma bar_to_steps_ge_one (bar : string) (hm s : Z) :
  _bar_to_steps bar hm = inr s -> (1 <= s)%Z.
Proof.
  unfold _bar_to_steps, floordiv.
  destruct (last_char (list_ascii_of_string bar)) as [e|u]; [discriminate |].
  repeat match goal with
         | |- context [if ?b then _ else _] => destruct b
         end;
    cbn; intros E; inversion E; lia.
Qed.

(** X16. [predict_pipeline] scores the last row that has a label, not the
    newest candle: on a series of [n] candles without missing closes and a
    horizon of [h < n] steps it hands the classifier the feature row of
    index [n - h - 1] alone; with [n <= h] candles no row is left and the
    pipeline raises. *)
Theorem predict_pipeline_row
  (df : list candle) (model : classifier) (bar : string) (hm h : Z) :
  _bar_to_steps bar hm = inr h ->
  Forall (fun c => isna (close c) = false) df ->
  ((Z.to_nat h < length df)%nat ->
   exists row,
     nth_error (features df) (length df - Z.to_nat h - 1) = Some row /\
     predict_pipeline df model bar hm =
     (probs <- predict_proba_up model [row] ;; last_item probs)) /\
  ((length df <= Z.to_nat h)%nat ->
   exists e, predict_pipeline df model bar hm = inl e).
Proof.
  intros Hs Hall. assert (Hh := bar_to_steps_ge_one _ _ _ Hs).
  assert (EX := build_X_clean df h Hh Hall).
  unfold predict_pipeline. rewrite Hs.
  destruct (build_from_candles df h) as [X y]. cbn [fst] in EX. subst X.
  split.
  - intros Hn.
    set (m := (length df - Z.to_nat h)%nat).
    destruct (nth_error (features df) (m - 1)) as [row|] eqn:Er.
    2:{ apply nth_error_None in Er. rewrite length_features in Er.
        unfold m in Er. lia. }
    exists row. split.
    + replace (length df - Z.to_nat h - 1)%nat with (m - 1)%nat
        by (unfold m; lia).
      first [exact Er | reflexivity].
    + rewrite (tail1_firstn _ m (m - 1, row)%nat).
      * reflexivity.
      * unfold m. lia.
      * unfold labelled. rewrite nth_error_combine, Er.
        rewrite (nth_error_nth' _ 0%nat)
          by (rewrite length_seq, length_features; unfold m; lia).
        rewrite seq_nth by (rewrite length_features; unfold m; lia).
        reflexivity.
  - intros Hn.
    replace (length df - Z.to_nat h)%nat with 0%nat by lia.
    cbn [firstn].
    change (values (tail1 (@nil (nat * list npfloat))))
      with (@nil (list npfloat)).
    destruct (predict_proba_up model []) as [e|probs] eqn:Ep;
      [now exists e |].
    apply predict_shape in Ep. destruct probs; [| discriminate Ep].
    now exists IndexError.
Qed.

Lemma predict_pipeline_row_witness :
  exists row,
    nth_error (features df5) 3 = Some row /\
    predict_pipeline df5 (const_model (Fin (6 # 10))) "1m" 1 =
    (probs <- predict_proba_up (const_model (Fin (6 # 10))) [row] ;;
     last_item probs).
Proof.
  apply (proj1 (predict_pipeline_row df5 (const_model (Fin (6 # 10)))
                  "1m" 1 1 eq_refl ltac:(repeat constructor))).
  cbn. lia.
Defined.

(** ** The model file *)

Lemma append_inj_l (s a b : string) :
  (s ++ a)%string = (s ++ b)%string -> a = b.
Proof.
  induction s as [|c s IH]; cbn; intros H; [exact H |].
  injection H as H. now apply IH.
Qed.

Lemma list_ascii_of_append (a b : string) :
  list_ascii_of_string (a ++ b) =
  list_ascii_of_string a ++ list_ascii_of_string b.
Proof. induction a as [|c a IH]; cbn; [reflexivity |]. now rewrite IH. Qed.

Lemma append_inj_r (a b s : string) :
  (a ++ s)%string = (b ++ s)%string -> a = b.
Proof.
  intros H. apply (f_equal list_ascii_of_string) in H.
  rewrite !list_ascii_of_append in H. apply app_inv_tail in H.
  rewrite <- (string_of_list_ascii_of_string a),
          <- (string_of_list_ascii_of_string b).
  now rewrite H.
Qed.

Lemma to_int_nonnil (z : Z) :
  Z.to_int z <> Decimal.Pos Decimal.Nil /\
  Z.to_int z <> Decimal.Neg Decimal.Nil.
Proof.
  destruct z as [|p|p]; cbn; split; try discriminate;
    intros H; injection H as H; now apply Unsigned.to_uint_nonnil in H.
Qed.

Lemma py_str_int_inj (a b : Z) : py_str_int a = py_str_int b -> a = b.
Proof.
  unfold py_str_int. intros H.
  apply (f_equal NilZero.int_of_string) in H.
  rewrite !NilZero.isi in H by apply to_int_nonnil.
  injection H as H. apply (f_equal Z.of_int) in H.
  now rewrite !DecimalZ.of_to in H.
Qed.

(** X17. The model file name tells horizons apart and ignores the
    difference between ['/'] and ['-'] in the instrument: for one
    instrument and bar, two horizons with the same file name are equal; and
    an instrument id has the file name of the id with every ['/'] replaced
    by ['-'], so ["BTC/USDT"] and ["BTC-USDT"] share one model file. *)
Theorem model_file_name_horizon_and_slash
  (inst_id bar : string) (h1 h2 : Z) :
  (model_file_name inst_id bar h1 = model_file_name inst_id bar h2 ->
   h1 = h2) /\
  model_file_name (str_replace_char "/" "-" inst_id) bar h1 =
  model_file_name inst_id bar h1.
Proof.
  split.
  - unfold model_file_name. cbv zeta. intros H.
    do 5 apply append_inj_l in H.
    apply append_inj_r in H. now apply py_str_int_inj.
  - unfold model_file_name. cbv zeta. do 2 f_equal.
    unfold str_replace_char.
    rewrite list_ascii_of_string_of_list_ascii, map_map. f_equal.
    apply map_ext. intros c.
    destruct (Ascii.eqb_spec c "/"%char) as [->|Hne]; [reflexivity |].
    now apply Ascii.eqb_neq in Hne as ->.
Qed.

Lemma model_file_name_horizon_and_slash_witness :
  model_file_name "BTC/USDT" "1m" 5 = model_file_name "BTC-USDT" "1m" 5 /\
  5%Z = 5%Z.
Proof.
  split.
  - exact (eq_sym (proj2 (model_file_name_horizon_and_slash
                            "BTC/USDT" "1m" 5 5))).
  - apply (proj1 (model_file_name_horizon_and_slash "BTC/USDT" "1m" 5 5)).
    reflexivity.
Defined.

(** ** The file cache *)

Section CacheFacts.

Variable payload : Type.
Variable hexdigest : string -> string.

Local Open Scope Q_scope.

Lemma key_to_path_inj (cfg : CacheConfig) (k k' : string) :
  _key_to_path hexdigest cfg k = _key_to_path hexdigest cfg k' ->
  hexdigest k = hexdigest k'.
Proof.
  unfold _key_to_path. intros H.
  do 2 apply append_inj_l in H. now apply append_inj_r in H.
Qed.

(** X18. An entry written at time [t0] is served back for its key as long
    as its age is at most the time to live (the bound included), and is a
    miss from then on. *)
Theorem cache_set_get_ttl
  (cfg : CacheConfig) (fs : filesystem payload) (t0 now : Q)
  (key : string) (p : payload) :
  (now - t0 <= ttl_seconds cfg ->
   cache_get hexdigest cfg (cache_set hexdigest cfg fs t0 key p) now key
   = Some p) /\
  (ttl_seconds cfg < now - t0 ->
   cache_get hexdigest cfg (cache_set hexdigest cfg fs t0 key p) now key
   = None).
Proof.
  unfold cache_get, cache_set. rewrite String.eqb_refl. cbv zeta.
  split; intros H.
  - replace (Qlt_bool (ttl_seconds cfg) (now - t0)) with false
      by (symmetry; now apply Qlt_bool_false).
    reflexivity.
  - replace (Qlt_bool (ttl_seconds cfg) (now - t0)) with true
      by (symmetry; now apply Qlt_bool_true).
    reflexivity.
Qed.

(** X19. Writing an entry for one key changes the answer for no key with
    another digest; two keys with one digest share the entry. *)
Theorem cache_set_other_key
  (cfg : CacheConfig) (fs : filesystem payload) (t0 now : Q)
  (key key' : string) (p : payload) :
  (hexdigest key' <> hexdigest key ->
   cache_get hexdigest cfg (cache_set hexdigest cfg fs t0 key p) now key'
   = cache_get hexdigest cfg fs now key') /\
  (hexdigest key' = hexdigest key ->
   cache_get hexdigest cfg (cache_set hexdigest cfg fs t0 key p) now key'
   = cache_get hexdigest cfg (cache_set hexdigest cfg fs t0 key p) now key).
Proof.
  split; intros H.
  - unfold cache_get, cache_set.
    destruct (String.eqb_spec (_key_to_path hexdigest cfg key')
                (_key_to_path hexdigest cfg key)) as [E|E];
      [| reflexivity].
    apply key_to_path_inj in E. contradiction.
  - unfold cache_get, cache_set, _key_to_path. now rewrite H.
Qed.

(** ** Fetching with retries *)

Local Open Scope Z_scope.

Variable cfg : OKXConfig.
Variable responses : nat -> option payload.

Lemma fetch_loop_step (fuel : nat) (attempt : Z) (sent : nat) :
  fetch_loop (S fuel) cfg responses attempt sent =
  match responses sent with
  | Some data => Some (Some data, S sent, [])
  | None =>
      if attempt + 1 >? retries cfg then Some (None, S sent, [])
      else
        match fetch_loop fuel cfg responses (attempt + 1) (S sent) with
        | Some (r, n, sl) =>
            Some (r, n, (backoff cfg * inject_Z (attempt + 1))%Q :: sl)
        | None => None
        end
  end.
Proof. reflexivity. Qed.

Lemma fetch_loop_total (d : nat) :
  forall attempt sent,
    Z.to_nat (retries cfg - attempt) = d ->
    exists r n sl,
      fetch_loop (S d) cfg responses attempt sent = Some (r, n, sl) /\
      (sent < n <= sent + S d)%nat /\
      length sl = (n - sent - 1)%nat.
Proof.
  induction d as [|d IH]; intros attempt sent Hd; rewrite fetch_loop_step.
  - destruct (responses sent) as [data|].
    + exists (Some data), (S sent), [].
      repeat split; try reflexivity; cbn [length]; lia.
    + replace (attempt + 1 >? retries cfg) with true
        by (symmetry; apply Z.gtb_lt; lia).
      exists None, (S sent), [].
      repeat split; try reflexivity; cbn [length]; lia.
  - destruct (responses sent) as [data|].
    + exists (Some data), (S sent), [].
      repeat split; try reflexivity; cbn [length]; lia.
    + replace (attempt + 1 >? retries cfg) with false
        by (symmetry; rewrite Z.gtb_ltb; apply Z.ltb_ge; lia).
      destruct (IH (attempt + 1) (S sent)) as [r [n [sl [E [Hn Hl]]]]];
        [lia |].
      rewrite E.
      exists r, n, ((backoff cfg * inject_Z (attempt + 1))%Q :: sl).
      repeat split; try reflexivity; cbn [length]; lia.
Qed.

Lemma fetch_loop_first_success (k : nat) :
  forall fuel attempt sent data,
    (k < fuel)%nat ->
    (forall j, (j < k)%nat -> responses (sent + j) = None) ->
    responses (sent + k) = Some data ->
    attempt + Z.of_nat k <= retries cfg ->
    fetch_loop fuel cfg responses attempt sent =
    Some (Some data, S (sent + k), pauses cfg attempt k).
Proof.
  induction k as [|k IH]; intros fuel attempt sent data Hf Hnone Hk Hr;
    destruct fuel as [|fuel]; try lia; rewrite fetch_loop_step;
    cbn [pauses].
  - rewrite Nat.add_0_r in *. now rewrite Hk.
  - assert (H0 := Hnone 0%nat ltac:(lia)). rewrite Nat.add_0_r in H0.
    rewrite H0.
    replace (attempt + 1 >? retries cfg) with false
      by (symmetry; rewrite Z.gtb_ltb; apply Z.ltb_ge; lia).
    rewrite (IH fuel (attempt + 1) (S sent) data).
    + do 3 f_equal. lia.
    + lia.
    + intros j Hj. replace (S sent + j)%nat with (sent + S j)%nat by lia.
      apply Hnone. lia.
    + replace (S sent + k)%nat with (sent + S k)%nat by lia. exact Hk.
    + lia.
Qed.

Lemma fetch_loop_all_fail (d : nat) :
  forall attempt sent,
    Z.to_nat (retries cfg - attempt) = d ->
    (forall j, (j <= d)%nat -> responses (sent + j) = None) ->
    fetch_loop (S d) cfg responses attempt sent =
    Some (None, S (sent + d), pauses cfg attempt d).
Proof.
  induction d as [|d IH]; intros attempt sent Hd Hnone;
    assert (H0 := Hnone 0%nat ltac:(lia)); rewrite Nat.add_0_r in H0;
    rewrite fetch_loop_step, H0; cbn [pauses].
  - replace (attempt + 1 >? retries cfg) with true
      by (symmetry; apply Z.gtb_lt; lia).
    now rewrite Nat.add_0_r.
  - replace (attempt + 1 >? retries cfg) with false
      by (symmetry; rewrite Z.gtb_ltb; apply Z.ltb_ge; lia).
    rewrite (IH (attempt + 1) (S sent)).
    + do 3 f_equal. lia.
    + lia.
    + intros j Hj. replace (S sent + j)%nat with (sent + S j)%nat by lia.
      apply Hnone. lia.
Qed.

Variable ccfg : CacheConfig.

(** X20. [_fetch] always comes to an end: it sends at most [retries + 1]
    requests (one when [retries] is negative), sleeps once between two
    requests, and answers from a cache hit without sending any. *)
Theorem fetch_bounded
  (fs : filesystem payload) (now t_set : Q) (key : string) :
  exists out,
    _fetch hexdigest cfg ccfg fs now t_set key responses = Some out /\
    (requests out <= S (Z.to_nat (retries cfg)))%nat /\
    length (sleeps out) = (requests out - 1)%nat /\
    (forall cached,
        cache_get hexdigest ccfg fs now key = Some cached ->
        out = mkOutcome (Some cached) 0 [] fs).
Proof.
  unfold _fetch.
  destruct (cache_get hexdigest ccfg fs now key) as [cached|].
  - eexists. split; [reflexivity |]. cbn. repeat split; try lia.
    intros c H. now inversion H.
  - destruct (fetch_loop_total (Z.to_nat (retries cfg)) 0 0%nat)
      as [r [n [sl [E [Hn Hl]]]]].
    { now rewrite Z.sub_0_r. }
    rewrite E. destruct r as [data|]; eexists;
      (split; [reflexivity |]); cbn; repeat split; try lia; discriminate.
Qed.

(** X21. On a cache miss the first request that succeeds, if it is among
    the first [retries + 1], ends the call: its data are returned after
    [k] failures and the pauses [backoff * 1 .. backoff * k], and they are
    stored, so that a [get] within the time to live finds them. *)
Theorem fetch_first_success
  (fs : filesystem payload) (now t_set later : Q) (key : string)
  (k : nat) (data : payload) :
  cache_get hexdigest ccfg fs now key = None ->
  (forall j, (j < k)%nat -> responses j = None) ->
  responses k = Some data ->
  Z.of_nat k <= retries cfg ->
  (later - t_set <= ttl_seconds ccfg)%Q ->
  exists out,
    _fetch hexdigest cfg ccfg fs now t_set key responses = Some out /\
    returned out = Some data /\
    requests out = S k /\
    sleeps out = pauses cfg 0 k /\
    cache_get hexdigest ccfg (store out) later key = Some data.
Proof.
  intros Hmiss Hnone Hk Hr Hl. unfold _fetch. rewrite Hmiss.
  rewrite (fetch_loop_first_success k _ 0 0%nat data); auto; try lia.
  eexists. split; [reflexivity |]. cbn [returned requests sleeps store].
  repeat split.
  unfold cache_get, cache_set. rewrite String.eqb_refl. cbv zeta.
  replace (Qlt_bool (ttl_seconds ccfg) (later - t_set)) with false
    by (symmetry; now apply Qlt_bool_false).
  reflexivity.
Qed.

(** X22. On a cache miss, when each of the first [retries + 1] requests
    fails, [_fetch] gives up after exactly that many requests, re-raises,
    has slept [backoff * 1 .. backoff * retries] and leaves the cache as it
    was. *)
Theorem fetch_gives_up
  (fs : filesystem payload) (now t_set : Q) (key : string) :
  cache_get hexdigest ccfg fs now key = None ->
  (forall j, (j <= Z.to_nat (retries cfg))%nat -> responses j = None) ->
  _fetch hexdigest cfg ccfg fs now t_set key responses =
  Some (mkOutcome None (S (Z.to_nat (retries cfg)))
          (pauses cfg 0 (Z.to_nat (retries cfg))) fs).
Proof.
  intros Hmiss Hnone. unfold _fetch. rewrite Hmiss.
  rewrite (fetch_loop_all_fail (Z.to_nat (retries cfg)) 0 0%nat).
  - reflexivity.
  - now rewrite Z.sub_0_r.
  - exact Hnone.
Qed.

End CacheFacts.

Lemma cache_set_get_ttl_witness :
  cache_get (fun k => k) cache_default
    (cache_set (fun k => k) cache_default empty_fs 100 "k" "v"%string)
    160 "k" = Some "v"%string /\
  cache_get (fun k => k) cache_default
    (cache_set (fun k => k) cache_default empty_fs 100 "k" "v"%string)
    161 "k" = None.
Proof.
  split.
  - apply (proj1 (cache_set_get_ttl string (fun k => k) cache_default
                    empty_fs 100 160 "k" "v"%string)).
    vm_compute. discriminate.
  - apply (proj2 (cache_set_get_ttl string (fun k => k) cache_default
                    empty_fs 100 161 "k" "v"%string)).
    vm_compute. reflexivity.
Defined.

Lemma cache_set_other_key_witness :
  cache_get (fun k => k) cache_default
    (cache_set (fun k => k) cache_default empty_fs 100 "k" "v"%string)
    120 "other" = cache_get (fun k => k) cache_default empty_fs 120 "other".
Proof.
  apply (proj1 (cache_set_other_key string (fun k => k) cache_default
                  empty_fs 100 120 "k" "other" "v"%string)).
  discriminate.
Defined.

Lemma fetch_bounded_witness :
  exists out,
    _fetch (fun k => k) okx_default cache_default empty_fs 0 1 "k"
      always_fails = Some out /\
    (requests out <= 4)%nat.
Proof.
  destruct (fetch_bounded string (fun k => k) okx_default always_fails
              cache_default empty_fs 0 1 "k") as [out [E [Hr _]]].
  exists out. split; [exact E | exact Hr].
Defined.

Lemma fetch_first_success_witness :
  exists out,
    _fetch (fun k => k) okx_default cache_default empty_fs 0 5 "k"
      fails_twice = Some out /\
    returned out = Some "candles"%string /\
    requests out = 3%nat /\
    sleeps out = pauses okx_default 0 2 /\
    cache_get (fun k => k) cache_default (store out) 60 "k"
    = Some "candles"%string.
Proof.
  apply (fetch_first_success string (fun k => k) okx_default fails_twice
           cache_default empty_fs 0 5 60 "k" 2 "candles"%string).
  - reflexivity.
  - intros j Hj. destruct j as [|[|j]]; try reflexivity. lia.
  - reflexivity.
  - vm_compute. discriminate.
  - vm_compute. discriminate.
Defined.

Lemma fetch_gives_up_witness :
  _fetch (fun k => k) okx_default cache_default empty_fs 0 1 "k" always_fails
  = Some (mkOutcome None 4 (pauses okx_default 0 3) empty_fs).
Proof.
  apply (fetch_gives_up string (fun k => k) okx_default always_fails
           cache_default empty_fs 0 1 "k").
  - reflexivity.
  - intros j _. reflexivity.
Defined.

(** ** Rows, labels and returns of a run *)

Local Open Scope Q_scope.

Lemma label_of_binary (ahead now : npfloat) :
  label_of ahead now = 0%Z \/ label_of ahead now = 1%Z.
Proof.
  unfold label_of.
  destruct (fgeb _ (Fin 0)); [now right | now left].
Qed.

Lemma label_of_positive (a q : Q) :
  0 < q -> (label_of (Fin a) (Fin q) = 1%Z <-> q <= a).
Proof.
  intros Hq. unfold label_of. cbn [fdiv].
  replace (Qeq_bool q 0) with false
    by (symmetry; apply Qeq_bool_false; lra).
  cbn [fsub fopp fadd isna fgeb fleb].
  assert (E : a / q + - (1) == (a - q) / q) by (field; lra).
  destruct (Qle_bool 0 (a / q + - (1))) eqn:Hb.
  - apply Qle_bool_iff in Hb. split; [intros _ | reflexivity].
    rewrite E in Hb.
    apply (Qmult_le_compat_r _ _ q) in Hb; [| lra].
    assert (E2 : (a - q) / q * q == a - q) by (field; lra).
    rewrite E2, Qmult_0_l in Hb. clear E E2. lra.
  - split; [discriminate |]. intros Hle. exfalso.
    assert (Hn : ~ 0 <= a / q + - (1)).
    { intros H. apply Qle_bool_iff in H. congruence. }
    apply Hn. rewrite E. apply Qle_shift_div_l; [exact Hq |].
    rewrite Qmult_0_l. clear E Hn Hb. lra.
Qed.

(** X23. Masking keeps every row at its own index: for each index [t] of
    the outputs of [build_from_candles], the feature row found at [t] is the
    row computed at candle [t], and the label found at [t] is [0] or [1];
    on a positive close with a finite close [h] rows ahead the label is [1]
    exactly when the later close is at least the close of the row. *)
Theorem build_from_candles_rows (df : list candle) (h : Z) (t : nat) :
  (1 <= h)%Z ->
  In t (index (fst (build_from_candles df h))) ->
  exists c row l,
    nth_error df t = Some c /\
    nth_error (features df) t = Some row /\
    loc (fst (build_from_candles df h)) t = inr row /\
    loc (snd (build_from_candles df h)) t = inr l /\
    (l = 0%Z \/ l = 1%Z) /\
    (forall a q,
        close c = Fin q -> 0 < q ->
        nth (t + Z.to_nat h) (map close df) NaN = Fin a ->
        (l = 1%Z <-> q <= a)).
Proof.
  intros Hh Hin.
  rewrite index_build_X in Hin by exact Hh.
  apply filter_In in Hin. destruct Hin as [Hseq Hv].
  apply in_seq in Hseq.
  destruct (nth_error df t) as [c|] eqn:Ec;
    [| apply nth_error_None in Ec; lia].
  destruct (nth_error (features df) t) as [row|] eqn:Er;
    [| apply nth_error_None in Er; rewrite length_features in Er; lia].
  exists c, row,
    (label_of (nth (t + Z.to_nat h) (map close df) NaN) (close c)).
  split; [reflexivity |]. split; [reflexivity |]. split; [| split].
  - unfold build_from_candles. cbn [fst].
    rewrite loc_select_labelled
      by now rewrite length_valid_idx, length_features.
    rewrite Er, nth_valid_idx by (try exact Hh; lia).
    now rewrite Hv.
  - rewrite loc_build_y by exact Hh. rewrite Ec. cbv zeta.
    apply negb_true_iff in Hv. now rewrite Hv.
  - split; [apply label_of_binary |].
    intros a q Hc Hq Ha. rewrite Ha, Hc. now apply label_of_positive.
Qed.

Lemma build_from_candles_rows_witness :
  exists c row l,
    nth_error df5 2 = Some c /\
    nth_error (features df5) 2 = Some row /\
    loc (fst (build_from_candles df5 1)) 2 = inr row /\
    loc (snd (build_from_candles df5 1)) 2 = inr l /\
    (l = 0%Z \/ l = 1%Z).
Proof.
  destruct (build_from_candles_rows df5 1 2)
    as [c [row [l [H1 [H2 [H3 [H4 [H5 _]]]]]]]].
  - lia.
  - vm_compute. auto.
  - exists c, row, l. auto.
Defined.





(** ** The sign of the Sharpe ratio *)

(** X25. On every non-empty series of finite net returns the guarded
    denominator [std + 1e-12] is positive, so the [else 0.0] branch of the
    Sharpe computation is never taken, and with a positive annualization
    factor the Sharpe ratio is positive, negative or zero exactly as the
    mean return is. *)
Theorem sharpe_sign_of_mean (strat_ret : list npfloat) (a : Q) :
  Forall (fun v => isfinite v = true) strat_ret ->
  strat_ret <> [] ->
  0 < a ->
  exists m s q,
    np_mean strat_ret = Fin m /\
    np_std strat_ret = Fin s /\ 0 < s + eps12 /\
    sharpe_of strat_ret (Fin a) = Fin q /\
    q == m / (s + eps12) * a /\
    (0 < q <-> 0 < m) /\ (q < 0 <-> m < 0) /\ (q == 0 <-> m == 0).
Proof.
  intros Hfin Hne Ha.
  destruct (np_mean_finite _ Hfin Hne) as [m Em].
  destruct (np_std_finite _ Hfin Hne) as [s [Es Hs]].
  assert (Hd : 0 < s + eps12) by (unfold eps12; lra).
  exists m, s, (m / (s + eps12) * a).
  split; [exact Em |]. split; [exact Es |]. split; [exact Hd |].
  split.
  { unfold sharpe_of. rewrite Em, Es. cbn [fadd fgtb fltb].
    replace (Qlt_bool 0 (s + eps12)) with true
      by (symmetry; now apply Qlt_bool_true).
    cbn [fdiv].
    replace (Qeq_bool (s + eps12) 0) with false
      by (symmetry; apply Qeq_bool_false; lra).
    reflexivity. }
  split; [reflexivity |].
  set (d := s + eps12) in *.
  assert (Hk : 0 < a / d) by (apply Qlt_shift_div_l; lra).
  assert (E : m / d * a == m * (a / d)) by (field; lra).
  rewrite E. set (k := a / d) in *. clearbody k d. clear E.
  split; [| split].
  - rewrite <- (Qmult_lt_r 0 m k Hk). now rewrite Qmult_0_l.
  - rewrite <- (Qmult_lt_r m 0 k Hk). now rewrite Qmult_0_l.
  - split; intros H.
    + apply Qmult_integral in H. destruct H as [H|H]; [exact H | lra].
    + rewrite H. apply Qmult_0_l.
Qed.

Lemma sharpe_sign_of_mean_witness :
  exists m s q,
    np_mean [Fin (1 # 100); Fin (-2 # 100)] = Fin m /\
    np_std [Fin (1 # 100); Fin (-2 # 100)] = Fin s /\
    sharpe_of [Fin (1 # 100); Fin (-2 # 100)] (Fin 725) = Fin q /\
    (q < 0 <-> m < 0).
Proof.
  destruct (sharpe_sign_of_mean [Fin (1 # 100); Fin (-2 # 100)] 725)
    as [m [s [q [Em [Es [_ [Eq [_ [_ [Hneg _]]]]]]]]]].
  - repeat constructor.
  - discriminate.
  - reflexivity.
  - exists m, s, q. auto.
Defined.

(* --------------------------------------------------------------------- *)
(** ** The feature row after the warm-up *)

Lemma ffill_from_keeps (l : list npfloat) :
  forall (p : npfloat) (i : nat) (x : npfloat),
    nth_error l i = Some x -> isna x = false ->
    nth_error (ffill_from p l) i = Some x.
Proof.
  induction l as [|a l IH]; intros p i x Hi Hx.
  - destruct i; discriminate Hi.
  - destruct i as [|i]; cbn [nth_error ffill_from] in *.
    + inversion Hi; subst a. now rewrite Hx.
    + now apply IH.
Qed.

(** Backward filling leaves a value that is present where it is. *)
Lemma bfill_keeps (l : list npfloat) (t : nat) (x : npfloat) :
  nth_error l t = Some x -> isna x = false ->
  nth_error (bfill l) t = Some x.
Proof.
  intros Ht Hx.
  assert (Hlt : (t < length l)%nat) by (apply nth_error_Some; congruence).
  unfold bfill, ffill.
  rewrite nth_error_rev, length_ffill_from, length_rev.
  replace (t <? length l)%nat with true
    by (symmetry; apply Nat.ltb_lt; exact Hlt).
  apply ffill_from_keeps; [| exact Hx].
  rewrite nth_error_rev.
  replace (length l - S t <? length l)%nat with true
    by (symmetry; apply Nat.ltb_lt; lia).
  replace (length l - S (length l - S t))%nat with t by lia. exact Ht.
Qed.

Lemma nth_error_rolling_mean (w : nat) (l : list npfloat) (t : nat) :
  (t < length l)%nat ->
  nth_error (rolling_mean w l) t =
  Some (if (w <=? t + 1)%nat then
          if forallb isfinite (firstn w (skipn (t + 1 - w) l))
          then fdiv (fsum (firstn w (skipn (t + 1 - w) l))) (of_nat w)
          else NaN
        else NaN).
Proof.
  intros Ht. unfold rolling_mean. rewrite nth_error_map.
  rewrite (nth_error_nth' (seq 0 (length l)) 0%nat)
    by (rewrite length_seq; exact Ht).
  rewrite seq_nth by exact Ht. reflexivity.
Qed.

(** The window that ends at row [t] lies within rows [0..t]. *)
Lemma window_prefix (w t : nat) (l1 l2 : list npfloat) :
  (w <= t + 1)%nat ->
  (forall i, (i <= t)%nat -> nth_error l1 i = nth_error l2 i) ->
  firstn w (skipn (t + 1 - w) l1) = firstn w (skipn (t + 1 - w) l2).
Proof.
  intros Hw H. apply nth_error_ext. intros i.
  rewrite !nth_error_firstn, !nth_error_skipn.
  destruct (i <? w)%nat eqn:E; [| reflexivity].
  apply Nat.ltb_lt in E. apply H. lia.
Qed.

Lemma window_finite (w t : nat) (l : list npfloat) :
  (w <= t + 1)%nat ->
  (forall i x, (t + 1 - w <= i <= t)%nat ->
               nth_error l i = Some x -> isfinite x = true) ->
  Forall (fun x => isfinite x = true) (firstn w (skipn (t + 1 - w) l)).
Proof.
  intros Hw H. apply Forall_forall. intros x Hx.
  destruct (In_nth_error _ _ Hx) as [i Hi].
  rewrite nth_error_firstn, nth_error_skipn in Hi.
  destruct (i <? w)%nat eqn:E; [| discriminate Hi].
  apply Nat.ltb_lt in E. apply (H (t + 1 - w + i)%nat x); [lia | exact Hi].
Qed.

(** Once its window is full and finite, a back-filled moving average is the
    mean of the window, and so is settled by rows [0..t]. *)
Lemma bfill_rolling_mean_full (w t : nat) (l : list npfloat) :
  (1 <= w <= t + 1)%nat -> (t < length l)%nat ->
  (forall i x, (t + 1 - w <= i <= t)%nat ->
               nth_error l i = Some x -> isfinite x = true) ->
  nth_error (bfill (rolling_mean w l)) t =
  Some (fdiv (fsum (firstn w (skipn (t + 1 - w) l))) (of_nat w)).
Proof.
  intros Hw Ht Hfin.
  destruct (window_mean_finite w (firstn w (skipn (t + 1 - w) l)))
    as [He Hm]; [lia | apply window_finite; [lia | exact Hfin] |].
  apply bfill_keeps; [| exact Hm].
  rewrite nth_error_rolling_mean by exact Ht.
  replace (w <=? t + 1)%nat with true by (symmetry; apply Nat.leb_le; lia).
  now rewrite He.
Qed.

Lemma bfill_rolling_mean_prefix (w t : nat) (l1 l2 : list npfloat) :
  (1 <= w <= t + 1)%nat ->
  (forall i, (i <= t)%nat -> nth_error l1 i = nth_error l2 i) ->
  (forall i x, (t + 1 - w <= i <= t)%nat ->
               nth_error l1 i = Some x -> isfinite x = true) ->
  nth_error (bfill (rolling_mean w l1)) t =
  nth_error (bfill (rolling_mean w l2)) t.
Proof.
  intros Hw Hag Hfin.
  assert (Hlen : (t < length l1)%nat <-> (t < length l2)%nat).
  { rewrite <- !nth_error_Some, (Hag t (Nat.le_refl t)). tauto. }
  destruct (Nat.lt_ge_cases t (length l1)) as [Hlt|Hge].
  - rewrite !bfill_rolling_mean_full; try tauto.
    + now rewrite (window_prefix w t l1 l2) by (lia || exact Hag).
    + intros i x Hi Hx. apply (Hfin i x Hi). now rewrite (Hag i) by lia.
  - assert (Hge2 : (length l2 <= t)%nat) by lia.
    transitivity (@None npfloat); [| symmetry];
      apply nth_error_None; rewrite length_bfill, length_rolling_mean;
      assumption.
Qed.

Lemma nth_error_fillna (v : npfloat) (l : list npfloat) (t : nat) :
  nth_error (fillna v l) t =
  option_map (fun x => if isna x then v else x) (nth_error l t).
Proof. apply nth_error_map. Qed.

Lemma features_row (df : list candle) (t : nat) (row : list npfloat) :
  nth_error (features df) t = Some row ->
  (t < length df)%nat /\
  let close := map close df in
  let ma_5 := bfill (rolling_mean 5 close) in
  let ma_10 := bfill (rolling_mean 10 close) in
  let vol := fillna (Fin 0) (map vol df) in
  let vol_ma_10 := bfill (rolling_mean 10 vol) in
  row =
  [nth t (fillna (Fin 0) (pct_change 1 close)) NaN;
   nth t (fillna (Fin 0) (pct_change 3 close)) NaN;
   nth t (fillna (Fin 0) (pct_change 5 close)) NaN;
   nth t ma_5 NaN;
   nth t ma_10 NaN;
   nth t (fillna (Fin 0)
            (map (fun x => fsub x (Fin 1))
               (zip_with fdiv ma_5
                  (map (fun x => fadd x (Fin eps9)) ma_10)))) NaN;
   nth t vol NaN;
   nth t vol_ma_10 NaN;
   nth t (fillna (Fin 0)
            (zip_with fdiv vol
               (map (fun x => fadd x (Fin eps9)) vol_ma_10))) NaN;
   nth t (zip_with fdiv (zip_with fsub (map high df) (map low df))
            (map (fun x => fadd x (Fin eps9)) close)) NaN].
Proof.
  intros H.
  assert (Ht : (t < length df)%nat).
  { rewrite <- (length_features df). apply nth_error_Some. congruence. }
  split; [exact Ht |].
  unfold features in H. rewrite nth_error_map in H.
  rewrite (nth_error_nth' (seq 0 (length df)) 0%nat) in H
    by (rewrite length_seq; exact Ht).
  rewrite seq_nth in H by exact Ht. cbn [option_map Nat.add] in H.
  inversion H; subst row; clear H. reflexivity.
Qed.

(** X26. From row 9 on the whole feature row is causal.  Two candle series
    that agree on rows [0..t], [t >= 9], whose closes are finite and whose
    volumes are not infinite in rows [t-9..t], give the same feature row [t]:
    the back-fill of the moving averages, the only step of the pipeline that
    reads later rows, has nothing left to fill there. *)
Theorem features_causal_after_warmup
  (df1 df2 : list candle) (t : nat) (row1 row2 : list npfloat) :
  (9 <= t)%nat ->
  (forall i, (i <= t)%nat -> nth_error df1 i = nth_error df2 i) ->
  (forall i c, (t - 9 <= i <= t)%nat -> nth_error df1 i = Some c ->
               isfinite (close c) = true /\ not_inf (vol c) = true) ->
  nth_error (features df1) t = Some row1 ->
  nth_error (features df2) t = Some row2 ->
  row1 = row2.
Proof.
  intros H9 Hag Hfin H1 H2.
  destruct (features_row df1 t row1 H1) as [Ht1 E1].
  destruct (features_row df2 t row2 H2) as [Ht2 E2].
  cbv zeta in E1, E2. subst row1 row2.
  assert (Hc : forall j, (j <= t)%nat ->
             nth_error (map close df1) j = nth_error (map close df2) j)
    by (intros j Hj; now rewrite !nth_error_map, (Hag j Hj)).
  assert (Hv : forall j, (j <= t)%nat ->
             nth_error (fillna (Fin 0) (map vol df1)) j =
             nth_error (fillna (Fin 0) (map vol df2)) j)
    by (intros j Hj; now rewrite !nth_error_fillna, !nth_error_map,
                                 (Hag j Hj)).
  assert (Hcf : forall i x, (t - 9 <= i <= t)%nat ->
              nth_error (map close df1) i = Some x -> isfinite x = true).
  { intros i x Hi Hx. rewrite nth_error_map in Hx.
    destruct (nth_error df1 i) as [c|] eqn:Ec; [| discriminate Hx].
    inversion Hx; subst x. apply (Hfin i c Hi Ec). }
  assert (Hvf : forall i x, (t - 9 <= i <= t)%nat ->
              nth_error (fillna (Fin 0) (map vol df1)) i = Some x ->
              isfinite x = true).
  { intros i x Hi Hx. rewrite nth_error_fillna, nth_error_map in Hx.
    destruct (nth_error df1 i) as [c|] eqn:Ec; [| discriminate Hx].
    inversion Hx; subst x. destruct (Hfin i c Hi Ec) as [_ Hn].
    destruct (vol c); [reflexivity | discriminate Hn | reflexivity]. }
  assert (Hr : forall k : nat,
             nth t (fillna (Fin 0)
                      (pct_change (Z.of_nat k) (map close df1))) NaN =
             nth t (fillna (Fin 0)
                      (pct_change (Z.of_nat k) (map close df2))) NaN).
  { intros k. apply nth_agree. rewrite !nth_error_fillna.
    now rewrite (pct_change_prefix k _ _ t Hc). }
  assert (M5 : nth_error (bfill (rolling_mean 5 (map close df1))) t =
               nth_error (bfill (rolling_mean 5 (map close df2))) t).
  { apply bfill_rolling_mean_prefix; [lia | exact Hc |].
    intros i x Hi. apply Hcf. lia. }
  assert (M10 : nth_error (bfill (rolling_mean 10 (map close df1))) t =
                nth_error (bfill (rolling_mean 10 (map close df2))) t).
  { apply bfill_rolling_mean_prefix; [lia | exact Hc |].
    intros i x Hi. apply Hcf. lia. }
  assert (V10 :
    nth_error (bfill (rolling_mean 10 (fillna (Fin 0) (map vol df1)))) t =
    nth_error (bfill (rolling_mean 10 (fillna (Fin 0) (map vol df2)))) t).
  { apply bfill_rolling_mean_prefix; [lia | exact Hv |].
    intros i x Hi. apply Hvf. lia. }
  assert (Ht := Hag t (Nat.le_refl t)).
  assert (Hvt := Hv t (Nat.le_refl t)).
  repeat match goal with |- _ :: _ = _ :: _ => f_equal end.
  - apply (Hr 1%nat).
  - apply (Hr 3%nat).
  - apply (Hr 5%nat).
  - apply nth_agree, M5.
  - apply nth_agree, M10.
  - apply nth_agree.
    rewrite !nth_error_fillna, !nth_error_map, !nth_error_zip_with,
      !nth_error_map, M5, M10. reflexivity.
  - apply nth_agree, Hvt.
  - apply nth_agree, V10.
  - apply nth_agree.
    rewrite (nth_error_fillna _ (zip_with _ _ _)).
    rewrite (nth_error_fillna _ (zip_with _ _ _)).
    rewrite !nth_error_zip_with, !nth_error_map, V10, Hvt. reflexivity.
  - apply nth_agree.
    rewrite !nth_error_zip_with, !nth_error_map, Ht. reflexivity.
Qed.

Lemma features_causal_after_warmup_witness :
  nth 9 (features df11) [] = nth 9 (features df11_perturbed) [].
Proof.
  apply (features_causal_after_warmup df11 df11_perturbed 9).
  - lia.
  - intros i Hi. do 10 (destruct i as [|i]; [reflexivity |]). lia.
  - intros i c Hi Hc.
    do 10 (destruct i as [|i];
           [inversion Hc; subst c; split; reflexivity |]).
    lia.
  - reflexivity.
  - reflexivity.
Defined.

(* --------------------------------------------------------------------- *)
(** ** A run that never takes a position *)

Lemma signals_flat (probs : list npfloat) (thr_long thr_short : npfloat) :
  Forall (fun p => fgtb p thr_long = false /\ fltb p thr_short = false)
    probs ->
  _signals_from_probs probs thr_long thr_short =
  repeat (Fin 0) (length probs).
Proof.
  intros H. rewrite signals_pointwise.
  induction H as [|p l [Hl Hs] _ IH]; cbn [map length repeat];
    [reflexivity |].
  now rewrite Hl, Hs, IH.
Qed.

Lemma firstn_repeat_cons {A : Type} (x : A) (k : nat) :
  firstn k (x :: repeat x k) = repeat x k.
Proof.
  induction k as [|k IH]; [reflexivity |].
  cbn [repeat firstn]. f_equal. exact IH.
Qed.

Lemma sig_shift_flat (n : nat) :
  (1 <= n)%nat ->
  sig_shift_of (repeat (Fin 0) n) = inr (repeat (Fin 0) n).
Proof.
  intros Hn. destruct n as [|k]; [lia |]. cbn [repeat].
  rewrite sig_shift_of_cons, repeat_length.
  now rewrite firstn_repeat_cons.
Qed.

Lemma net_ret_flat (ret : list npfloat) (fee slip : Q) :
  Forall (fun r => isfinite r = true) ret ->
  Forall (same_float (Fin 0))
    (net_ret (repeat (Fin 0) (length ret)) (repeat (Fin 0) (length ret)) ret
       (Fin fee) (Fin slip)).
Proof.
  unfold net_ret, gross_ret, costs_of, turnover_of, zip_with.
  rewrite cost_rate_finite.
  induction 1 as [|r l Hr _ IH];
    cbn [length repeat combine map fst snd]; constructor; [| exact IH].
  destruct r as [q| |]; try discriminate Hr.
  cbn [fmul fsub fadd fopp fabs same_float].
  rewrite (Qabs_self_diff 0). ring.
Qed.

Lemma cumprod_from_flat (initial : Q) (l : list npfloat) :
  Forall (same_float (Fin 0)) l ->
  forall acc, acc == 1 ->
    Forall (same_float (Fin initial))
      (map (fmul (Fin initial))
         (cumprod_from (Fin acc) (map (fun r => fadd (Fin 1) r) l))).
Proof.
  induction 1 as [|x l Hx _ IH]; intros acc Ha; cbn [map cumprod_from];
    [constructor |].
  destruct x as [q| |]; cbn [same_float] in Hx; try contradiction.
  cbn [fadd fmul]. constructor.
  - cbn [same_float]. rewrite <- Hx, Ha. ring.
  - apply IH. rewrite <- Hx, Ha. ring.
Qed.

Lemma fold_fadd_zero (l : list npfloat) :
  Forall (same_float (Fin 0)) l ->
  forall a, exists s, fold_left fadd l (Fin a) = Fin s /\ s == a.
Proof.
  induction 1 as [|x l Hx _ IH]; intros a; cbn [fold_left].
  - exists a. split; reflexivity.
  - destruct x as [q| |]; cbn [same_float] in Hx; try contradiction.
    cbn [fadd]. destruct (IH (a + q)) as [s [Es Hs]].
    exists s. split; [exact Es |]. rewrite Hs, <- Hx. ring.
Qed.

Lemma same_float_zero_finite (l : list npfloat) :
  Forall (same_float (Fin 0)) l -> Forall (fun v => isfinite v = true) l.
Proof.
  intros H. eapply Forall_impl; [| exact H].
  intros [q| |] Hq; cbn in *; auto; contradiction.
Qed.

(** X27. A run whose probabilities never cross a threshold stays flat and
    keeps its capital: when no probability is above [thr_long] or below
    [thr_short] (NaN included) and the aligned returns are finite, every net
    return is zero, costs included, every point of the equity curve equals
    the initial capital, and the Sharpe ratio is zero. *)
Theorem flat_strategy_keeps_capital
  (probs ret : list npfloat) (thr_long thr_short : npfloat)
  (fee slip initial ann : Q) :
  probs <> [] ->
  length ret = length probs ->
  Forall (fun p => fgtb p thr_long = false /\ fltb p thr_short = false)
    probs ->
  Forall (fun r => isfinite r = true) ret ->
  exists strat_ret,
    strat_ret_of (_signals_from_probs probs thr_long thr_short) ret
      (Fin fee) (Fin slip) = inr strat_ret /\
    length strat_ret = length probs /\
    Forall (same_float (Fin 0)) strat_ret /\
    Forall (same_float (Fin initial))
      (map (fmul (Fin initial))
         (cumprod (map (fun r => fadd (Fin 1) r) strat_ret))) /\
    same_float (Fin 0) (sharpe_of strat_ret (Fin ann)).
Proof.
  intros Hne Hlen Hflat Hfin.
  assert (Hn : (1 <= length probs)%nat)
    by (destruct probs; [contradiction | cbn; lia]).
  rewrite (signals_flat _ _ _ Hflat). unfold strat_ret_of.
  rewrite (sig_shift_flat _ Hn). cbn [ok]. rewrite <- Hlen.
  set (sr := net_ret _ _ ret (Fin fee) (Fin slip)).
  assert (Hz : Forall (same_float (Fin 0)) sr) by (apply net_ret_flat, Hfin).
  assert (Hl : length sr = length ret).
  { unfold sr. rewrite length_net_ret; rewrite ?repeat_length; lia. }
  assert (Hsne : sr <> []).
  { intros E. rewrite E in Hl. cbn in Hl. lia. }
  exists sr. split; [reflexivity |]. split; [exact Hl |].
  split; [exact Hz |]. split.
  - destruct Hz as [|x l Hx Hz]; [constructor |].
    destruct x as [q| |]; cbn [same_float] in Hx; try contradiction.
    cbn [map cumprod fadd fmul]. constructor.
    + cbn [same_float]. rewrite <- Hx. ring.
    + apply cumprod_from_flat; [exact Hz |]. rewrite <- Hx. ring.
  - assert (Hf := same_float_zero_finite _ Hz).
    destruct (np_std_finite _ Hf Hsne) as [s [Es Hs]].
    assert (Hd : 0 < s + eps12) by (unfold eps12; lra).
    assert (Em : exists m, np_mean sr = Fin m /\ m == 0).
    { unfold np_mean, fsum.
      destruct (fold_fadd_zero _ Hz 0) as [q [-> Hq]].
      unfold of_nat, of_Z. cbn [fdiv].
      assert (Hnz := inject_nat_nonzero (length sr) ltac:(lia)).
      replace (Qeq_bool (inject_Z (Z.of_nat (length sr))) 0) with false
        by (symmetry; now apply Qeq_bool_false).
      eexists. split; [reflexivity |]. rewrite Hq. field. exact Hnz. }
    destruct Em as [m [Em Hm]].
    unfold sharpe_of. rewrite Em, Es. cbn [fadd fgtb fltb].
    replace (Qlt_bool 0 (s + eps12)) with true
      by (symmetry; now apply Qlt_bool_true).
    cbn [fdiv].
    replace (Qeq_bool (s + eps12) 0) with false
      by (symmetry; apply Qeq_bool_false; lra).
    cbn [fmul same_float]. rewrite Hm. field. lra.
Qed.

Lemma flat_strategy_keeps_capital_witness :
  exists strat_ret,
    strat_ret_of
      (_signals_from_probs [Fin (1 # 2); NaN; Fin (1 # 2)]
         (Fin (55 # 100)) (Fin (45 # 100)))
      [Fin 0; Fin (1 # 100); Fin (-2 # 100)] (Fin 5) (Fin 2)
    = inr strat_ret /\
    Forall (same_float (Fin 10000))
      (map (fmul (Fin 10000))
         (cumprod (map (fun r => fadd (Fin 1) r) strat_ret))).
Proof.
  destruct (flat_strategy_keeps_capital
              [Fin (1 # 2); NaN; Fin (1 # 2)]
              [Fin 0; Fin (1 # 100); Fin (-2 # 100)]
              (Fin (55 # 100)) (Fin (45 # 100)) 5 2 10000 1)
    as [sr [E [_ [_ [H _]]]]].
  - discriminate.
  - reflexivity.
  - repeat constructor.
  - repeat constructor.
  - exists sr. auto.
Defined.

(** An infinite return is not neutralised by a flat position: [0 * inf] is
    NaN, and the net return of that period is NaN. *)
Example flat_position_infinite_return :
  exists x, strat_ret_of [Fin 0; Fin 0] [Fin 0; Inf false] (Fin 5) (Fin 2)
            = inr [x; NaN].
Proof. eexists. vm_compute. reflexivity. Qed.
